(** * A shallow embedding of the schedula dispatcher

    The development follows [dispatcher/dispatcher.py],
    [dispatcher/utils.py] and [dispatcher/utils/dsp.py].  Python dictionaries
    are association lists that keep insertion order, Python sets are
    duplicate-free lists, integers are [Z], the mutable [Dispatcher] object
    is a record threaded through a state-and-exception monad, and loops that
    Python writes with [while] take a fuel argument. *)

From Stdlib Require Import ZArith List String Ascii Bool Lia PeanoNat PrimFloat.
From Stdlib Require Import Decimal DecimalString.
From Stdlib Require Import Sorted Permutation.
Import ListNotations.
Local Open Scope string_scope.
Local Open Scope Z_scope.

Set Implicit Arguments.

(* ------------------------------------------------------------------ *)
(** ** Tokens ([dispatcher/utils.py], class [Token]) *)

Module Tokens.

  (** The three kinds of object that matter for a comparison with a token:
      plain [str], [Token] (a subclass of [str] overriding [__eq__],
      [__ne__] and [__hash__]) and any other object. *)
Inductive pyclass := Str | TokenCls | Other.

  (** An object is its identity ([id(o)]), its class and, for strings, its
      spelling. *)
Record pyobj := { id : nat; cls : pyclass; spelling : string }.

  (** [a is b] *)
Definition is_ (a b : pyobj) : bool := Nat.eqb (id a) (id b).

Definition Token___repr__ (self : pyobj) : string := spelling self.
Definition Token___eq__ (self other : pyobj) : bool := is_ self other.
Definition Token___ne__ (self other : pyobj) : bool := negb (is_ self other).
Definition Token___hash__ (self : pyobj) : nat := id self.

  (** [str.__eq__] on two strings compares spellings; the default
      [object.__eq__] is identity. *)
Definition str___eq__ (a b : pyobj) : bool := String.eqb (spelling a) (spelling b).

  (** Python's [a == b]: the left operand's method runs first unless the
      right operand's class is a proper subclass that overrides it. *)
Definition py_eq (a b : pyobj) : bool :=
    match cls a, cls b with
    | TokenCls, _ => Token___eq__ a b
    | Str, TokenCls => Token___eq__ b a
    | Str, Str => str___eq__ a b
    | _, _ => is_ a b
    end.

  (** Python's [a != b], with the same dispatch on [__ne__]. *)
Definition py_ne (a b : pyobj) : bool :=
    match cls a, cls b with
    | TokenCls, _ => Token___ne__ a b
    | Str, TokenCls => Token___ne__ b a
    | Str, Str => negb (str___eq__ a b)
    | _, _ => negb (is_ a b)
    end.

  (** [hash(o)]: a token hashes to its identity, a string to a function of
      its spelling ([str_hash] stands for CPython's string hash). *)
Definition py_hash (str_hash : string -> nat) (o : pyobj) : nat :=
    match cls o with
    | TokenCls => Token___hash__ o
    | Str => str_hash (spelling o)
    | Other => id o
    end.

End Tokens.

(* ------------------------------------------------------------------ *)
(** ** Node keys *)

(** Node keys are strings; the sentinels [START] and [SINK] are tokens and
    so differ from every string, whatever its spelling. *)
Inductive node_id := START | SINK | Id (s : string).

Definition node_id_eqb (a b : node_id) : bool :=
  match a, b with
  | START, START => true
  | SINK, SINK => true
  | Id s, Id t => String.eqb s t
  | _, _ => false
  end.

(** Modelled from the spec: the module [dispatcher/constants.py], which
    creates the sentinels, is not among the sources; a token is a [str], so
    it is ordered ([<]) by its spelling. *)
Definition str_of_node (n : node_id) : string :=
  match n with
  | START => "start"
  | SINK => "sink"
  | Id s => s
  end.

(** [repr] of a key, as [str.format] prints it inside a set. *)
Definition repr_node (n : node_id) : string :=
  match n with
  | Id s => "'" ++ s ++ "'"
  | _ => str_of_node n
  end.

(* ------------------------------------------------------------------ *)
(** ** Dictionaries and sets *)

Definition dict (A : Type) := list (node_id * A).

Fixpoint get {A} (k : node_id) (d : dict A) : option A :=
  match d with
  | [] => None
  | (k', v) :: r => if node_id_eqb k k' then Some v else get k r
  end.

(** [d[k] = v]: an existing key keeps its place, a new one goes last. *)
Fixpoint set {A} (k : node_id) (v : A) (d : dict A) : dict A :=
  match d with
  | [] => [(k, v)]
  | (k', v') :: r => if node_id_eqb k k' then (k', v) :: r else (k', v') :: set k v r
  end.

Fixpoint del {A} (k : node_id) (d : dict A) : dict A :=
  match d with
  | [] => []
  | (k', v') :: r => if node_id_eqb k k' then r else (k', v') :: del k r
  end.

Definition keys {A} (d : dict A) : list node_id := map fst d.
Definition values {A} (d : dict A) : list A := map snd d.

Definition has_key {A} (k : node_id) (d : dict A) : bool :=
  match get k d with Some _ => true | None => false end.

(** [d.update(e)] *)
Definition update {A} (d e : dict A) : dict A :=
  fold_left (fun acc kv => set (fst kv) (snd kv) acc) e d.

(** [dict.fromkeys(ks, v)] *)
Definition fromkeys {A} (ks : list node_id) (v : A) : dict A :=
  fold_left (fun acc k => set k v acc) ks [].

Fixpoint mem (k : node_id) (s : list node_id) : bool :=
  match s with
  | [] => false
  | x :: r => node_id_eqb k x || mem k r
  end.

Definition set_add (k : node_id) (s : list node_id) : list node_id :=
  if mem k s then s else s ++ [k].

Definition set_remove (k : node_id) (s : list node_id) : list node_id :=
  filter (fun x => negb (node_id_eqb k x)) s.

(** [set(l)] *)
Definition set_of (l : list node_id) : list node_id :=
  fold_left (fun acc k => set_add k acc) l [].

(** [a - b] *)
Definition difference (a b : list node_id) : list node_id :=
  filter (fun x => negb (mem x b)) a.

(** [a | b] *)
Definition union (a b : list node_id) : list node_id :=
  fold_left (fun acc k => set_add k acc) b a.

Definition subset (a b : list node_id) : bool :=
  forallb (fun x => mem x b) a.

Definition is_empty {A} (l : list A) : bool :=
  match l with [] => true | _ => false end.

(* ------------------------------------------------------------------ *)
(** ** Directed graphs (networkx [DiGraph], as the dispatcher uses it) *)

Section Graph.

Variables N E : Type.

  (** [node], [succ] and [pred] are the three dictionaries of a [DiGraph]. *)
Record DiGraph := { node : dict N; succ : dict (dict E); pred : dict (dict E) }.

Definition empty_graph : DiGraph := {| node := []; succ := []; pred := [] |}.

Definition has_node (n : node_id) (g : DiGraph) : bool := has_key n (node g).

Definition adj (m : dict (dict E)) (u : node_id) : dict E :=
    match get u m with Some x => x | None => [] end.

Definition set2 (u v : node_id) (e : E) (m : dict (dict E)) : dict (dict E) :=
    set u (set v e (adj m u)) m.

Definition del2 (u v : node_id) (m : dict (dict E)) : dict (dict E) :=
    match get u m with Some x => set u (del v x) m | None => m end.

  (** [g.add_node(n, attr_dict=a)]: a new node gets [a], an old one has its
      attribute dictionary updated with [a] ([upd old a]). *)
Definition add_node (upd : N -> N -> N) (n : node_id) (a : N) (g : DiGraph) : DiGraph :=
    if has_key n (succ g) then
      {| node := set n (match get n (node g) with Some old => upd old a | None => a end) (node g);
         succ := succ g; pred := pred g |}
    else
      {| node := set n a (node g); succ := set n [] (succ g); pred := set n [] (pred g) |}.

  (** [g.add_edge(u, v, **e)]: missing end nodes are created with the
      attribute dictionary [blank]; the edge dictionary is updated. *)
Definition add_edge (blank : N) (upd : E -> E -> E) (u v : node_id) (e : E) (g : DiGraph) : DiGraph :=
    let mk n g :=
      if has_key n (succ g) then g
      else {| node := set n blank (node g); succ := set n [] (succ g); pred := set n [] (pred g) |} in
    let g := mk v (mk u g) in
    let datadict := match get v (adj (succ g) u) with Some old => upd old e | None => e end in
    {| node := node g; succ := set2 u v datadict (succ g); pred := set2 v u datadict (pred g) |}.

  (** [g.remove_node(n)]; [None] stands for [NetworkXError]. *)
Definition remove_node (n : node_id) (g : DiGraph) : option DiGraph :=
    match get n (succ g) with
    | None => None
    | Some nbrs =>
        let pred1 := fold_left (fun p u => del2 u n p) (keys nbrs) (pred g) in
        let succ1 := del n (succ g) in
        let succ2 := fold_left (fun s u => del2 u n s) (keys (adj pred1 n)) succ1 in
        Some {| node := del n (node g); succ := succ2; pred := del n pred1 |}
    end.

Definition remove_edge_if_present (u v : node_id) (g : DiGraph) : DiGraph :=
    if has_key v (adj (succ g) u) then
      {| node := node g; succ := del2 u v (succ g); pred := del2 v u (pred g) |}
    else g.

  (** [g.remove_edges_from(ebunch)] *)
Definition remove_edges_from (ebunch : list (node_id * node_id)) (g : DiGraph) : DiGraph :=
    fold_left (fun g e => remove_edge_if_present (fst e) (snd e) g) ebunch g.

  (** [g.edges()] *)
Definition edges (g : DiGraph) : list (node_id * node_id) :=
    flat_map (fun un => map (fun v => (fst un, v)) (keys (snd un))) (succ g).

  (** Modelled from the spec: [graph_utils.add_edge_fun], which is not
      among the sources, returns the edge-adding primitive of a graph
      (4.1, "add/remove edge"): the head node is created empty when it is
      new, the edge dictionary is replaced, and a tail node that is not in
      the graph is a [KeyError] (the flag is [false]). *)
Definition add_edge_fun (blank : N) (g : DiGraph) (u v : node_id) (e : E) : DiGraph * bool :=
    let g1 :=
      if has_key v (succ g) then g
      else {| node := set v blank (node g); succ := set v [] (succ g); pred := set v [] (pred g) |} in
    if has_key u (succ g1) then
      ({| node := node g1; succ := set2 u v e (succ g1); pred := set2 v u e (pred g1) |}, true)
    else (g1, false).

End Graph.

(* ------------------------------------------------------------------ *)
(** ** Exceptions *)

Inductive exn_class :=
  ValueError | KeyError | TypeError | IndexError | NetworkXError | UserError.

(** An exception is its class and [str(ex)]. *)
Record exn := Exn { exn_class_of : exn_class; exn_str : string }.

(** What a call of user code does: return or raise. *)
Inductive ures (A : Type) := Return (a : A) | Throw (e : exn).
Arguments Return {A} a.
Arguments Throw {A} e.

(** What a method of the dispatcher does: return, raise, or (for the
    model's loops) run out of fuel. *)
Inductive outcome (A : Type) := Ok (a : A) | Raise (e : exn) | Fuel.
Arguments Ok {A} a.
Arguments Raise {A} e.
Arguments Fuel {A}.

Definition contradictory_paths : string :=
  "Contradictory paths found: negative weights?".

Definition estimation_error_data (n : node_id) (ex : exn) : string :=
  "Estimation error at data node (" ++ str_of_node n ++ ") due to: " ++ exn_str ex.

Definition callback_error_data (n : node_id) (ex : exn) : string :=
  "Callback error at data node (" ++ str_of_node n ++ ") due to: " ++ exn_str ex.

Definition estimation_error_function (n : node_id) (ex : exn) : string :=
  "Estimation error at function node (" ++ str_of_node n ++ ") due to: " ++ exn_str ex.

(** ['{}'.format(s)] for a set of keys. *)
Definition repr_set (s : list node_id) : string :=
  match s with
  | [] => "set()"
  | _ => "{" ++ String.concat ", " (map repr_node s) ++ "}"
  end.

Definition unreachable_prefix : string := "Unreachable output-targets:".

Definition unreachable_output_targets (missed : list node_id) : string :=
  unreachable_prefix ++ repr_set missed.

(** The outputs that were asked for: none when [outputs] is [None]. *)
Definition requested (outs : option (list node_id)) : list node_id :=
  match outs with Some l => l | None => [] end.

(* ------------------------------------------------------------------ *)
(** ** The dispatcher ([dispatcher/dispatcher.py]) *)

Section Engine.

  (** The values of the client's functions are opaque to the engine. *)
Variable V : Type.

  (** What travels on an edge: a client value or the token [NONE]. *)
Inductive val := User (v : V) | NONE.

  (** Python's iteration protocol on a returned value, used to unpack the
      result of a function node with several outputs ([None]: the value is
      not iterable, a [TypeError]). *)
Variable py_iter : val -> option (list val).

  (** The object stored under a node's ['function'] key: a data node
      estimation function (called with one dictionary), a function node's
      function (called with positional arguments) or Python's [None]. *)
Inductive callable :=
  | Aggregator (f : dict val -> ures val)
  | Function (f : list val -> ures val)
  | PyNone.

  (** The ['type'] tag. *)
Inductive node_type := type_data | type_function.

  (** A node's attribute dictionary; an optional key is an [option]. *)
Record node_attr := {
    type : node_type;
    wait_inputs : bool;
    wildcard : option bool;
    function : option callable;
    callback : option (val -> ures unit);
    inputs : option (list node_id);
    outputs : option (list node_id);
    input_domain : option (list val -> ures bool);
    weight : option Z
  }.

  (** An edge of the dispatcher map: its optional ['weight']. *)
Definition edge_attr := option Z.

  (** A node of the workflow: its optional ['type'] (only [START] has
      one); an edge of the workflow: its optional ['value']. *)
Definition wf_node := option string.
Definition wf_edge := option val.

  (** What a dispatch does to the outside world: log records and calls of
      the callbacks. *)
Inductive event := Warning (msg : string) | Callback (n : node_id) (v : val).

Record Dispatcher := {
    dmap : DiGraph node_attr edge_attr;
    name : string;
    default_values : dict val;
    raises : bool;
    workflow : DiGraph wf_node wf_edge;
    data_output : dict val;
    dist : dict Z;
    _visited : list node_id;
    _targets : list node_id;
    _cutoff : option Z;
    _wildcards : list node_id;
    _wait_in : dict bool
  }.

  (** [self.nodes] is [self.dmap.node], [self._pred] is [self.dmap.pred],
      [self._succ] is [self.dmap.succ] and [self._wf_pred] is
      [self.workflow.pred]: the same dictionary objects. *)
Definition nodes (d : Dispatcher) := node (dmap d).
Definition _pred (d : Dispatcher) := pred (dmap d).
Definition _succ (d : Dispatcher) := succ (dmap d).
Definition _wf_pred (d : Dispatcher) := pred (workflow d).

  (** [Dispatcher.__init__] *)
Definition new_Dispatcher (dm : DiGraph node_attr edge_attr) (nm : string)
             (dv : dict val) (r : bool) : Dispatcher :=
    {| dmap := dm; name := nm; default_values := dv; raises := r;
       workflow := empty_graph _ _; data_output := []; dist := [];
       _visited := []; _targets := []; _cutoff := None; _wildcards := [];
       _wait_in := [] |}.

Definition empty_Dispatcher : Dispatcher :=
    new_Dispatcher (empty_graph _ _) "Dispatcher" [] false.

Definition set_dmap x (d : Dispatcher) : Dispatcher :=
    {| dmap := x; name := name d; default_values := default_values d; raises := raises d;
       workflow := workflow d; data_output := data_output d; dist := dist d;
       _visited := _visited d; _targets := _targets d; _cutoff := _cutoff d;
       _wildcards := _wildcards d; _wait_in := _wait_in d |}.
Definition set_name x (d : Dispatcher) : Dispatcher :=
    {| dmap := dmap d; name := x; default_values := default_values d; raises := raises d;
       workflow := workflow d; data_output := data_output d; dist := dist d;
       _visited := _visited d; _targets := _targets d; _cutoff := _cutoff d;
       _wildcards := _wildcards d; _wait_in := _wait_in d |}.
Definition set_default_values x (d : Dispatcher) : Dispatcher :=
    {| dmap := dmap d; name := name d; default_values := x; raises := raises d;
       workflow := workflow d; data_output := data_output d; dist := dist d;
       _visited := _visited d; _targets := _targets d; _cutoff := _cutoff d;
       _wildcards := _wildcards d; _wait_in := _wait_in d |}.
Definition set_workflow x (d : Dispatcher) : Dispatcher :=
    {| dmap := dmap d; name := name d; default_values := default_values d; raises := raises d;
       workflow := x; data_output := data_output d; dist := dist d;
       _visited := _visited d; _targets := _targets d; _cutoff := _cutoff d;
       _wildcards := _wildcards d; _wait_in := _wait_in d |}.
Definition set_data_output x (d : Dispatcher) : Dispatcher :=
    {| dmap := dmap d; name := name d; default_values := default_values d; raises := raises d;
       workflow := workflow d; data_output := x; dist := dist d;
       _visited := _visited d; _targets := _targets d; _cutoff := _cutoff d;
       _wildcards := _wildcards d; _wait_in := _wait_in d |}.
Definition set_dist x (d : Dispatcher) : Dispatcher :=
    {| dmap := dmap d; name := name d; default_values := default_values d; raises := raises d;
       workflow := workflow d; data_output := data_output d; dist := x;
       _visited := _visited d; _targets := _targets d; _cutoff := _cutoff d;
       _wildcards := _wildcards d; _wait_in := _wait_in d |}.
Definition set_visited x (d : Dispatcher) : Dispatcher :=
    {| dmap := dmap d; name := name d; default_values := default_values d; raises := raises d;
       workflow := workflow d; data_output := data_output d; dist := dist d;
       _visited := x; _targets := _targets d; _cutoff := _cutoff d;
       _wildcards := _wildcards d; _wait_in := _wait_in d |}.
Definition set_targets x (d : Dispatcher) : Dispatcher :=
    {| dmap := dmap d; name := name d; default_values := default_values d; raises := raises d;
       workflow := workflow d; data_output := data_output d; dist := dist d;
       _visited := _visited d; _targets := x; _cutoff := _cutoff d;
       _wildcards := _wildcards d; _wait_in := _wait_in d |}.
Definition set_cutoff x (d : Dispatcher) : Dispatcher :=
    {| dmap := dmap d; name := name d; default_values := default_values d; raises := raises d;
       workflow := workflow d; data_output := data_output d; dist := dist d;
       _visited := _visited d; _targets := _targets d; _cutoff := x;
       _wildcards := _wildcards d; _wait_in := _wait_in d |}.
Definition set_wildcards x (d : Dispatcher) : Dispatcher :=
    {| dmap := dmap d; name := name d; default_values := default_values d; raises := raises d;
       workflow := workflow d; data_output := data_output d; dist := dist d;
       _visited := _visited d; _targets := _targets d; _cutoff := _cutoff d;
       _wildcards := x; _wait_in := _wait_in d |}.
Definition set_wait_in x (d : Dispatcher) : Dispatcher :=
    {| dmap := dmap d; name := name d; default_values := default_values d; raises := raises d;
       workflow := workflow d; data_output := data_output d; dist := dist d;
       _visited := _visited d; _targets := _targets d; _cutoff := _cutoff d;
       _wildcards := _wildcards d; _wait_in := x |}.
  (** *** The monad of the methods: the state is the object, an exception
      leaves the object as it was when it was raised, and the log of
      events is written, never read. *)
Definition M (A : Type) := Dispatcher -> outcome A * Dispatcher * list event.

Definition ret {A} (a : A) : M A := fun d => (Ok a, d, []).

Definition bind {A B} (m : M A) (f : A -> M B) : M B :=
    fun d =>
      let x := m d in
      match fst (fst x) with
      | Ok a =>
          let y := f a (snd (fst x)) in
          (fst (fst y), snd (fst y), (snd x ++ snd y)%list)
      | Raise e => (Raise e, snd (fst x), snd x)
      | Fuel => (Fuel, snd (fst x), snd x)
      end.

Definition raise {A} (c : exn_class) (s : string) : M A := fun d => (Raise (Exn c s), d, []).
Definition out_of_fuel {A} : M A := fun d => (Fuel, d, []).
Definition gets {A} (f : Dispatcher -> A) : M A := fun d => (Ok (f d), d, []).
Definition modify (f : Dispatcher -> Dispatcher) : M unit := fun d => (Ok tt, f d, []).
Definition emit (e : event) : M unit := fun d => (Ok tt, d, [e]).

  (** [m[k]], a [KeyError] when the key is missing. *)
Definition item {A} (k : node_id) (m : dict A) : M A :=
    match get k m with
    | Some a => ret a
    | None => raise KeyError (repr_node k)
    end.

Definition key_error {A} (o : option A) (s : string) : M A :=
    match o with Some a => ret a | None => raise KeyError s end.

Notation "x <- m ;; k" := (bind m (fun x => k))
    (at level 61, m at next level, right associativity).
Notation "m ;;; k" := (bind m (fun _ => k))
    (at level 61, right associativity).

Fixpoint foldM {A S} (l : list A) (s : S) (body : A -> S -> M S) : M S :=
    match l with
    | [] => ret s
    | a :: r => s' <- body a s ;; foldM r s' body
    end.

Definition for_each {A} (l : list A) (body : A -> M unit) : M unit :=
    foldM l tt (fun a _ => body a).

  (** *** The fringe: [heapq] on tuples [(distance, wait_inputs, key)]

      Tuples are ordered lexicographically, [False < True], and keys as
      strings; [heappop] returns a least tuple, which is all that can be
      observed of the heap. *)
Definition entry := (Z * bool * node_id)%type.

Definition entry_ltb (a b : entry) : bool :=
    let '(d1, w1, k1) := a in
    let '(d2, w2, k2) := b in
    if d1 <? d2 then true
    else if d2 <? d1 then false
    else if Bool.eqb w1 w2 then String.ltb (str_of_node k1) (str_of_node k2)
    else negb w1.

Definition entry_eqb (a b : entry) : bool :=
    let '(d1, w1, k1) := a in
    let '(d2, w2, k2) := b in
    (d1 =? d2) && Bool.eqb w1 w2 && node_id_eqb k1 k2.

Definition heappush (h : list entry) (x : entry) : list entry := h ++ [x].

Fixpoint heap_min (x : entry) (l : list entry) : entry :=
    match l with
    | [] => x
    | y :: r => heap_min (if entry_ltb y x then y else x) r
    end.

Fixpoint remove_first (x : entry) (l : list entry) : list entry :=
    match l with
    | [] => []
    | y :: r => if entry_eqb x y then r else y :: remove_first x r
    end.

Definition heappop (h : list entry) : option (entry * list entry) :=
    match h with
    | [] => None
    | x :: r => let m := heap_min x r in Some (m, remove_first m h)
    end.

  (** *** Helpers of the engine *)

  (** [_warning(raises)] *)
Definition _warning (r : bool) (msg : string) : M unit :=
    if r then raise ValueError msg
    else emit (Warning msg).

  (** [self.warning(msg)] *)
Definition warning (msg : string) : M unit :=
    r <- gets raises ;; _warning r msg.

  (** [self._wf_add_edge(u, v, **e)] *)
Definition _wf_add_edge (u v : node_id) (e : wf_edge) : M unit :=
    fun d =>
      let (g, ok) := add_edge_fun None (workflow d) u v e in
      if ok then (Ok tt, set_workflow g d, [])
      else (Raise (Exn KeyError (repr_node u)), set_workflow g d, []).

Definition upd_opt {A} (old new : option A) : option A :=
    match new with Some _ => new | None => old end.

  (** [self.workflow.add_node(n, **a)] *)
Definition wf_add_node (n : node_id) (a : wf_node) : M unit :=
    modify (fun d => set_workflow (add_node upd_opt n a (workflow d)) d).

  (** [self.workflow.remove_node(n)] *)
Definition wf_remove_node (n : node_id) : M unit :=
    fun d => match remove_node n (workflow d) with
             | Some g => (Ok tt, set_workflow g d, [])
             | None => (Raise (Exn NetworkXError (repr_node n)), d, [])
             end.

  (** [self._visited.add(n)] *)
Definition add_visited (n : node_id) : M unit :=
    modify (fun d => set_visited (set_add n (_visited d)) d).

  (** [_check_targets] *)
Definition _check_targets : M (node_id -> M bool) :=
    t <- gets _targets ;;
    if negb (is_empty t) then
      ret (fun n : node_id =>
             targets <- gets _targets ;;
             if mem n targets then
               modify (set_targets (set_remove n targets)) ;;;
               ret (is_empty (set_remove n targets))
             else ret false)
    else ret (fun _ => ret false).

  (** [_check_cutoff] *)
Definition _check_cutoff : M (Z -> bool) :=
    c <- gets _cutoff ;;
    match c with
    | Some cutoff => ret (fun distance => distance >? cutoff)
    | None => ret (fun _ => false)
    end.

  (** [_edge_length] *)
Definition _edge_length (edge : edge_attr) (node_out : node_attr) : Z :=
    match edge with Some w => w | None => 1 end
    + match weight node_out with Some w => w | None => 0 end.

  (** [pred[node_id].keys() - visited], as a truth value *)
Definition missing_inputs (n : node_id) : M bool :=
    p <- gets _pred ;;
    ps <- item n p ;;
    visited <- gets _visited ;;
    ret (negb (is_empty (difference (keys ps) visited))).

  (** [self._wait_in.get(node_id, wait_in)]: the flag in effect for a node,
    its own unless the overrides say otherwise. *)
Definition effective_wait_inputs (d : Dispatcher) (n : node_id) (wait_in : bool) : bool :=
  match get n (_wait_in d) with Some b => b | None => wait_in end.

(** [_check_wait_input_flag] *)
Definition _check_wait_input_flag : M (bool -> node_id -> M bool) :=
    w <- gets _wait_in ;;
    if negb (is_empty w) then
      ret (fun (wait_in : bool) (n : node_id) =>
             if match get n w with Some b => b | None => wait_in end
             then missing_inputs n
             else ret false)
    else
      ret (fun (wait_in : bool) (n : node_id) =>
             if wait_in then missing_inputs n else ret false).

  (** [_set_wildcards] *)
Definition _set_wildcards (inputs outputs : option (list node_id)) : M unit :=
    modify (set_wildcards []) ;;;
    match outputs with
    | None | Some [] => ret tt
    | Some outs =>
        match inputs with
        | None => raise TypeError "'NoneType' object is not iterable"
        | Some ins =>
            node <- gets nodes ;;
            wildcards <- foldM ins [] (fun u acc =>
                           if mem u outs then
                             a <- item u node ;; ret (set u a acc)
                           else ret acc) ;;
            modify (fun d =>
                      set_wildcards
                        (fold_left
                           (fun s kv =>
                              if match wildcard (snd kv) with Some b => b | None => true end
                              then set_add (fst kv) s else s)
                           wildcards (_wildcards d)) d)
        end
    end.

  (** [_set_wait_in] *)
Definition _set_wait_in : M unit :=
    modify (set_wait_in []) ;;;
    ns <- gets nodes ;;
    for_each ns (fun na =>
      let '(n, a) := na in
      match type a, input_domain a with
      | type_function, Some _ =>
          outs <- key_error (outputs a) "'outputs'" ;;
          for_each outs (fun k => modify (fun d => set_wait_in (set k true (_wait_in d)) d))
      | type_data, _ =>
          if wait_inputs a
          then modify (fun d => set_wait_in (set n true (_wait_in d)) d)
          else ret tt
      | _, _ => ret tt
      end).

  (** The [inputs] argument of [dispatch]: absent, a dictionary, or an
      iterable of keys. *)
Inductive py_inputs := InNone | InDict (d : dict val) | InKeys (l : list node_id).

Definition input_keys (i : py_inputs) : list node_id :=
    match i with
    | InNone => []
    | InDict d => keys d
    | InKeys l => l
    end.

  (** [_get_initial_values]; in call mode the inputs are a dictionary
      ([dict.update] with a list of keys raises, unless a key has two
      characters, a case that is left out). *)
Definition _get_initial_values (inputs : py_inputs) (no_call : bool) : M (dict val) :=
    dv <- gets default_values ;;
    if no_call then
      let initial_values := fromkeys (keys dv) NONE in
      match inputs with
      | InNone => ret initial_values
      | _ => ret (update initial_values (fromkeys (input_keys inputs) NONE))
      end
    else
      match inputs with
      | InNone => ret dv
      | InDict i => ret (update dv i)
      | InKeys [] => ret dv
      | InKeys _ =>
          raise ValueError "dictionary update sequence element #0 has length 1; 2 is required"
      end.

  (** *** Computations that do not touch the object *)

Definition obind {A B} (o : outcome A) (f : A -> outcome B) : outcome B :=
    match o with
    | Ok a => f a
    | Raise e => Raise e
    | Fuel => Fuel
    end.

Notation "x <-- m ;; k" := (obind m (fun x => k))
    (at level 61, m at next level, right associativity).

Fixpoint ofold {A S} (l : list A) (s : S) (body : A -> S -> outcome S) : outcome S :=
    match l with
    | [] => Ok s
    | a :: r => s' <-- body a s ;; ofold r s' body
    end.

Definition oitem {A} (k : node_id) (m : dict A) : outcome A :=
    match get k m with
    | Some a => Ok a
    | None => Raise (Exn KeyError (repr_node k))
    end.

  (** Lifting a pure computation. *)
Definition lift {A} (o : outcome A) : M A := fun d => (o, d, []).

(** *** Initialisation of a run *)

Definition loop_state := (list entry * dict Z)%type.

  (** The body of the inner loop of [_init_workflow], for a successor [w]
      of a wildcard input [v]. *)
Definition _init_wildcard_succ (check_cutoff : Z -> bool)
             (check_wait_in : bool -> node_id -> M bool)
             (v : node_id) (value : wf_edge)
             (we : node_id * edge_attr) (fs : loop_state) : M loop_state :=
    let '(w, edge_data) := we in
    _wf_add_edge v w value ;;;
    node_attr <- gets nodes ;;
    attr_w <- item w node_attr ;;
    let vw_dist := _edge_length edge_data attr_w in
    if check_cutoff vw_dist then ret fs
    else
      waiting <- check_wait_in true w ;;
      if waiting then ret fs
      else ret (heappush (fst fs) (vw_dist, true, w), set w vw_dist (snd fs)).

  (** The body of the outer loop of [_init_workflow], for an input [v]. *)
Definition _init_input (check_cutoff : Z -> bool)
             (check_wait_in : bool -> node_id -> M bool)
             (wildcards : list node_id)
             (input_value : node_id -> M wf_edge)
             (v : node_id) (fs : loop_state) : M loop_state :=
    node_attr <- gets nodes ;;
    match get v node_attr with
    | None => ret fs
    | Some attr_v =>
        let wait_in := wait_inputs attr_v in
        value <- input_value v ;;
        _wf_add_edge START v value ;;;
        if mem v wildcards then
          add_visited v ;;;
          wf_add_node v None ;;;
          graph <- gets _succ ;;
          succs <- item v graph ;;
          foldM succs fs (_init_wildcard_succ check_cutoff check_wait_in v value)
        else
          waiting <- check_wait_in wait_in v ;;
          if negb waiting
          then ret (heappush (fst fs) (0, wait_in, v), set v 0 (snd fs))
          else ret fs
    end.

  (** [_init_workflow] *)
Definition _init_workflow (inputs : list node_id)
             (input_value : node_id -> M wf_edge) : M loop_state :=
    modify (fun d => set_visited [] (set_data_output [] (set_workflow (empty_graph _ _) d))) ;;;
    check_cutoff <- _check_cutoff ;;
    wildcards <- gets _wildcards ;;
    check_wait_in <- _check_wait_input_flag ;;
    add_visited START ;;;
    modify (set_dist [(START, -1)]) ;;;
    wf_add_node START (Some "start") ;;;
    foldM inputs ([], [(START, -1)])
          (_init_input check_cutoff check_wait_in wildcards input_value).

  (** *** Estimation of a node *)

  (** The heap [est] of [_get_node_estimations]: tuples
      [(distance, key, edge)], ordered by distance and then key. *)
Definition est_entry := (Z * node_id * wf_edge)%type.

Definition est_ltb (a b : est_entry) : bool :=
    let '(d1, k1, _) := a in
    let '(d2, k2, _) := b in
    if d1 <? d2 then true
    else if d2 <? d1 then false
    else String.ltb (str_of_node k1) (str_of_node k2).

Fixpoint est_min (x : est_entry) (l : list est_entry) : est_entry :=
    match l with
    | [] => x
    | y :: r => est_min (if est_ltb y x then y else x) r
    end.

Definition is_START (k : node_id) : bool :=
    match k with START => true | _ => false end.

  (** [_get_node_estimations] *)
Definition _get_node_estimations (attr : node_attr) (n : node_id)
    : M (dict wf_edge * bool) :=
    wf_pred <- gets _wf_pred ;;
    estimations <- item n wf_pred ;;
    let wait_in := wait_inputs attr in
    overrides <- gets _wait_in ;;
    if (1 <? Z.of_nat (List.length estimations))
       && negb (match get n overrides with Some b => b | None => wait_in end)
    then
      est <- foldM estimations [] (fun kv est =>
               let '(k, v) := kv in
               if is_START k then ret est
               else
                 ds <- gets dist ;;
                 dk <- item k ds ;;
                 edg <- gets _succ ;;
                 out <- item k edg ;;
                 e <- item n out ;;
                 ret ((est ++ [(dk + _edge_length e attr, k, v)])%list)) ;;
      match est with
      | [] => raise IndexError "list index out of range"
      | x :: r =>
          let '(_, k0, v0) := est_min x r in
          modify (fun d =>
                    set_workflow
                      (remove_edges_from
                         (map (fun t => (snd (fst t), n))
                              (filter (fun t => negb (node_id_eqb (snd (fst t)) k0)) est))
                         (workflow d)) d) ;;;
          ret ([(k0, v0)], wait_in)
      end
    else ret (estimations, wait_in).

  (** Running client code inside [try: ... except Exception as ex:]. *)
Fixpoint values_of (est : dict wf_edge) : ures (dict val) :=
    match est with
    | [] => Return []
    | (k, Some v) :: r =>
        match values_of r with
        | Return kw => Return ((k, v) :: kw)
        | Throw e => Throw e
        end
    | (k, None) :: r => Throw (Exn KeyError "'value'")
    end.

Definition call_aggregator (f : callable) (kwargs : dict val) : ures val :=
    match f with
    | Aggregator g => g kwargs
    | Function _ => Throw (Exn TypeError "argument is not a sequence of values")
    | PyNone => Throw (Exn TypeError "'NoneType' object is not callable")
    end.

  (** [kwargs = {k: v['value'] for k, v in est.items()}] and
      [node_attr['function'](kwargs)] *)
Definition estimate (attr : node_attr) (est : dict wf_edge) : ures val :=
    match values_of est with
    | Throw e => Throw e
    | Return kwargs =>
        match function attr with
        | None => Throw (Exn KeyError "'function'")
        | Some f => call_aggregator f kwargs
        end
    end.

  (** The end of [_set_data_node_output]: the value goes on the edges to
      the successor functions, unless the first of them is visited. *)
Definition _propagate (n : node_id) (value : wf_edge) : M unit :=
    graph <- gets _succ ;;
    s <- item n graph ;;
    let succ_fun := keys s in
    visited <- gets _visited ;;
    match succ_fun with
    | u0 :: _ =>
        if negb (mem u0 visited)
        then for_each succ_fun (fun u => _wf_add_edge n u value)
        else ret tt
    | [] => ret tt
    end.

  (** The call of the callback of a data node, with its [try]. *)
Definition _invoke_callback (n : node_id) (attr : node_attr) (value : val) : M unit :=
    match callback attr with
    | Some cb =>
        emit (Callback n value) ;;;
        match cb value with
        | Return _ => ret tt
        | Throw ex => warning (callback_error_data n ex)
        end
    | None => ret tt
    end.

  (** The value of a data node, from its estimations (the first half of
    the call mode of [_set_data_node_output]); a [Throw] is an exception
    caught by one of the two [try] blocks. *)
Definition _data_node_value (attr : node_attr) (est : dict wf_edge) (wait_in : bool)
  : M (ures val) :=
  if negb wait_in then
    match function attr with
    | Some _ => ret (estimate attr est)
    | None =>
        match values est with
        | [] => raise IndexError "list index out of range"
        | e :: _ => v <- key_error e "'value'" ;; ret (Return v)
        end
    end
  else ret (estimate attr est).

(** [_set_data_node_output] *)
Definition _set_data_node_output (n : node_id) (attr : node_attr) (no_call : bool) : M bool :=
  ew <- _get_node_estimations attr n ;;
  let '(est, wait_in) := ew in
  if negb no_call then
    r <- _data_node_value attr est wait_in ;;
    match r with
    | Throw ex => warning (estimation_error_data n ex) ;;; ret false
    | Return value =>
        _invoke_callback n attr value ;;;
        match value with
        | NONE => ret tt
        | _ => modify (fun d => set_data_output (set n value (data_output d)) d)
        end ;;;
        _propagate n (Some value) ;;;
        ret true
    end
  else
    modify (fun d => set_data_output (set n NONE (data_output d)) d) ;;;
    _propagate n None ;;;
    ret true.

Definition is_NONE (v : val) : bool :=
    match v with NONE => true | _ => false end.

  (** The [try] block of [_set_function_node_output]: [Return None] when
      the input domain rejects the arguments.  A function that is itself
      a sub-dispatch object is not covered (its class lives in a module
      that is not among the sources). *)
Definition call_function (attr : node_attr) (args : list val) : ures (option val) :=
    let run :=
      match function attr with
      | None => Throw (Exn KeyError "'function'")
      | Some (Function f) =>
          match f args with Return v => Return (Some v) | Throw e => Throw e end
      | Some (Aggregator _) => Throw (Exn TypeError "argument is not a dictionary")
      | Some PyNone => Throw (Exn TypeError "'NoneType' object is not callable")
      end in
    match input_domain attr with
    | Some dom =>
        match dom args with
        | Throw e => Throw e
        | Return false => Return None
        | Return true => run
        end
    | None => run
    end.

  (** [_set_function_node_output] *)
Definition _set_function_node_output (n : node_id) (attr : node_attr) (no_call : bool) : M bool :=
    o_nds <- key_error (outputs attr) "'outputs'" ;;
    ds <- gets dist ;;
    ns <- gets nodes ;;
    let output_nodes := filter (fun u => negb (has_key u ds) && has_key u ns) o_nds in
    if is_empty output_nodes then
      wf_remove_node n ;;; ret false
    else if no_call then
      for_each output_nodes (fun u => _wf_add_edge n u None) ;;; ret true
    else
      wf_pred <- gets _wf_pred ;;
      args_d <- item n wf_pred ;;
      ins <- key_error (inputs attr) "'inputs'" ;;
      args <- foldM ins [] (fun k acc =>
                e <- item k args_d ;;
                v <- key_error e "'value'" ;;
                ret ((acc ++ [v])%list)) ;;
      let args := filter (fun v => negb (is_NONE v)) args in
      match call_function attr args with
      | Return None => ret false
      | Throw ex => warning (estimation_error_function n ex) ;;; ret false
      | Return (Some res) =>
          results <- (if 1 <? Z.of_nat (List.length o_nds) then
                        match py_iter res with
                        | Some l => ret l
                        | None => raise TypeError "zip argument #2 must support iteration"
                        end
                      else ret [res]) ;;
          for_each (combine o_nds results) (fun kv =>
            if mem (fst kv) output_nodes
            then _wf_add_edge n (fst kv) (Some (snd kv))
            else ret tt) ;;;
          ret true
      end.

  (** [_set_node_output] *)
Definition _set_node_output (n : node_id) (no_call : bool) : M bool :=
    ns <- gets nodes ;;
    attr <- item n ns ;;
    match type attr with
    | type_data => _set_data_node_output n attr no_call
    | type_function => _set_function_node_output n attr no_call
    end.

  (** *** The main loop *)

  (** The body of the [for] loop of [_run]: the edge from the node just
      visited, at distance [d], to its successor [w]. *)
Definition _relax (check_cutoff : Z -> bool)
             (check_wait_in : bool -> node_id -> M bool)
             (d : Z) (we : node_id * edge_attr) (fs : loop_state) : M loop_state :=
    let '(w, e_data) := we in
    node_attr <- gets nodes ;;
    nd <- item w node_attr ;;
    let vw_d := d + _edge_length e_data nd in
    let wait_in := wait_inputs nd in
    if check_cutoff vw_d then ret fs
    else
      waiting <- check_wait_in wait_in w ;;
      if waiting then ret fs
      else
        ds <- gets dist ;;
        match get w ds with
        | Some dw =>
            if vw_d <? dw then raise ValueError contradictory_paths else ret fs
        | None =>
            if negb (has_key w (snd fs))
               || (vw_d <? match get w (snd fs) with Some sw => sw | None => 0 end)
            then ret (heappush (fst fs) (vw_d, wait_in, w), set w vw_d (snd fs))
            else ret fs
        end.

  (** One turn of the [while] loop of [_run], after [heappop] gave
      [(d, _, v)]; [None] is a [break]. *)
Definition _run_body (check_targets : node_id -> M bool)
             (check_cutoff : Z -> bool)
             (check_wait_in : bool -> node_id -> M bool)
             (no_call : bool) (d : Z) (v : node_id) (fs : loop_state)
    : M (option loop_state) :=
    modify (fun s => set_dist (set v d (dist s)) s) ;;;
    add_visited v ;;;
    ok <- _set_node_output v no_call ;;
    if negb ok then ret (Some fs)
    else
      stop <- check_targets v ;;
      if stop then ret None
      else
        graph <- gets _succ ;;
        succs <- item v graph ;;
        fs' <- foldM succs fs (_relax check_cutoff check_wait_in d) ;;
        ret (Some fs').

Fixpoint _run_loop (fuel : nat) (check_targets : node_id -> M bool)
           (check_cutoff : Z -> bool)
           (check_wait_in : bool -> node_id -> M bool)
           (no_call : bool) (fs : loop_state) : M unit :=
    match heappop (fst fs) with
    | None => ret tt
    | Some ((d, _, v), fringe) =>
        match fuel with
        | O => out_of_fuel
        | S fuel' =>
            r <- _run_body check_targets check_cutoff check_wait_in no_call d v
                           (fringe, snd fs) ;;
            match r with
            | None => ret tt
            | Some fs' =>
                _run_loop fuel' check_targets check_cutoff check_wait_in no_call fs'
            end
        end
    end.

  (** The loop after [while]: function nodes that were seen and never
      visited leave the workflow. *)
Definition _remove_unused : M unit :=
    wf_pred <- gets _wf_pred ;;
    visited <- gets _visited ;;
    for_each (difference (keys wf_pred) visited) (fun n =>
      ns <- gets nodes ;;
      a <- item n ns ;;
      match type a with
      | type_function => wf_remove_node n
      | type_data => ret tt
      end).

  (** [_run] *)
Definition _run (fuel : nat) (fs : loop_state) (no_call : bool)
    : M (DiGraph wf_node wf_edge * dict val) :=
    check_targets <- _check_targets ;;
    check_cutoff <- _check_cutoff ;;
    check_wait_in <- _check_wait_input_flag ;;
    _run_loop fuel check_targets check_cutoff check_wait_in no_call fs ;;;
    _remove_unused ;;;
    w <- gets workflow ;;
    o <- gets data_output ;;
    ret (w, o).

  (** [_init_run] *)
Definition _init_run (inputs : py_inputs) (outs : option (list node_id))
             (wildcard_ : bool) (cutoff : option Z) (no_call : bool)
    : M (dict val * loop_state * bool) :=
    initial <- _get_initial_values inputs no_call ;;
    modify (set_targets []) ;;;
    match outs with
    | Some o => modify (fun d => set_targets (union (_targets d) o) d)
    | None => ret tt
    end ;;;
    modify (set_cutoff cutoff) ;;;
    (if wildcard_ then _set_wildcards (Some (keys initial)) outs
     else _set_wildcards None None) ;;;
    let input_value : node_id -> M wf_edge :=
      if no_call then (fun _ => ret None)
      else (fun k => v <- item k initial ;; ret (Some v)) in
    fs <- _init_workflow (keys initial) input_value ;;
    ret (initial, fs, no_call).

  (** [inputs[k]] *)
Definition input_item (inputs : py_inputs) (k : node_id) : M val :=
    match inputs with
    | InDict d => item k d
    | _ => raise TypeError "indices must be integers"
    end.

  (** [dispatch], from the line [dsp._init_run(...)] on, running on the
      object itself. *)
Definition _dispatch (fuel : nat) (inputs : py_inputs) (outs : option (list node_id))
             (cutoff : option Z) (wildcard_ no_call : bool)
    : M (DiGraph wf_node wf_edge * dict val) :=
    args <- _init_run inputs outs wildcard_ cutoff no_call ;;
    let '(initial, fs, nc) := args in
    _run fuel fs nc ;;;
    ns <- gets nodes ;;
    let out_dsp_nodes := difference (set_of (keys initial)) (keys ns) in
    (if negb (is_empty (input_keys inputs)) then
       extra <- foldM out_dsp_nodes [] (fun k acc =>
                  v <- input_item inputs k ;; ret (set k v acc)) ;;
       modify (fun d => set_data_output (update (data_output d) extra) d)
     else ret tt) ;;;
    w <- gets workflow ;;
    o <- gets data_output ;;
    ret (w, o).

  (** *** Builders *)

  (** ['%d' % n] *)
Definition dec (n : nat) : string := NilZero.string_of_uint (Nat.to_uint n).

  (** [while has_node(guess n): n += 1], with the number of nodes plus one
      as fuel (one of that many guesses is unused). *)
Fixpoint fresh_id (fuel : nat) (guess : nat -> node_id) (n : nat)
           (g : DiGraph node_attr edge_attr) : node_id :=
    match fuel with
    | O => guess n
    | S fuel' => if has_node (guess n) g then fresh_id fuel' guess (S n) g else guess n
    end.

  (** [node[n].update(attr_dict)] *)
Definition upd_attr (old new : node_attr) : node_attr :=
    {| type := type new;
       wait_inputs := wait_inputs new;
       wildcard := upd_opt (wildcard old) (wildcard new);
       function := upd_opt (function old) (function new);
       callback := upd_opt (callback old) (callback new);
       inputs := upd_opt (inputs old) (inputs new);
       outputs := upd_opt (outputs old) (outputs new);
       input_domain := upd_opt (input_domain old) (input_domain new);
       weight := upd_opt (weight old) (weight new) |}.

  (** [add_data]; [default_value = None] is the token [EMPTY], and the
      keyword arguments carry at most a [weight]. *)
Definition add_data (data_id : option node_id) (default_value : option val)
             (wait_inputs_ : bool) (wildcard_ : option bool)
             (function_ : option (dict val -> ures val))
             (callback_ : option (val -> ures unit))
             (kwargs_weight : option Z) : M node_id :=
    let attr_dict :=
      {| type := type_data; wait_inputs := wait_inputs_; wildcard := wildcard_;
         function := match function_ with Some f => Some (Aggregator f) | None => None end;
         callback := callback_; inputs := None; outputs := None;
         input_domain := None; weight := kwargs_weight |} in
    g <- gets dmap ;;
    id <- match data_id with
          | None =>
              ret (fresh_id (S (List.length (node g)))
                            (fun n => Id ("unknown<" ++ dec n ++ ">")) 0 g)
          | Some k =>
              match get k (node g) with
              | Some a =>
                  match type a with
                  | type_data => ret k
                  | type_function =>
                      raise ValueError ("Invalid data id: override function " ++ str_of_node k)
                  end
              | None => ret k
              end
          end ;;
    modify (fun d =>
              set_default_values
                match default_value with
                | Some v => set id v (default_values d)
                | None => del id (default_values d)
                end d) ;;;
    modify (fun d => set_dmap (add_node upd_attr id attr_dict (dmap d)) d) ;;;
    ret id.

  (** The attribute dictionary that networkx gives a node it creates for
      an edge; the builders create both ends before the edge. *)
Definition blank_attr : node_attr :=
    {| type := type_data; wait_inputs := false; wildcard := None; function := None;
       callback := None; inputs := None; outputs := None; input_domain := None;
       weight := None |}.

  (** The local [add_edge] of [add_function] *)
Definition add_function_edge (i o : node_id) (edge_weight : option (dict Z))
             (w : node_id) : M unit :=
    let e := match edge_weight with
             | Some ew => get w ew
             | None => None
             end in
    modify (fun d => set_dmap (add_edge blank_attr upd_opt i o e (dmap d)) d).

  (** The check of one input or output key of [add_function]. *)
Definition check_data_key (what : string) (fun_id u : node_id) : M unit :=
    ns <- gets nodes ;;
    match get u ns with
    | Some a =>
        match type a with
        | type_data => ret tt
        | type_function =>
            (fun d => match remove_node fun_id (dmap d) with
                      | Some g => (Ok tt, set_dmap g d, [])
                      | None => (Raise (Exn NetworkXError (repr_node fun_id)), d, [])
                      end) ;;;
            raise ValueError ("Invalid " ++ what ++ " id: " ++ str_of_node u
                              ++ " is not a data node")
        end
    | None => add_data (Some u) None false None None None None ;;; ret tt
    end.

  (** [dispatcher_utils.bypass] applied to the dictionary of estimations
      of [SINK]; the dictionary itself is the value. *)
Variable bypass : dict val -> ures val.

  (** [add_function]; [qualname] is ['%s:%s' % (function.__module__,
      function.__name__)] when the function has these attributes. *)
Definition add_function (function_id : option node_id) (qualname : option string)
             (function_ : option (list val -> ures val))
             (inputs_ outputs_ : option (list node_id))
             (input_domain_ : option (list val -> ures bool))
             (weight_ : option Z) (weight_from weight_to : option (dict Z)) : M node_id :=
    ins <- match inputs_ with
           | Some l => ret l
           | None =>
               ns <- gets nodes ;;
               (if has_key START ns then ret tt
                else add_data (Some START) (Some NONE) false None None None None ;;; ret tt) ;;;
               ret [START]
           end ;;
    outs <- match outputs_ with
            | Some l => ret l
            | None =>
                ns <- gets nodes ;;
                (if has_key SINK ns then ret tt
                 else add_data (Some SINK) None true None (Some bypass) None None ;;; ret tt) ;;;
                ret [SINK]
            end ;;
    let attr_dict :=
      {| type := type_function; wait_inputs := true; wildcard := None;
         function := Some (match function_ with Some f => Function f | None => PyNone end);
         callback := None; inputs := Some ins; outputs := Some outs;
         input_domain := input_domain_; weight := weight_ |} in
    function_name <- match function_id with
                     | Some k => ret k
                     | None =>
                         match qualname with
                         | Some q => ret (Id q)
                         | None =>
                             raise ValueError
                               "Invalid function name due to: object has no attribute '__name__'"
                         end
                     end ;;
    g <- gets dmap ;;
    let fun_id :=
      if has_node function_name g then
        fresh_id (S (List.length (node g)))
                 (fun n => Id (str_of_node function_name ++ "<" ++ dec n ++ ">")) 0 g
      else function_name in
    modify (fun d => set_dmap (add_node upd_attr fun_id attr_dict (dmap d)) d) ;;;
    for_each ins (fun u =>
      check_data_key "input" fun_id u ;;; add_function_edge u fun_id weight_from u) ;;;
    for_each outs (fun v =>
      check_data_key "output" fun_id v ;;; add_function_edge fun_id v weight_to v) ;;;
    ret fun_id.

  (** *** Sub-dispatchers *)

(** The adjacency of a graph, whatever its attributes. *)
Definition shape {N E} (g : DiGraph N E) : DiGraph unit unit :=
    {| node := map (fun kv => (fst kv, tt)) (node g);
       succ := map (fun kv => (fst kv, map (fun e => (fst e, tt)) (snd kv))) (succ g);
       pred := map (fun kv => (fst kv, map (fun e => (fst e, tt)) (snd kv))) (pred g) |}.

  (** The sub-dispatcher under construction in
      [get_sub_dsp_from_workflow]: [b_succ] and [b_pred] are the
      dictionaries that the code names [succ] and [pred] (in reverse mode
      they are the [pred] and [succ] of the new map), [family] is the
      ordered dictionary used as a queue (its keys). *)
Record bfs_state := {
    b_node : dict node_attr;
    b_succ : dict (dict edge_attr);
    b_pred : dict (dict edge_attr);
    b_dlt : dict val;
    family : list node_id
  }.

Section SubDspFromWorkflow.

Variable self : Dispatcher.
Variable graph : DiGraph unit unit.
Variable reverse : bool.

    (** [neighbors], [dmap_succ] *)
Definition neighbors (n : node_id) : outcome (list node_id) :=
      match get n (if reverse then pred graph else succ graph) with
      | Some a => Ok (keys a)
      | None => Raise (Exn NetworkXError (repr_node n))
      end.

Definition dmap_succ : dict (dict edge_attr) :=
      if reverse then pred (dmap self) else succ (dmap self).

    (** [set_node_attr] *)
Definition set_node_attr (n : node_id) (st : bfs_state) : outcome bfs_state :=
      a <-- oitem n (nodes self) ;;
      _ <-- neighbors n ;;
      Ok {| b_node := set n a (b_node st);
            b_succ := set n [] (b_succ st);
            b_pred := set n [] (b_pred st);
            b_dlt := match get n (default_values self) with
                     | Some v => set n v (b_dlt st)
                     | None => b_dlt st
                     end;
            family := set_add n (family st) |}.

Definition put_edge (u v : node_id) (e : edge_attr) (st : bfs_state) : outcome bfs_state :=
      if has_key u (b_succ st) && has_key v (b_pred st) then
        Ok {| b_node := b_node st;
              b_succ := set2 u v e (b_succ st);
              b_pred := set2 v u e (b_pred st);
              b_dlt := b_dlt st;
              family := family st |}
      else Raise (Exn KeyError (repr_node (if has_key u (b_succ st) then v else u))).

    (** [check_node_inputs]; the flag tells whether the child is passed. *)
Definition check_node_inputs (c : node_id) (st : bfs_state) : outcome (bool * bfs_state) :=
      if reverse then Ok (false, st)
      else
        a <-- oitem c (nodes self) ;;
        match type a with
        | type_function =>
            match inputs a with
            | None => Raise (Exn KeyError "'inputs'")
            | Some ins =>
                if subset ins (family st) then
                  st1 <-- set_node_attr c st ;;
                  st2 <-- ofold ins st1 (fun p st =>
                            out <-- oitem p dmap_succ ;;
                            e <-- oitem c out ;;
                            put_edge p c e st) ;;
                  Ok (true, st2)
                else Ok (true, st)
            end
        | type_data => Ok (false, st)
        end.

    (** The body of the inner loop: a child of [parent]. *)
Definition visit_child (parent : node_id) (dmap_nbrs : dict edge_attr)
               (child : node_id) (st : bfs_state) : outcome bfs_state :=
      if is_START child then Ok st
      else
        r <-- check_node_inputs child st ;;
        let '(passed, st) := r in
        if passed then Ok st
        else
          st <-- (if mem child (family st) then Ok st else set_node_attr child st) ;;
          e <-- oitem child dmap_nbrs ;;
          put_edge parent child e st.

    (** The search: the [i]-th key of the queue is the next parent. *)
Fixpoint bfs_loop (fuel : nat) (i : nat) (st : bfs_state) : outcome bfs_state :=
      match nth_error (family st) i with
      | None => Ok st
      | Some parent =>
          match fuel with
          | O => Fuel
          | S fuel' =>
              dmap_nbrs <-- oitem parent dmap_succ ;;
              children <-- neighbors parent ;;
              st' <-- ofold children st (visit_child parent dmap_nbrs) ;;
              bfs_loop fuel' (S i) st'
          end
      end.

Definition bfs_sources (sources : list node_id) : outcome bfs_state :=
      ofold sources
            {| b_node := []; b_succ := []; b_pred := []; b_dlt := []; family := [] |}
            (fun s st =>
               if has_key s (nodes self) && has_key s (node graph)
               then set_node_attr s st else Ok st).

End SubDspFromWorkflow.

  (** [get_sub_dsp_from_workflow]; every key of the queue is a node of
      the dispatcher map, so one more turn than it has nodes is fuel
      enough. *)
Definition get_sub_dsp_from_workflow (self : Dispatcher) (sources : list node_id)
             (graph : option (DiGraph unit unit)) (reverse : bool) : outcome Dispatcher :=
    let graph :=
      match graph with
      | Some g => if is_empty (node g) then shape (workflow self) else g
      | None => shape (workflow self)
      end in
    st0 <-- bfs_sources self graph reverse sources ;;
    st <-- bfs_loop self graph reverse (S (List.length (nodes self))) 0 st0 ;;
    Ok (new_Dispatcher
          {| node := b_node st;
             succ := if reverse then b_pred st else b_succ st;
             pred := if reverse then b_succ st else b_pred st |}
          "Dispatcher" (b_dlt st) false).

    (** Running a method on another dispatcher object. *)
Definition on_object {A} (dsp : Dispatcher) (m : M A) : M (A * Dispatcher) :=
    fun self =>
      let x := m dsp in
      match fst (fst x) with
      | Ok a => (Ok (a, snd (fst x)), self, snd x)
      | Raise e => (Raise e, self, snd x)
      | Fuel => (Fuel, self, snd x)
      end.

  (** [bfs_graph.add_edges_from(edges)] on a new graph *)
Definition graph_of_edges (es : list (node_id * node_id)) : DiGraph unit unit :=
    fold_left (fun g e => add_edge tt (fun _ x => x) (fst e) (snd e) tt g) es
              (empty_graph _ _).

Fixpoint edge_mem (e : node_id * node_id) (s : list (node_id * node_id)) : bool :=
    match s with
    | [] => false
    | x :: r => (node_id_eqb (fst e) (fst x) && node_id_eqb (snd e) (snd x)) || edge_mem e r
    end.

  (** [edges.update(es)] *)
Definition edges_update (s es : list (node_id * node_id)) : list (node_id * node_id) :=
    fold_left (fun acc e => if edge_mem e acc then acc else (acc ++ [e])%list) es s.

  (** The [while True] loop of [shrink_dsp]; it gives the edges and the
      outputs of the last dispatch. *)
Fixpoint _shrink_loop (fuel run_fuel : nat) (inputs_ : py_inputs)
           (outs : option (list node_id)) (cutoff : option Z)
           (edges_ : list (node_id * node_id))
    : M (list (node_id * node_id) * dict val) :=
    match fuel with
    | O => out_of_fuel
    | S fuel' =>
        modify (fun d =>
                  set_wait_in
                    (map (fun kv => if snd kv && mem (fst kv) (input_keys inputs_)
                                    then (fst kv, false) else kv) (_wait_in d)) d) ;;;
        wo <- _dispatch run_fuel inputs_ outs cutoff true true ;;
        let '(wf, o) := wo in
        let edges' := edges_update edges_ (edges wf) in
        visited <- gets _visited ;;
        let n_d := difference (keys (node wf)) visited in
        if is_empty n_d then ret (edges', o)
        else _shrink_loop fuel' run_fuel (InKeys (union n_d (input_keys inputs_)))
                          outs cutoff edges'
    end.

  (** [shrink_dsp] *)
Definition shrink_dsp (fuel run_fuel : nat) (inputs_ : py_inputs)
             (outs : option (list node_id)) (cutoff : option Z) : M Dispatcher :=
    go <- (if negb (is_empty (input_keys inputs_)) then
             _set_wait_in ;;;
             eo <- _shrink_loop fuel run_fuel inputs_ outs cutoff [] ;;
             let '(es, o) := eo in
             ret (Some (graph_of_edges es),
                  match outs with Some l => l | None => keys o end)
           else
             ret (None, match outs with Some l => l | None => [] end)) ;;
    let '(bfs_graph, sources) := go in
    modify (set_wait_in []) ;;;
    if negb (is_empty sources) then
      self <- gets (fun d => d) ;;
      lift (get_sub_dsp_from_workflow self sources
              (Some (match bfs_graph with Some g => g | None => shape (dmap self) end))
              true)
    else ret empty_Dispatcher.

  (** [dispatch] *)
Definition dispatch (shrink_fuel fuel : nat) (inputs_ : py_inputs)
             (outs : option (list node_id)) (cutoff : option Z)
             (wildcard_ no_call shrink : bool)
    : M (DiGraph wf_node wf_edge * dict val) :=
    if negb no_call && shrink then
      dsp <- shrink_dsp shrink_fuel fuel inputs_ outs cutoff ;;
      r <- on_object dsp (_dispatch fuel inputs_ outs cutoff wildcard_ no_call) ;;
      ret (fst r)
    else _dispatch fuel inputs_ outs cutoff wildcard_ no_call.

  (** *** [SubDispatchFunction] ([dispatcher/utils/dsp.py]) *)

Record SubDispatchFunction := {
    sf_dsp : Dispatcher;
    sf_name : string;
    sf_inputs : list node_id;
    sf_outputs : option (list node_id);
    sf_cutoff : option Z;
    input_values : dict val;
    sf_data_output : dict val;
    sf_dist : dict Z;
    sf_workflow : DiGraph wf_node wf_edge
  }.

  (** What a call returns: the whole map ([outputs is None]), a list, or
      one value. *)
Inductive sf_result := RAll (o : dict val) | RList (l : list val) | RScalar (v : val).

  (** [SubDispatchFunction.__init__], a method call on [dsp] as far as the
      state goes (it shrinks [dsp]). *)
Definition SubDispatchFunction_init (shrink_fuel fuel : nat) (function_id : string)
             (inputs_ : list node_id) (outs : option (list node_id))
             (cutoff : option Z) : M SubDispatchFunction :=
    dsp <- shrink_dsp shrink_fuel fuel (InKeys inputs_) outs cutoff ;;
    match outs with
    | None | Some [] => ret tt
    | Some l =>
        let missed := difference (set_of l) (keys (nodes dsp)) in
        if negb (is_empty missed)
        then raise ValueError (unreachable_output_targets missed)
        else ret tt
    end ;;;
    r <- on_object dsp
           (iv <- _get_initial_values InNone false ;;
            _set_wildcards (Some inputs_) outs ;;;
            modify (set_name function_id) ;;;
            ret iv) ;;
    ret {| sf_dsp := snd r; sf_name := function_id; sf_inputs := inputs_;
           sf_outputs := outs; sf_cutoff := cutoff; input_values := fst r;
           sf_data_output := []; sf_dist := [];
           sf_workflow := empty_graph _ _ |}.

  (** [return_output] *)
Definition return_output (outs : option (list node_id)) (o : dict val) : outcome sf_result :=
    match outs with
    | None => Ok (RAll o)
    | Some l =>
        if 1 <? Z.of_nat (List.length l) then
          r <-- ofold l [] (fun k acc => v <-- oitem k o ;; Ok ((acc ++ [v])%list)) ;;
          Ok (RList r)
        else
          match l with
          | [] => Raise (Exn IndexError "list index out of range")
          | k :: _ => v <-- oitem k o ;; Ok (RScalar v)
          end
    end.

  (** [dict(zip(ks, vs))] *)
Definition dict_zip (ks : list node_id) (vs : list val) : dict val :=
    fold_left (fun acc kv => set (fst kv) (snd kv) acc) (combine ks vs) [].

  (** [self.input_value]: [lambda k: {'value': input_values[k]}] *)
Definition sf_input_value (iv : dict val) (k : node_id) : M wf_edge :=
    v <- item k iv ;; ret (Some v).

  (** [input_values.update(dict(zip(self.inputs, args)))] *)
Definition sf_updated_inputs (args : list val) (self : SubDispatchFunction) : dict val :=
    update (input_values self) (dict_zip (sf_inputs self) args).

  (** [_init_workflow(input_values, self.input_value)] and then [_run]
      on what it returns, on the dispatcher of the function. *)
Definition sf_run (fuel : nat) (args : list val) (self : SubDispatchFunction)
    : outcome (DiGraph wf_node wf_edge * dict val) * Dispatcher * list event :=
    let iv := sf_updated_inputs args self in
    (fs <- _init_workflow (keys iv) (sf_input_value iv) ;;
     _run fuel fs false) (sf_dsp self).

  (** [SubDispatchFunction.__call__] *)
Definition SubDispatchFunction_call (fuel : nat) (args : list val)
             (self : SubDispatchFunction)
    : outcome sf_result * SubDispatchFunction * list event :=
    let iv := sf_updated_inputs args self in
    let x := sf_run fuel args self in
    let dsp' := snd (fst x) in
    let upd w o ds :=
      {| sf_dsp := dsp'; sf_name := sf_name self; sf_inputs := sf_inputs self;
         sf_outputs := sf_outputs self; sf_cutoff := sf_cutoff self; input_values := iv;
         sf_data_output := o; sf_dist := ds; sf_workflow := w |} in
    match fst (fst x) with
    | Ok (w, o) =>
        let self' := upd w o (dist dsp') in
        match return_output (sf_outputs self) o with
        | Raise (Exn KeyError _) =>
            (Raise (Exn ValueError
                        (unreachable_output_targets
                           (difference
                              (set_of (match sf_outputs self with Some l => l | None => [] end))
                              (keys o)))),
             self', snd x)
        | r => (r, self', snd x)
        end
    | Raise e => (Raise e, upd (sf_workflow self) (sf_data_output self) (sf_dist self), snd x)
    | Fuel => (Fuel, upd (sf_workflow self) (sf_data_output self) (sf_dist self), snd x)
    end.

End Engine.

Arguments NONE {V}.
Arguments Warning {V} msg.
Arguments PyNone {V}.
Arguments InNone {V}.
Arguments InKeys {V} l.

(* ------------------------------------------------------------------ *)
(** ** Python numbers, for the examples *)

Inductive num := PyInt (z : Z) | PyFloat (f : float).

(** [float(z)], exact below [2^53]. *)
Fixpoint float_of_pos (p : positive) : float :=
  match p with
  | xH => 1%float
  | xO q => PrimFloat.mul 2%float (float_of_pos q)
  | xI q => PrimFloat.add (PrimFloat.mul 2%float (float_of_pos q)) 1%float
  end.

Definition float_of_Z (z : Z) : float :=
  match z with
  | Z0 => 0%float
  | Zpos p => float_of_pos p
  | Zneg p => PrimFloat.opp (float_of_pos p)
  end.

Definition to_float (n : num) : float :=
  match n with PyInt z => float_of_Z z | PyFloat f => f end.

Definition num_sub (a b : num) : num :=
  match a, b with
  | PyInt x, PyInt y => PyInt (x - y)
  | _, _ => PyFloat (PrimFloat.sub (to_float a) (to_float b))
  end.

Definition num_add (a b : num) : num :=
  match a, b with
  | PyInt x, PyInt y => PyInt (x + y)
  | _, _ => PyFloat (PrimFloat.add (to_float a) (to_float b))
  end.

Definition num_pos (a : num) : bool :=
  match a with PyInt x => 0 <? x | PyFloat f => PrimFloat.ltb 0%float f end.

Definition type_error {A} : ures A := Throw (Exn TypeError "unsupported operand type(s)").

(** Numbers are not iterable, and no function of the examples is without
    outputs, so [bypass] is never called. *)
Definition no_iter (v : val num) : option (list (val num)) := None.
Definition no_bypass (kw : dict (val num)) : ures (val num) := type_error.

(** [sum(x)], from [0] *)
Fixpoint py_sum (acc : num) (l : list (val num)) : ures num :=
  match l with
  | [] => Return acc
  | User x :: r => py_sum (num_add acc x) r
  | NONE :: _ => type_error
  end.

(* ------------------------------------------------------------------ *)
(** ** The example of the class docstring: [b - a = c], [log(c) = d],
    [d = (d_from_log + d_initial_guess) / 2] *)

Module Canonical.

Section WithLog.

(** [math.log] on floats. *)
Variable log : float -> float.

Definition diff_function (args : list (val num)) : ures (val num) :=
  match args with
  | [User a; User b] => Return (User (num_sub b a))
  | _ => type_error
  end.

Definition math_log (args : list (val num)) : ures (val num) :=
  match args with
  | [User x] =>
      if num_pos x then Return (User (PyFloat (log (to_float x))))
      else Throw (Exn ValueError "math domain error")
  | _ => type_error
  end.

Definition log_domain (args : list (val num)) : ures bool :=
  match args with
  | [User x] => Return (num_pos x)
  | _ => type_error
  end.

Definition average_fun (kwargs : dict (val num)) : ures (val num) :=
  match py_sum (PyInt 0) (values kwargs) with
  | Throw e => Throw e
  | Return s =>
      match kwargs with
      | [] => Throw (Exn UserError "division by zero")
      | _ => Return (User (PyFloat (PrimFloat.div (to_float s)
                                      (float_of_Z (Z.of_nat (List.length kwargs))))))
      end
  end.

(** [callback_fun] prints its argument. *)
Definition callback_fun (x : val num) : ures unit :=
  match x with User _ => Return tt | NONE => type_error end.

Definition a := Id "a".
Definition b := Id "b".
Definition c := Id "c".
Definition d := Id "d".

(** The calls of the docstring, in order. *)
Definition build : M num unit :=
  bind (add_data (Some a) None false None None None None) (fun _ =>
  bind (add_data (Some c) None false None None None None) (fun _ =>
  bind (add_data (Some b) (Some (User (PyInt 1))) false None None None None) (fun _ =>
  bind (add_function no_bypass (Some (Id "diff_function")) None (Some diff_function)
          (Some [a; b]) (Some [c]) None None None None) (fun _ =>
  bind (add_function no_bypass (Some (Id "log")) None (Some math_log)
          (Some [c]) (Some [d]) (Some log_domain) None None None) (fun _ =>
  bind (add_data (Some d) (Some (User (PyInt 4))) true None
          (Some average_fun) (Some callback_fun) None) (fun _ =>
  ret tt)))))).

Definition dsp (raises_ : bool) : Dispatcher num :=
  snd (fst (build (new_Dispatcher (empty_graph _ _) "Dispatcher" [] raises_))).

(** [dsp.dispatch(inputs={'a': 0}, outputs=['d'])] *)
Definition run (raises_ : bool) (fuel : nat) :=
  dispatch no_iter 0 fuel (InDict [(a, User (PyInt 0))]) (Some [d]) None false false false
           (dsp raises_).

End WithLog.

End Canonical.

(* ------------------------------------------------------------------ *)
(** ** A data node whose callback raises *)

Module CallbackRaises.

Definition boom (v : val num) : ures unit := Throw (Exn UserError "boom").

Definition a := Id "a".

Definition build : M num node_id :=
  add_data (Some a) None false None None (Some boom) None.

Definition dsp (raises_ : bool) : Dispatcher num :=
  snd (fst (build (new_Dispatcher (empty_graph _ _) "Dispatcher" [] raises_))).

(** [dsp.dispatch(inputs={'a': 1})] *)
Definition run (raises_ : bool) (fuel : nat) :=
  dispatch no_iter 0 fuel (InDict [(a, User (PyInt 1))]) None None false false false
           (dsp raises_).

(** The attributes of [a], and the object after the dispatch under the
    default policy. *)
Definition attr_a : node_attr num :=
  {| type := type_data; wait_inputs := false; wildcard := None; function := None;
     callback := Some boom; inputs := None; outputs := None; input_domain := None;
     weight := None |}.

Definition settled : Dispatcher num := snd (fst (run false 5)).

End CallbackRaises.


(* ------------------------------------------------------------------ *)
(** ** A shrink that is interrupted, then a dispatch *)

Module OverrideLeft.

Definition a := Id "a".
Definition b := Id "b".
Definition zz := Id "zz".

Definition identity (args : list (val num)) : ures (val num) :=
  match args with
  | [x] => Return x
  | _ => type_error
  end.

Definition any_input (args : list (val num)) : ures bool := Return true.

(** [dsp.add_function('f', identity, ['a'], ['b'], input_domain=any_input)] *)
Definition build : M num node_id :=
  add_function no_bypass (Some (Id "f")) None (Some identity)
               (Some [a]) (Some [b]) (Some any_input) None None None.

Definition dsp : Dispatcher num :=
  snd (fst (build (new_Dispatcher (empty_graph _ _) "Dispatcher" [] false))).

(** [dsp.shrink_dsp(['a', 'zz'])]: ['zz'] is not a node. *)
Definition shrunk := shrink_dsp no_iter 10 10 (InKeys [a; zz]) None None dsp.

(** [dsp.dispatch({'a': 1})], on the object as the shrink left it. *)
Definition run :=
  dispatch no_iter 10 10 (InDict [(a, User (PyInt 1))]) None None false false false
           (snd (fst shrunk)).

End OverrideLeft.


(* ------------------------------------------------------------------ *)
(** ** A data node that waits for its inputs and has no function *)

Module WaitingNoFunction.

Definition a := Id "a".

(** [dsp.add_data('a', wait_inputs=True)] *)
Definition build : M num node_id :=
  add_data (Some a) None true None None None None.

Definition dsp : Dispatcher num :=
  snd (fst (build (new_Dispatcher (empty_graph _ _) "Dispatcher" [] false))).

Definition attr_a : node_attr num :=
  {| type := type_data; wait_inputs := true; wildcard := None; function := None;
     callback := None; inputs := None; outputs := None; input_domain := None;
     weight := None |}.

(** The object when [dispatch({'a': 1})] enters its main loop. *)
Definition before_loop : Dispatcher num :=
  snd (fst (_init_run (InDict [(a, User (PyInt 1))]) None false None false dsp)).

End WaitingNoFunction.


(* ------------------------------------------------------------------ *)
(** ** The turns of the main loop *)

Section Reachability.

Variable V : Type.
Variable py_iter : val V -> option (list (val V)).
Variable check_targets : node_id -> M V bool.
Variable check_cutoff : Z -> bool.
Variable check_wait_in : bool -> node_id -> M V bool.
Variable no_call : bool.

(** One turn of the [while] loop of [_run], when the fringe is not
    empty. *)
Definition loop_turn (fs : loop_state) (d : Dispatcher V)
  : option (outcome (option loop_state) * Dispatcher V * list (event V)) :=
  match heappop (fst fs) with
  | None => None
  | Some ((dd, _, v), fringe) =>
      Some (_run_body py_iter check_targets check_cutoff check_wait_in no_call
                      dd v (fringe, snd fs) d)
  end.

(** [turns fs d fs' d']: some complete turns take the loop from the
    fringe, distances seen and object [(fs, d)] to [(fs', d')]. *)
Inductive turns : loop_state -> Dispatcher V -> loop_state -> Dispatcher V -> Prop :=
| turns_refl fs d : turns fs d fs d
| turns_step fs d fs1 d1 l fs2 d2 :
    loop_turn fs d = Some (Ok (Some fs1), d1, l) ->
    turns fs1 d1 fs2 d2 ->
    turns fs d fs2 d2.

(** The loop state after [k] complete turns (fewer when the loop stops
    before). *)
Fixpoint run_turns (k : nat) (fs : loop_state) (d : Dispatcher V)
  : loop_state * Dispatcher V :=
  match k with
  | O => (fs, d)
  | S k' =>
      match loop_turn fs d with
      | Some (Ok (Some fs1), d1, _) => run_turns k' fs1 d1
      | _ => (fs, d)
      end
  end.

(** The object when the node [v], popped at distance [dd], is about to
    be estimated. *)
Definition popped (v : node_id) (dd : Z) (d : Dispatcher V) : Dispatcher V :=
  set_visited (set_add v (_visited d)) (set_dist (set v dd (dist d)) d).

(** A node is ready when, if it waits for its inputs (by its own flag or
    by an override), it has its predecessors in the dispatcher map and
    all of them are visited. *)
Definition ready (d : Dispatcher V) (n : node_id) : Prop :=
  forall attr,
    get n (nodes d) = Some attr ->
    effective_wait_inputs d n (wait_inputs attr) = true ->
    exists ps, get n (_pred d) = Some ps /\ subset (keys ps) (_visited d) = true.


End Reachability.

(* ------------------------------------------------------------------ *)
(** ** A negative weight on the way to a node that is settled *)

Module NegativeWeight.

(** Values: a number or a pair of numbers. *)
Inductive pv := PNum (z : Z) | PPair (x y : Z).

Definition pv_iter (v : val pv) : option (list (val pv)) :=
  match v with
  | User (PPair x y) => Some [User (PNum x); User (PNum y)]
  | _ => None
  end.

Definition pv_bypass (kw : dict (val pv)) : ures (val pv) :=
  Throw (Exn TypeError "unsupported operand type(s)").

Definition a := Id "a".
Definition w := Id "w".
Definition c := Id "c".
Definition f := Id "f".

(** [lambda a: (a, a)] *)
Definition twice (args : list (val pv)) : ures (val pv) :=
  match args with
  | [User (PNum x)] => Return (User (PPair x x))
  | _ => Throw (Exn TypeError "unsupported operand type(s)")
  end.

(** [dsp.add_function('f', twice, ['a'], ['w', 'c'], weight_to={'w': -5})] *)
Definition build : M pv node_id :=
  add_function pv_bypass (Some f) None (Some twice)
               (Some [a]) (Some [w; c]) None None None (Some [(w, -5)]).

Definition dsp (raises_ : bool) : Dispatcher pv :=
  snd (fst (build (new_Dispatcher (empty_graph _ _) "Dispatcher" [] raises_))).

Definition the_inputs : py_inputs pv :=
  InDict [(a, User (PNum 1)); (w, User (PNum 2))].

(** [dsp.dispatch({'a': 1, 'w': 2})] *)
Definition run (raises_ : bool) (fuel : nat) :=
  dispatch pv_iter 0 fuel the_inputs None None false false false (dsp raises_).

(** The same dispatch under [raises=True], step by step: the object and
    the fringe after [_init_run], the closures of [_run] (no targets, no
    cutoff, no overrides), and the loop after the turns of [a] and [w]. *)
Definition start := _init_run the_inputs None false None false (dsp true).
Definition d0 : Dispatcher pv := snd (fst start).
Definition fs0 : loop_state :=
  match fst (fst start) with
  | Ok (_, fs, _) => fs
  | _ => ([], [])
  end.
Definition ct : node_id -> M pv bool := fun _ => ret false.
Definition cc : Z -> bool := fun _ => false.
Definition cw : bool -> node_id -> M pv bool :=
  fun wait_in n => if wait_in then missing_inputs n else ret false.
Definition after_two := run_turns pv_iter ct cc cw false 2 fs0 d0.

End NegativeWeight.


(* ------------------------------------------------------------------ *)
(** ** Frames: relations between the object before and after a method *)

Section Frames.

Variable V : Type.

(** [preserves R m]: the object after [m], however it ends, is related
    by [R] to the object before. *)
Definition preserves (R : Dispatcher V -> Dispatcher V -> Prop) {A} (m : M V A) : Prop :=
  forall d, R d (snd (fst (m d))).

(** Only the workflow changes. *)
Definition workflow_only (d d' : Dispatcher V) : Prop :=
  exists g, d' = set_workflow g d.

(** The model (map, name, defaults, policy, overrides) is the same and
    no node leaves the visited set. *)
Definition grows (d d' : Dispatcher V) : Prop :=
  dmap d' = dmap d /\ name d' = name d /\ default_values d' = default_values d
  /\ raises d' = raises d /\ _wait_in d' = _wait_in d
  /\ (forall x, mem x (_visited d) = true -> mem x (_visited d') = true).

(** The object is as it was. *)
Definition unchanged (d d' : Dispatcher V) : Prop := d' = d.

(** A step of a loop that fills the fringe: the object grows, and what
    is new in the fringe is ready. *)
Definition fringe_step (d : Dispatcher V) (fs : loop_state)
           (d' : Dispatcher V) (fs' : loop_state) : Prop :=
  grows d d' /\ forall x, In x (fst fs') -> In x (fst fs) \/ ready d' (snd x).

End Frames.

(* ------------------------------------------------------------------ *)
(** ** A shrink by inputs alone *)

Module ShrinkByInputs.

Definition a := Id "a".
Definition b := Id "b".
Definition f := Id "f".

Definition identity (args : list (val num)) : ures (val num) :=
  match args with
  | [x] => Return x
  | _ => type_error
  end.

(** [dsp.add_function('f', identity, ['a'], ['b'])] *)
Definition build : M num node_id :=
  add_function no_bypass (Some f) None (Some identity)
               (Some [a]) (Some [b]) None None None None.

Definition dsp : Dispatcher num :=
  snd (fst (build (new_Dispatcher (empty_graph _ _) "Dispatcher" [] false))).

(** [dsp.shrink_dsp(['a'], cutoff=cutoff)] *)
Definition shrunk (cutoff : option Z) :=
  shrink_dsp no_iter 10 10 (InKeys [a]) None cutoff dsp.

(** [dsp.shrink_dsp()] *)
Definition shrunk_no_inputs := shrink_dsp no_iter 0 0 InNone None None dsp.

End ShrinkByInputs.



(* ------------------------------------------------------------------ *)
(** ** What a method can raise *)

(** The error of a [SubDispatchFunction]: a [ValueError] whose message
    starts with ['Unreachable output-targets:']. *)
Definition is_unreachable_error (e : exn) : bool :=
  match exn_class_of e with
  | ValueError => String.prefix unreachable_prefix (exn_str e)
  | _ => false
  end.

Section Throws.

Variable V : Type.

(** [throws P m]: an exception that [m] raises satisfies [P]. *)
Definition throws (P : exn -> Prop) {A} (m : M V A) : Prop :=
  forall d e, fst (fst (m d)) = Raise e -> P e.

Definition othrows (P : exn -> Prop) {A} (o : outcome A) : Prop :=
  forall e, o = Raise e -> P e.

(** The engine raises other errors. *)
Definition other_error (e : exn) : Prop := is_unreachable_error e = false.

End Throws.



(* ------------------------------------------------------------------ *)
(** ** Functions made of a dispatcher *)

Module SubFunction.

Definition a := ShrinkByInputs.a.
Definition b := ShrinkByInputs.b.
Definition zz := Id "zz".

(** [SubDispatchFunction(dsp, 'fun', ['a'], outputs)] on the model
    [a -> f -> b]. *)
Definition make (outs : option (list node_id)) :=
  SubDispatchFunction_init no_iter 10 10 "fun" [a] outs None ShrinkByInputs.dsp.

(** The function made, when it is made. *)
Definition made (outs : option (list node_id)) : option (SubDispatchFunction num) :=
  match fst (fst (make outs)) with
  | Ok f => Some f
  | _ => None
  end.

(** A call of the function with the arguments [args]. *)
Definition call (outs : option (list node_id)) (args : list (val num))
  : option (outcome (sf_result num)) :=
  match made outs with
  | Some f => Some (fst (fst (SubDispatchFunction_call no_iter 10 args f)))
  | None => None
  end.

(** The functions with the output [b] and with no outputs given, as
    they are made. *)
Definition blank : SubDispatchFunction num :=
  {| sf_dsp := empty_Dispatcher num; sf_name := "fun"; sf_inputs := [];
     sf_outputs := None; sf_cutoff := None; input_values := [];
     sf_data_output := []; sf_dist := []; sf_workflow := empty_graph _ _ |}.

Definition fun_b : SubDispatchFunction num :=
  match made (Some [b]) with Some f => f | None => blank end.

Definition fun_all : SubDispatchFunction num :=
  match made None with Some f => f | None => blank end.

End SubFunction.



(* ------------------------------------------------------------------ *)
(** ** Helpers of [dispatcher/utils.py] *)

Module Utils.

(** [pairwise]: [tee] gives two iterators over the same items,
    [next(b, None)] drops the first item of the second (and nothing
    when there is none), [zip] stops with the shorter one. *)
Definition pairwise {A} (iterable : list A) : list (A * A) :=
  let a := iterable in
  let b := tl iterable in
  combine a b.

(** [heapq] on integers: a heap is observed through [heappop] alone,
    which gives a least item and takes it out ([None]: the
    [IndexError] on an empty heap). *)
Fixpoint int_min (x : Z) (l : list Z) : Z :=
  match l with
  | [] => x
  | y :: r => int_min (if y <? x then y else x) r
  end.

Fixpoint int_remove (x : Z) (l : list Z) : list Z :=
  match l with
  | [] => []
  | y :: r => if x =? y then r else y :: int_remove x r
  end.

Definition int_heappop (h : list Z) : option (Z * list Z) :=
  match h with
  | [] => None
  | x :: r => let m := int_min x r in Some (m, int_remove m h)
  end.

(** The [while heap:] loop of [heap_flush]; it gives the list and the
    heap as the loop leaves it ([None]: the fuel did not suffice). *)
Fixpoint heap_flush_loop (fuel : nat) (heap ordered_list : list Z)
  : option (list Z * list Z) :=
  match heap with
  | [] => Some (ordered_list, heap)
  | _ :: _ =>
      match fuel with
      | O => None
      | S fuel' =>
          match int_heappop heap with
          | Some (x, heap') => heap_flush_loop fuel' heap' (ordered_list ++ [x])
          | None => None
          end
      end
  end.

(** [heap_flush]; a turn of the loop takes one item out, so the length
    of the heap is fuel enough. *)
Definition heap_flush (heap : list Z) : option (list Z * list Z) :=
  heap_flush_loop (List.length heap) heap [].

(** [AttrDict]: a dictionary whose [__dict__] holds [k: k] for its keys
    that are identifiers, so that [d.k] is the name [k]. *)
Section AttrDicts.

Variable A : Type.

(** [isinstance(k, str) and k.isidentifier()], for keys that are strings
    or tokens. *)
Variable isidentifier : string -> bool.

Definition is_attr (k : node_id) : bool := isidentifier (str_of_node k).

Record AttrDict := {
  ad_items : dict A;
  ad_dict : dict node_id
}.

(** [AttrDict(d)] *)
Definition AttrDict_init (d : dict A) : AttrDict :=
  {| ad_items := d;
     ad_dict := fold_left (fun acc k => if is_attr k then set k k acc else acc) (keys d) [] |}.

(** [d[key] = value] *)
Definition AttrDict_setitem (key : node_id) (value : A) (d : AttrDict) : AttrDict :=
  {| ad_items := set key value (ad_items d);
     ad_dict := if is_attr key then set key key (ad_dict d) else ad_dict d |}.

(** [del d[key]]: the [KeyError] of [dict.__delitem__] comes before
    [__dict__] is touched. *)
Definition AttrDict_delitem (key : node_id) (d : AttrDict) : ures unit * AttrDict :=
  if has_key key (ad_items d)
  then (Return tt, {| ad_items := del key (ad_items d); ad_dict := del key (ad_dict d) |})
  else (Throw (Exn KeyError (repr_node key)), d).

(** [d.pop(k, default)] *)
Definition AttrDict_pop (k : node_id) (default : option A) (d : AttrDict)
  : option A * AttrDict :=
  (match get k (ad_items d) with Some v => Some v | None => default end,
   {| ad_items := del k (ad_items d); ad_dict := del k (ad_dict d) |}).

(** [d.popitem()]: the last item goes. *)
Definition AttrDict_popitem (d : AttrDict) : ures (node_id * A) * AttrDict :=
  match List.rev (ad_items d) with
  | [] => (Throw (Exn KeyError "'popitem(): dictionary is empty'"), d)
  | (k, v) :: r =>
      (Return (k, v), {| ad_items := List.rev r; ad_dict := del k (ad_dict d) |})
  end.

(** [d.clear()] *)
Definition AttrDict_clear (d : AttrDict) : AttrDict :=
  {| ad_items := []; ad_dict := [] |}.

(** [d.copy()] *)
Definition AttrDict_copy (d : AttrDict) : AttrDict := AttrDict_init (ad_items d).

(** [d.k], for a name [k] that is no method of [dict]. *)
Definition AttrDict_getattr (k : node_id) (d : AttrDict) : option node_id :=
  get k (ad_dict d).

(** The calls that change an [AttrDict]. *)
Inductive call :=
| SetItem (key : node_id) (value : A)
| DelItem (key : node_id)
| Pop (k : node_id) (default : option A)
| PopItem
| Clear.

Definition do_call (c : call) (d : AttrDict) : AttrDict :=
  match c with
  | SetItem k v => AttrDict_setitem k v d
  | DelItem k => snd (AttrDict_delitem k d)
  | Pop k dflt => snd (AttrDict_pop k dflt d)
  | PopItem => snd (AttrDict_popitem d)
  | Clear => AttrDict_clear d
  end.

(** The attributes are in step with the items: [d.k] is [k] when [k] is
    a key of the dictionary and an identifier, and is not set
    otherwise; no key is held twice. *)
Definition in_step (d : AttrDict) : Prop :=
  NoDup (keys (ad_items d)) /\ NoDup (keys (ad_dict d))
  /\ forall k,
      AttrDict_getattr k d
      = if is_attr k && has_key k (ad_items d) then Some k else None.

End AttrDicts.

End Utils.



(* ------------------------------------------------------------------ *)
(** ** Helpers of [dispatcher/utils/dsp.py] *)

Module DspUtils.

Section Dicts.

Variable A : Type.

(** [combine_dicts]: one dictionary is returned as it is, otherwise the
    dictionaries update an empty one from left to right. *)
Definition combine_dicts (dicts : list (dict A)) : dict A :=
  match dicts with
  | [d] => d
  | _ => fold_left (fun res a => update res a) dicts []
  end.

(** The value of the last dictionary that holds the key [k]. *)
Fixpoint last_value (k : node_id) (dicts : list (dict A)) : option A :=
  match dicts with
  | [] => None
  | d :: r =>
      match last_value k r with
      | Some v => Some v
      | None => get k d
      end
  end.

(** [key_map.get(k, k)] *)
Definition new_key (key_map : dict node_id) (k : node_id) : node_id :=
  match get k key_map with Some k' => k' | None => k end.

(** [map_dict]: the dictionary comprehension inserts the items of the
    combined dictionary in their order under their new keys. *)
Definition map_dict (key_map : dict node_id) (dicts : list (dict A)) : dict A :=
  let it := combine_dicts dicts in
  fold_left (fun acc kv => set (new_key key_map (fst kv)) (snd kv) acc) it [].

(** What [selector] returns: a dictionary, a tuple, or one value. *)
Inductive selected := SDict (d : dict A) | STuple (l : list A) | SOne (v : A).

(** [it[k]] *)
Definition lookup (it : dict A) (k : node_id) : ures A :=
  match get k it with
  | Some v => Return v
  | None => Throw (Exn KeyError (repr_node k))
  end.

(** The list comprehension [[get(it[k]) for k in keys]]. *)
Fixpoint lookup_all (it : dict A) (ks : list node_id) : ures (list A) :=
  match ks with
  | [] => Return []
  | k :: r =>
      match lookup it k with
      | Return v =>
          match lookup_all it r with
          | Return vs => Return (v :: vs)
          | Throw e => Throw e
          end
      | Throw e => Throw e
      end
  end.

(** [selector]; [output_type_list] tells whether [output_type] is
    ['list'], and the copies that [copy=True] asks for are the values
    themselves (they are not mutated). *)
Definition selector (keys_ : list node_id) (dicts : list (dict A))
           (output_type_list : bool) : ures selected :=
  let it := combine_dicts dicts in
  if output_type_list then
    if 1 <? Z.of_nat (List.length keys_) then
      match lookup_all it keys_ with
      | Return vs => Return (STuple vs)
      | Throw e => Throw e
      end
    else
      match keys_ with
      | [] => Throw (Exn IndexError "list index out of range")
      | k :: _ =>
          match lookup it k with
          | Return v => Return (SOne v)
          | Throw e => Throw e
          end
      end
  else
    Return (SDict (fold_left (fun acc kv =>
                                if mem (fst kv) keys_
                                then set (fst kv) (snd kv) acc else acc) it [])).

(** [replicate_value]; [range(n)] and [[value] * n] are empty for an
    [n] that is not positive. *)
Definition replicate_value (value : A) (n : Z) (copy : bool) : list A :=
  if copy then map (fun _ => value) (seq 0 (Z.to_nat n))
  else repeat value (Z.to_nat n).

End Dicts.

End DspUtils.



(* ------------------------------------------------------------------ *)
(** * Properties *)

(** ** Keys, dictionaries and sets *)

Lemma node_id_eqb_spec (a b : node_id) : reflect (a = b) (node_id_eqb a b).
Proof.
  destruct a, b; simpl; try (constructor; congruence).
  destruct (String.eqb_spec s s0); constructor; congruence.
Qed.

Lemma node_id_eqb_refl (a : node_id) : node_id_eqb a a = true.
Proof. destruct (node_id_eqb_spec a a); congruence. Qed.

Lemma node_id_eqb_eq (a b : node_id) : node_id_eqb a b = true <-> a = b.
Proof. destruct (node_id_eqb_spec a b); split; congruence. Qed.

Lemma node_id_eqb_neq (a b : node_id) : node_id_eqb a b = false <-> a <> b.
Proof. destruct (node_id_eqb_spec a b); split; congruence. Qed.

Lemma mem_In (k : node_id) (s : list node_id) : mem k s = true <-> In k s.
Proof.
  induction s as [|x r IH]; simpl.
  - split; [discriminate | tauto].
  - rewrite orb_true_iff, IH, node_id_eqb_eq. split; intros [H|H]; auto.
Qed.

Lemma mem_app (k : node_id) (s t : list node_id) : mem k (s ++ t) = mem k s || mem k t.
Proof. induction s as [|x r IH]; simpl; [reflexivity|]. now rewrite IH, orb_assoc. Qed.

Lemma mem_set_add (k x : node_id) (s : list node_id) :
  mem k (set_add x s) = node_id_eqb k x || mem k s.
Proof.
  unfold set_add. destruct (mem x s) eqn:E.
  - destruct (node_id_eqb_spec k x) as [->|]; simpl; [now rewrite E | reflexivity].
  - rewrite mem_app. simpl. rewrite orb_false_r. apply orb_comm.
Qed.

Lemma mem_set_add_mono (k x : node_id) (s : list node_id) :
  mem k s = true -> mem k (set_add x s) = true.
Proof. intros H. rewrite mem_set_add, H. apply orb_true_r. Qed.

Lemma subset_spec (a b : list node_id) :
  subset a b = true <-> (forall x, mem x a = true -> mem x b = true).
Proof.
  unfold subset. rewrite forallb_forall. split; intros H x Hx.
  - apply H. now apply mem_In.
  - apply H. now apply mem_In.
Qed.

Lemma difference_empty_subset (a b : list node_id) :
  is_empty (difference a b) = true <-> subset a b = true.
Proof.
  unfold difference, subset. induction a as [|x r IH]; simpl; [tauto|].
  destruct (mem x b); simpl; [exact IH | split; discriminate].
Qed.

Lemma get_set_same {A} (k : node_id) (v : A) (d : dict A) : get k (set k v d) = Some v.
Proof.
  induction d as [|[k' v'] r IH]; simpl.
  - now rewrite node_id_eqb_refl.
  - destruct (node_id_eqb k k') eqn:E; simpl; rewrite E; auto.
Qed.

Lemma get_set_other {A} (k k' : node_id) (v : A) (d : dict A) :
  k <> k' -> get k (set k' v d) = get k d.
Proof.
  intros N. induction d as [|[k2 v2] r IH]; simpl.
  - apply node_id_eqb_neq in N. now rewrite N.
  - destruct (node_id_eqb k' k2) eqn:E; simpl.
    + apply node_id_eqb_eq in E. subst k2.
      apply node_id_eqb_neq in N. now rewrite N.
    + destruct (node_id_eqb k k2); auto.
Qed.

Lemma has_key_set {A} (k k' : node_id) (v : A) (d : dict A) :
  has_key k (set k' v d) = node_id_eqb k k' || has_key k d.
Proof.
  unfold has_key. destruct (node_id_eqb_spec k k') as [->|N].
  - now rewrite get_set_same.
  - now rewrite get_set_other.
Qed.

(** ** C8: tokens *)

(** C8. A token compares equal to a value exactly when the value is the
    same object, [!=] is the negation of [==], a string with the same
    spelling is never equal to the token (on either side of [==]), and
    the hash of a token is its identity. *)
Theorem Token_compares_by_identity (t v : Tokens.pyobj) :
  Tokens.cls t = Tokens.TokenCls ->
  (Tokens.py_eq t v = true <-> Tokens.id v = Tokens.id t)
  /\ Tokens.py_ne t v = negb (Tokens.py_eq t v)
  /\ (Tokens.id v <> Tokens.id t ->
      Tokens.spelling v = Tokens.spelling t ->
      Tokens.py_eq t v = false /\ Tokens.py_eq v t = false)
  /\ (forall str_hash, Tokens.py_hash str_hash t = Tokens.id t).
Proof.
  intros Ht. unfold Tokens.py_eq, Tokens.py_ne, Tokens.py_hash. rewrite Ht.
  unfold Tokens.Token___eq__, Tokens.Token___ne__, Tokens.Token___hash__, Tokens.is_.
  repeat split.
  - intros H. apply Nat.eqb_eq in H. congruence.
  - intros H. apply Nat.eqb_eq. congruence.
  - apply Nat.eqb_neq. congruence.
  - destruct (Tokens.cls v); apply Nat.eqb_neq; congruence.
Qed.

Lemma Token_compares_by_identity_witness :
  let t := {| Tokens.id := 7; Tokens.cls := Tokens.TokenCls; Tokens.spelling := "start" |} in
  let v := {| Tokens.id := 9; Tokens.cls := Tokens.Str; Tokens.spelling := "start" |} in
  Tokens.py_eq t v = false /\ Tokens.py_eq v t = false /\ Tokens.py_eq t t = true.
Proof.
  intros t v.
  destruct (Token_compares_by_identity t v eq_refl) as (_ & _ & H & _).
  destruct (Token_compares_by_identity t t eq_refl) as (H2 & _).
  split; [apply H; [simpl; lia | reflexivity]|].
  split; [apply H; [simpl; lia | reflexivity]|].
  apply H2. reflexivity.
Defined.

(** ** The monad *)

Section MonadFacts.

Variable V : Type.

Lemma bind_Ok {A B} (m : M V A) (f : A -> M V B) d a d1 l1 :
  m d = (Ok a, d1, l1) ->
  bind m f d = (fst (fst (f a d1)), snd (fst (f a d1)), (l1 ++ snd (f a d1))%list).
Proof. intros H. unfold bind. now rewrite H. Qed.

Lemma bind_Raise {A B} (m : M V A) (f : A -> M V B) d e d1 l1 :
  m d = (Raise e, d1, l1) -> bind m f d = (Raise e, d1, l1).
Proof. intros H. unfold bind. now rewrite H. Qed.

Lemma bind_Fuel {A B} (m : M V A) (f : A -> M V B) d d1 l1 :
  m d = (Fuel, d1, l1) -> bind m f d = (Fuel, d1, l1).
Proof. intros H. unfold bind. now rewrite H. Qed.

(** What [bind] returns, by cases on its first part. *)
Lemma bind_inv {A B} (m : M V A) (f : A -> M V B) d r d2 l :
  bind m f d = (r, d2, l) ->
  (exists a d1 l1 l2, m d = (Ok a, d1, l1) /\ f a d1 = (r, d2, l2) /\ l = (l1 ++ l2)%list)
  \/ (exists e, m d = (Raise e, d2, l) /\ r = Raise e)
  \/ (m d = (Fuel, d2, l) /\ r = Fuel).
Proof.
  unfold bind. destruct (m d) as [[o d1] l1]. simpl.
  destruct o as [a|e|].
  - destruct (f a d1) as [[r2 d3] l2] eqn:E. simpl. intros H. inversion H; subst.
    left. exists a, d1, l1, l2. auto.
  - intros H. inversion H; subst. right. left. exists e. auto.
  - intros H. inversion H; subst. right. right. auto.
Qed.

(** Two computations that differ in their continuation, or in their first
    part, agree as soon as the second one does not run out of fuel. *)
Lemma bind_cont_agree {A B} (m : M V A) (f g : A -> M V B) d :
  (forall a d1, fst (fst (g a d1)) <> Fuel -> f a d1 = g a d1) ->
  fst (fst (bind m g d)) <> Fuel -> bind m f d = bind m g d.
Proof.
  intros H. unfold bind. destruct (m d) as [[o d1] l1]. cbn [fst snd].
  destruct o as [a| |]; auto.
  intros N. rewrite H; auto.
Qed.

Lemma bind_head_agree {A B} (m m' : M V A) (f : A -> M V B) d :
  (fst (fst (m' d)) <> Fuel -> m d = m' d) ->
  fst (fst (bind m' f d)) <> Fuel -> bind m f d = bind m' f d.
Proof.
  intros H. unfold bind. destruct (m' d) as [[o d1] l1] eqn:E. cbn [fst snd].
  destruct o as [a| |]; intros N.
  - rewrite H; [reflexivity | discriminate].
  - rewrite H; [reflexivity | discriminate].
  - now contradiction N.
Qed.

End MonadFacts.

(** ** Fuel: a run that ends ends the same way with more fuel *)

Section FuelFacts.

Variable V : Type.
Variable py_iter : val V -> option (list (val V)).

Lemma _run_loop_more_fuel (f k : nat) ct cc cw nc fs (d : Dispatcher V) :
  fst (fst (_run_loop py_iter f ct cc cw nc fs d)) <> Fuel ->
  _run_loop py_iter (f + k) ct cc cw nc fs d = _run_loop py_iter f ct cc cw nc fs d.
Proof.
  revert fs d. induction f as [|f IH]; intros fs d; simpl.
  - destruct (heappop (fst fs)) as [[[[dd w] v] fr]|] eqn:E; simpl.
    + intros H. now contradiction H.
    + intros _. destruct k; simpl; rewrite E; reflexivity.
  - destruct (heappop (fst fs)) as [[[[dd w] v] fr]|]; simpl; [|reflexivity].
    unfold bind.
    destruct (_run_body py_iter ct cc cw nc dd v (fr, snd fs) d) as [[o d1] l1]. simpl.
    destruct o as [[fs'|]| |]; simpl; auto.
    intros H. rewrite IH; auto.
Qed.

Lemma _run_more_fuel (f k : nat) fs nc (d : Dispatcher V) :
  fst (fst (_run py_iter f fs nc d)) <> Fuel ->
  _run py_iter (f + k) fs nc d = _run py_iter f fs nc d.
Proof.
  unfold _run.
  apply bind_cont_agree; intros ct d1.
  apply bind_cont_agree; intros cc d2.
  apply bind_cont_agree; intros cw d3.
  apply bind_head_agree. apply _run_loop_more_fuel.
Qed.

Lemma _dispatch_more_fuel (f k : nat) i o c w nc (d : Dispatcher V) :
  fst (fst (_dispatch py_iter f i o c w nc d)) <> Fuel ->
  _dispatch py_iter (f + k) i o c w nc d = _dispatch py_iter f i o c w nc d.
Proof.
  unfold _dispatch.
  apply bind_cont_agree; intros [[iv fs] nc'] d1.
  apply bind_head_agree. apply _run_more_fuel.
Qed.

End FuelFacts.

(** ** C1: the example of the docstring *)

(** C1. With [math.log(1) = 0.0], dispatching the four-node model with
    inputs [{a: 0}] and outputs [[d]] returns the data outputs
    [{a: 0, b: 1, c: 1, d: 2.0}], and the callback of [d] is called once,
    with [2.0]; seven turns of the loop are enough. *)
Theorem canonical_dispatch (log : float -> float) (raises_ : bool) (fuel : nat) :
  log 1%float = 0%float ->
  (7 <= fuel)%nat ->
  exists wf d',
    Canonical.run log raises_ fuel =
      (Ok (wf, [(Canonical.a, User (PyInt 0)); (Canonical.b, User (PyInt 1));
                (Canonical.c, User (PyInt 1)); (Canonical.d, User (PyFloat 2%float))]),
       d',
       [Callback Canonical.d (User (PyFloat 2%float))]).
Proof.
  intros Hlog Hfuel.
  replace fuel with (7 + (fuel - 7))%nat by lia.
  change (Canonical.run log raises_ (7 + (fuel - 7)))
    with (_dispatch no_iter (7 + (fuel - 7)) (InDict [(Canonical.a, User (PyInt 0))])
                    (Some [Canonical.d]) None false false (Canonical.dsp log raises_)).
  assert (E : exists wf d',
             _dispatch no_iter 7 (InDict [(Canonical.a, User (PyInt 0))])
                       (Some [Canonical.d]) None false false (Canonical.dsp log raises_)
             = (Ok (wf, [(Canonical.a, User (PyInt 0)); (Canonical.b, User (PyInt 1));
                         (Canonical.c, User (PyInt 1)); (Canonical.d, User (PyFloat 2%float))]),
                d', [Callback Canonical.d (User (PyFloat 2%float))])).
  { destruct raises_; vm_compute; rewrite Hlog; do 2 eexists; reflexivity. }
  destruct E as (wf & d' & E).
  exists wf, d'. rewrite _dispatch_more_fuel; [exact E|].
  rewrite E. discriminate.
Qed.

Lemma canonical_dispatch_witness :
  exists wf d',
    Canonical.run (fun _ => 0%float) false 7 =
      (Ok (wf, [(Canonical.a, User (PyInt 0)); (Canonical.b, User (PyInt 1));
                (Canonical.c, User (PyInt 1)); (Canonical.d, User (PyFloat 2%float))]),
       d',
       [Callback Canonical.d (User (PyFloat 2%float))]).
Proof.
  apply (canonical_dispatch (fun _ => 0%float) false (fuel := 7)); [reflexivity | lia].
Defined.

(** ** Edges of the workflow *)

Section WorkflowFacts.

Variable V : Type.

Notation "x <- m ;; k" := (bind m (fun x => k))
  (at level 61, m at next level, right associativity).
Notation "m ;;; k" := (bind m (fun _ => k))
  (at level 61, right associativity).

Lemma adj_set2_same {E} (n u : node_id) (e : E) (m : dict (dict E)) :
  adj (set2 n u e m) n = set u e (adj m n).
Proof. unfold adj at 1, set2. now rewrite get_set_same. Qed.

Lemma has_key_set2 {E} (k n u : node_id) (e : E) (m : dict (dict E)) :
  has_key k (set2 n u e m) = node_id_eqb k n || has_key k m.
Proof. unfold set2. apply has_key_set. Qed.

Lemma adj_set_new {E} (n v : node_id) (m : dict (dict E)) :
  has_key v m = false -> adj (set v [] m) n = adj m n.
Proof.
  intros H. unfold adj. destruct (node_id_eqb_spec n v) as [->|N].
  - rewrite get_set_same. unfold has_key in H. now destruct (get v m).
  - now rewrite get_set_other.
Qed.

Lemma add_edge_fun_ok {N E} (blank : N) (g : DiGraph N E) (u v : node_id) (e : E) :
  has_key u (succ g) = true ->
  exists g',
    add_edge_fun blank g u v e = (g', true)
    /\ has_key u (succ g') = true
    /\ adj (succ g') u = set v e (adj (succ g) u).
Proof.
  intros H. unfold add_edge_fun.
  destruct (has_key v (succ g)) eqn:Ev.
  - rewrite H. eexists. split; [reflexivity|]. cbn [succ].
    split; [rewrite has_key_set2, node_id_eqb_refl; reflexivity|].
    apply adj_set2_same.
  - cbn [succ]. rewrite has_key_set, H, orb_true_r.
    eexists. split; [reflexivity|]. cbn [succ].
    split; [rewrite has_key_set2, node_id_eqb_refl; reflexivity|].
    rewrite adj_set2_same. now rewrite adj_set_new.
Qed.

(** Adding the edge [(n, u)] to a workflow that has the node [n]. *)
Lemma _wf_add_edge_ok (n u : node_id) (e : wf_edge V) (d : Dispatcher V) :
  has_key n (succ (workflow d)) = true ->
  exists g,
    _wf_add_edge n u e d = (Ok tt, set_workflow g d, [])
    /\ has_key n (succ g) = true
    /\ adj (succ g) n = set u e (adj (succ (workflow d)) n).
Proof.
  intros H.
  destruct (add_edge_fun_ok None (workflow d) n u e H) as (g & E & Hg & Ha).
  exists g. unfold _wf_add_edge. rewrite E. auto.
Qed.

Lemma get_set_keep {A} (k k' : node_id) (v : A) (d : dict A) :
  get k d = Some v -> get k (set k' v d) = Some v.
Proof.
  intros H. destruct (node_id_eqb_spec k k') as [->|N].
  - apply get_set_same.
  - now rewrite get_set_other.
Qed.

(** The loop that puts a value on every edge out of [n]. *)
Lemma for_each_wf_add_edge_ok (n : node_id) (e : wf_edge V) (us : list node_id) :
  forall d : Dispatcher V,
    has_key n (succ (workflow d)) = true ->
    exists g,
      for_each us (fun u => _wf_add_edge n u e) d = (Ok tt, set_workflow g d, [])
      /\ has_key n (succ g) = true
      /\ (forall u, get u (adj (succ (workflow d)) n) = Some e ->
                    get u (adj (succ g) n) = Some e)
      /\ (forall u, In u us -> get u (adj (succ g) n) = Some e).
Proof.
  unfold for_each. induction us as [|u r IH]; intros d H.
  - exists (workflow d). destruct d; simpl in *. repeat split; auto. contradiction.
  - destruct (_wf_add_edge_ok n u e d H) as (g & E & Hg & Ha).
    cbn [foldM]. erewrite bind_Ok by exact E. cbn [fst snd].
    destruct (IH (set_workflow g d) Hg) as (g' & E' & Hg' & Hk & Hin).
    rewrite E'. cbn [fst snd app].
    exists g'. split; [destruct d; reflexivity|]. split; [exact Hg'|].
    cbn [workflow set_workflow] in Hk. split.
    + intros u' Hu'. apply Hk. rewrite Ha. now apply get_set_keep.
    + intros u' [->|Hu'].
      * apply Hk. rewrite Ha. apply get_set_same.
      * now apply Hin.
Qed.

(** The end of the estimation of a data node: it cannot fail on a node
    that is in the map and in the workflow, it changes the workflow
    only, and unless the first successor is visited every successor gets
    the value. *)
Lemma _propagate_ok (n : node_id) (e : wf_edge V) (d : Dispatcher V) :
  has_key n (_succ d) = true ->
  has_key n (succ (workflow d)) = true ->
  exists g,
    _propagate n e d = (Ok tt, set_workflow g d, [])
    /\ (forall u0 r, keys (adj (_succ d) n) = u0 :: r ->
                     mem u0 (_visited d) = false ->
                     forall u, In u (u0 :: r) -> get u (adj (succ g) n) = Some e).
Proof.
  intros Hs Hw. unfold _propagate.
  cbn [bind gets fst snd app]. unfold item, adj.
  unfold has_key in Hs. destruct (get n (_succ d)) as [s|] eqn:Es; [|discriminate].
  cbn [bind ret gets fst snd app].
  destruct (keys s) as [|u0 r] eqn:Ek.
  - exists (workflow d). cbn. split; [destruct d; reflexivity|]. discriminate.
  - destruct (mem u0 (_visited d)) eqn:Ev; cbn [negb].
    + exists (workflow d). cbn. split; [destruct d; reflexivity|].
      intros u1 r1 E1 Hv. inversion E1; subst. congruence.
    + destruct (for_each_wf_add_edge_ok n e (u0 :: r) d Hw) as (g & E & _ & _ & Hin).
      exists g. rewrite E. cbn. split; [reflexivity|].
      intros u1 r1 E1 _. inversion E1; subst. exact Hin.
Qed.

End WorkflowFacts.

(** ** Frames: what a method leaves as it is *)

Section FrameFacts.

Variable V : Type.

Section WithRelation.

Variable R : Dispatcher V -> Dispatcher V -> Prop.
Hypothesis R_refl : forall d, R d d.
Hypothesis R_trans : forall a b c, R a b -> R b c -> R a c.

Lemma preserves_ret {A} (a : A) : preserves R (ret a).
Proof. intros d. apply R_refl. Qed.

Lemma preserves_raise {A} c s : preserves R (@raise V A c s).
Proof. intros d. apply R_refl. Qed.

Lemma preserves_out_of_fuel {A} : preserves R (@out_of_fuel V A).
Proof. intros d. apply R_refl. Qed.

Lemma preserves_gets {A} (f : Dispatcher V -> A) : preserves R (gets f).
Proof. intros d. apply R_refl. Qed.

Lemma preserves_emit (e : event V) : preserves R (emit e).
Proof. intros d. apply R_refl. Qed.

Lemma preserves_lift {A} (o : outcome A) : preserves R (lift o).
Proof. intros d. apply R_refl. Qed.

Lemma preserves_modify (f : Dispatcher V -> Dispatcher V) :
  (forall d, R d (f d)) -> preserves R (modify f).
Proof. intros H d. apply H. Qed.

Lemma preserves_bind {A B} (m : M V A) (f : A -> M V B) :
  preserves R m -> (forall a, preserves R (f a)) -> preserves R (bind m f).
Proof.
  intros Hm Hf d. unfold bind. specialize (Hm d).
  destruct (m d) as [[o d1] l1]. cbn [fst snd] in *.
  destruct o as [a| |]; cbn [fst snd]; auto.
  eapply R_trans; [exact Hm | apply Hf].
Qed.

Lemma preserves_foldM {A S} (l : list A) (body : A -> S -> M V S) :
  (forall a s, preserves R (body a s)) -> forall s, preserves R (foldM l s body).
Proof.
  intros H. induction l as [|a r IH]; intros s; cbn [foldM].
  - apply preserves_ret.
  - apply preserves_bind; auto.
Qed.

Lemma preserves_for_each {A} (l : list A) (body : A -> M V unit) :
  (forall a, preserves R (body a)) -> preserves R (for_each l body).
Proof. intros H. unfold for_each. apply preserves_foldM. intros a s. apply H. Qed.

Lemma preserves_item {A} (k : node_id) (m : dict A) : preserves R (item k m).
Proof. unfold item. destruct (get k m); [apply preserves_ret | apply preserves_raise]. Qed.

Lemma preserves_key_error {A} (o : option A) s : preserves R (key_error (V:=V) o s).
Proof. unfold key_error. destruct o; [apply preserves_ret | apply preserves_raise]. Qed.

End WithRelation.

Lemma workflow_only_refl (d : Dispatcher V) : workflow_only d d.
Proof. exists (workflow d). now destruct d. Qed.

Lemma workflow_only_trans (a b c : Dispatcher V) :
  workflow_only a b -> workflow_only b c -> workflow_only a c.
Proof. intros [g ->] [g' ->]. now exists g'. Qed.

Lemma preserves_wf_add_edge u v (e : wf_edge V) : preserves (@workflow_only V) (_wf_add_edge u v e).
Proof.
  intros d. unfold _wf_add_edge.
  destruct (add_edge_fun None (workflow d) u v e) as [g ok].
  destruct ok; cbn [fst snd]; now exists g.
Qed.

Lemma preserves_wf_remove_node n : preserves (@workflow_only V) (@wf_remove_node V n).
Proof.
  intros d. unfold wf_remove_node.
  destruct (remove_node n (workflow d)) as [g|]; cbn [fst snd].
  - now exists g.
  - apply workflow_only_refl.
Qed.

Lemma preserves_wf_add_node n a : preserves (@workflow_only V) (@wf_add_node V n a).
Proof. intros d. cbn. eexists. reflexivity. Qed.

End FrameFacts.

Create HintDb frame.

#[local] Hint Resolve preserves_ret preserves_raise preserves_out_of_fuel preserves_gets
  preserves_emit preserves_lift preserves_item preserves_key_error
  workflow_only_refl workflow_only_trans
  preserves_wf_add_edge preserves_wf_remove_node preserves_wf_add_node : frame.

(** Solves [preserves R m] by following the structure of [m]. *)
Ltac frame_step :=
  match goal with
  | |- forall _, preserves _ _ => intro
  | |- forall _ _, preserves _ _ => intro
  | |- preserves _ (bind _ _) => apply preserves_bind
  | |- preserves _ (foldM _ _ _) => apply preserves_foldM
  | |- preserves _ (for_each _ _) => apply preserves_for_each
  | |- preserves _ (modify _) => apply preserves_modify
  | |- preserves _ (match ?x with _ => _ end) => destruct x
  | |- preserves _ (if ?x then _ else _) => destruct x
  | |- preserves _ ?m =>
      match m with
      | context [match ?x with _ => _ end] => is_var x; destruct x
      end
  | |- preserves _ _ => progress cbv beta
  | |- _ => solve [eauto with frame]
  end.

Ltac frame := repeat frame_step.

Section EstimationFrames.

Variable V : Type.

Lemma preserves_get_node_estimations (attr : node_attr V) n :
  preserves (@workflow_only V) (_get_node_estimations attr n).
Proof.
  unfold _get_node_estimations. frame.
  eexists; reflexivity.
Qed.

Lemma preserves_propagate n (e : wf_edge V) :
  preserves (@workflow_only V) (_propagate n e).
Proof. unfold _propagate. frame. Qed.

End EstimationFrames.

(** ** C3: an exception of a callback *)

Section CallbackFacts.

Variable V : Type.

(** C3 (amended). Under the default policy ([raises] false), when the
    callback of a data node raises on the estimated value, the exception
    is logged as a warning after the call and the estimation goes on: it
    returns [True], a value other than [NONE] is recorded in
    [data_output], and, unless the first successor is already visited,
    the value is put on the edge to every successor. *)
Theorem callback_exception_is_logged
        (n : node_id) (attr : node_attr V) (d d1 : Dispatcher V)
        (est : dict (wf_edge V)) (wait_in : bool) (value : val V)
        (cb : val V -> ures unit) (ex : exn) (l1 : list (event V)) :
  raises d = false ->
  callback attr = Some cb ->
  cb value = Throw ex ->
  _get_node_estimations attr n d = (Ok (est, wait_in), d1, l1) ->
  _data_node_value attr est wait_in d1 = (Ok (Return value), d1, []) ->
  has_key n (_succ d) = true ->
  has_key n (succ (workflow d1)) = true ->
  exists d',
    _set_data_node_output n attr false d
    = (Ok true, d', (l1 ++ [Callback n value; Warning (callback_error_data n ex)])%list)
    /\ data_output d' = match value with
                        | NONE => data_output d
                        | _ => set n value (data_output d)
                        end
    /\ (forall u0 r, keys (adj (_succ d) n) = u0 :: r ->
                     mem u0 (_visited d) = false ->
                     forall u, In u (u0 :: r) ->
                               get u (adj (succ (workflow d')) n) = Some (Some value)).
Proof.
  intros Hr Hcb Hthrow Hest Hval Hs Hw.
  assert (F : workflow_only d d1).
  { pose proof (preserves_get_node_estimations attr n d) as P. now rewrite Hest in P. }
  destruct F as [g0 ->].
  unfold _set_data_node_output.
  erewrite bind_Ok by exact Hest. cbn [fst snd negb].
  erewrite bind_Ok by exact Hval. cbn [fst snd app].
  unfold _invoke_callback. rewrite Hcb, Hthrow.
  set (d1 := set_workflow g0 d) in *.
  set (d2 := match value with
             | NONE => d1
             | _ => set_data_output (set n value (data_output d1)) d1
             end).
  assert (Hs2 : has_key n (_succ d2) = true) by (unfold d2; destruct value; exact Hs).
  assert (Hw2 : has_key n (succ (workflow d2)) = true) by (unfold d2; destruct value; exact Hw).
  destruct (_propagate_ok n (Some value) d2 Hs2 Hw2) as (g & Ep & Hedges).
  exists (set_workflow g d2).
  assert (Hr1 : raises d1 = false) by exact Hr.
  split; [|split].
  - unfold warning, _warning.
    destruct value as [v|];
      unfold bind, emit, gets, modify, ret; cbn [fst snd app]; rewrite Hr1;
      unfold raise; cbn [fst snd app];
      fold d2; rewrite Ep; reflexivity.
  - unfold d2, d1. destruct value; reflexivity.
  - intros u0 r Hk Hv u Hu. cbn [workflow set_workflow].
    apply (Hedges u0 r); auto.
    + unfold d2, d1. destruct value; exact Hk.
    + unfold d2, d1. destruct value; exact Hv.
Qed.

End CallbackFacts.

Lemma callback_exception_is_logged_witness :
  exists d',
    _set_data_node_output CallbackRaises.a CallbackRaises.attr_a false CallbackRaises.settled
    = (Ok true, d',
       [Callback CallbackRaises.a (User (PyInt 1));
        Warning (callback_error_data CallbackRaises.a (Exn UserError "boom"))])
    /\ get CallbackRaises.a (data_output d') = Some (User (PyInt 1)).
Proof.
  destruct (@callback_exception_is_logged num CallbackRaises.a CallbackRaises.attr_a
              CallbackRaises.settled CallbackRaises.settled
              [(START, Some (User (PyInt 1)))] false (User (PyInt 1))
              CallbackRaises.boom (Exn UserError "boom") [])
    as (d' & E & Ho & _); try reflexivity.
  exists d'. split; [exact E|]. rewrite Ho. reflexivity.
Defined.

(** C3, as stated, fails when the dispatcher is built with [raises=True]:
    the exception of the callback stops the dispatch with a [ValueError],
    nothing is recorded in [data_output], and no warning is logged. *)
Lemma callback_exception_aborts_under_raises :
  fst (fst (CallbackRaises.run true 5))
  = Raise (Exn ValueError "Callback error at data node (a) due to: boom")
  /\ data_output (snd (fst (CallbackRaises.run true 5))) = []
  /\ snd (CallbackRaises.run true 5) = [Callback CallbackRaises.a (User (PyInt 1))].
Proof. vm_compute. repeat split. Qed.

(** ** Steps of a computation *)

Section StepFacts.

Variable V : Type.

Lemma bind_ret {A B} (a : A) (k : A -> M V B) d : bind (ret a) k d = k a d.
Proof. unfold bind, ret. cbn [fst snd app]. now destruct (k a d) as [[? ?] ?]. Qed.

Lemma bind_gets {A B} (f : Dispatcher V -> A) (k : A -> M V B) d :
  bind (gets f) k d = k (f d) d.
Proof. unfold bind, gets. cbn [fst snd app]. now destruct (k (f d) d) as [[? ?] ?]. Qed.

Lemma bind_modify {B} (f : Dispatcher V -> Dispatcher V) (k : unit -> M V B) d :
  bind (modify f) k d = k tt (f d).
Proof. unfold bind, modify. cbn [fst snd app]. now destruct (k tt (f d)) as [[? ?] ?]. Qed.

Lemma bind_assoc {A B C} (m : M V A) (f : A -> M V B) (g : B -> M V C) d :
  bind (bind m f) g d = bind m (fun a => bind (f a) g) d.
Proof.
  unfold bind. destruct (m d) as [[o d1] l1]. cbn [fst snd].
  destruct o as [a| |]; cbn [fst snd]; auto.
  destruct (f a d1) as [[o2 d2] l2]. cbn [fst snd].
  destruct o2 as [b| |]; cbn [fst snd]; auto.
  now rewrite app_assoc.
Qed.

Lemma bind_raise {A B} c s (k : A -> M V B) d :
  bind (raise c s) k d = (Raise (Exn c s), d, []).
Proof. reflexivity. Qed.

Lemma bind_item {A B} (k : node_id) (m : dict A) (a : A) (f : A -> M V B) d :
  get k m = Some a -> bind (item k m) f d = f a d.
Proof. intros H. unfold item. rewrite H. apply bind_ret. Qed.

End StepFacts.

(** ** C10: a waiting data node without an estimation function *)

(** Inversion of a [bind] that returned. *)
Ltac binv H :=
  apply bind_inv in H;
  destruct H as [(?a & ?d & ?l & ?l' & ?Hm & H & ?Hl)|[(?e & ?Hm & ?Hr)|(?Hm & ?Hr)]];
  [| discriminate | discriminate].

(** Use of an equation between results: the variables on its right are
    replaced. *)
Ltac inj H :=
  injection H; clear H; intros;
  repeat match goal with E : _ = ?y |- _ => is_var y; subst y end.

Section WaitingNodeFacts.

Variable V : Type.
Variable py_iter : val V -> option (list (val V)).

Lemma values_of_Throw (est : dict (wf_edge V)) (e : exn) :
  values_of est = Throw e -> e = Exn KeyError "'value'".
Proof.
  induction est as [|[k [v|]] r IH]; simpl.
  - discriminate.
  - destruct (values_of r); [discriminate|]. intros H. inversion H; subst. now apply IH.
  - intros H. now inversion H.
Qed.

Lemma estimate_without_function (attr : node_attr V) (est : dict (wf_edge V)) :
  function attr = None ->
  exists ex, estimate attr est = Throw ex /\ exn_class_of ex = KeyError.
Proof.
  intros H. unfold estimate. rewrite H.
  destruct (values_of est) as [kw|e] eqn:E.
  - eexists. split; reflexivity.
  - exists e. split; [reflexivity|]. now rewrite (values_of_Throw _ E).
Qed.

(** What [_get_node_estimations] gives when it returns: the flag is the
    node's own [wait_inputs], only the workflow may have changed, and
    not even the workflow when the node waits for its inputs (by its
    own flag or by an override). *)
Lemma _get_node_estimations_inv (attr : node_attr V) n (d d1 : Dispatcher V) est w l1 :
  _get_node_estimations attr n d = (Ok (est, w), d1, l1) ->
  w = wait_inputs attr
  /\ workflow_only d d1
  /\ (match get n (_wait_in d) with Some b => b | None => wait_inputs attr end = true ->
      d1 = d).
Proof.
  intros H.
  assert (F : workflow_only d d1).
  { pose proof (preserves_get_node_estimations attr n d) as P. now rewrite H in P. }
  unfold _get_node_estimations in H.
  binv H. inj Hm.
  binv H. unfold item in Hm. destruct (get n (_wf_pred d)) as [estimations|];
    [|discriminate]. inj Hm.
  binv H. inj Hm.
  destruct (match get n (_wait_in d) with Some b => b | None => wait_inputs attr end) eqn:Eff.
  - cbn [negb] in H. rewrite andb_false_r in H. inj H. auto.
  - cbn [negb] in H. rewrite andb_true_r in H.
    destruct (1 <? Z.of_nat (Datatypes.length estimations)).
    + binv H.
      destruct a as [|x r]; [discriminate|].
      destruct (est_min x r) as [[dm k0] v0].
      binv H.
      inj H. split; [reflexivity|]. split; [exact F|discriminate].
    + inj H. auto.
Qed.

(** A turn of the main loop on a node whose estimation fails goes to the
    next turn with the fringe as it is. *)
Lemma _run_body_of_failed_node ct cc cw nc dd v fs (d0 d1 : Dispatcher V) l :
  _set_node_output py_iter v nc
    (set_visited (set_add v (_visited d0)) (set_dist (set v dd (dist d0)) d0))
  = (Ok false, d1, l) ->
  _run_body py_iter ct cc cw nc dd v fs d0 = (Ok (Some fs), d1, l).
Proof.
  intros H. unfold _run_body, add_visited.
  rewrite !bind_modify. cbn [_visited set_dist].
  erewrite bind_Ok by exact H. cbn [negb ret fst snd app].
  now rewrite app_nil_r.
Qed.

(** C10 (amended). A data node whose own [wait_inputs] attribute is true
    and that has no ['function'] is never estimated in call mode under
    the default policy: once its estimations are read,
    [_set_data_node_output] logs a [KeyError] as a warning and returns
    [False]; [data_output] is as before, and so is the workflow when
    the node waits for its inputs; the main loop goes to its next turn
    without looking at the successors. *)
Theorem waiting_node_without_function_is_not_estimated
        ct cc cw (dd : Z) (n : node_id) (fs : loop_state) (attr : node_attr V)
        (d0 d1 : Dispatcher V) est w l1 :
  let d := set_visited (set_add n (_visited d0)) (set_dist (set n dd (dist d0)) d0) in
  raises d0 = false ->
  get n (nodes d0) = Some attr ->
  type attr = type_data ->
  wait_inputs attr = true ->
  function attr = None ->
  _get_node_estimations attr n d = (Ok (est, w), d1, l1) ->
  exists ex,
    exn_class_of ex = KeyError
    /\ _set_data_node_output n attr false d
       = (Ok false, d1, (l1 ++ [Warning (estimation_error_data n ex)])%list)
    /\ _run_body py_iter ct cc cw false dd n fs d0
       = (Ok (Some fs), d1, (l1 ++ [Warning (estimation_error_data n ex)])%list)
    /\ data_output d1 = data_output d0
    /\ (match get n (_wait_in d0) with Some b => b | None => true end = true ->
        workflow d1 = workflow d0).
Proof.
  intros d Hr Hn Ht Hw Hf Hest.
  destruct (_get_node_estimations_inv Hest) as (-> & [g Hg] & Heff).
  destruct (estimate_without_function attr est Hf) as (ex & Eex & Hk).
  exists ex. split; [exact Hk|].
  assert (E : _set_data_node_output n attr false d
              = (Ok false, d1, (l1 ++ [Warning (estimation_error_data n ex)])%list)).
  { unfold _set_data_node_output.
    erewrite bind_Ok by exact Hest. cbn [fst snd negb].
    unfold _data_node_value. rewrite Hw. cbn [negb].
    rewrite bind_ret, Eex. unfold warning. rewrite bind_assoc, bind_gets.
    replace (raises d1) with false
      by (rewrite Hg; unfold d; cbn [raises set_workflow set_visited set_dist];
          symmetry; exact Hr).
    reflexivity. }
  split; [exact E|]. split; [|split].
  - apply _run_body_of_failed_node. fold d.
    unfold _set_node_output. rewrite bind_gets.
    erewrite bind_item by exact Hn.
    rewrite Ht. exact E.
  - rewrite Hg. reflexivity.
  - intros Ho. rewrite Heff; [reflexivity|].
    unfold d. cbn [_wait_in set_visited set_dist]. rewrite Hw.
    destruct (get n (_wait_in d0)); auto.
Qed.

End WaitingNodeFacts.

Lemma waiting_node_without_function_is_not_estimated_witness :
  exists ex d1,
    _run_body no_iter (fun _ => ret false) (fun _ => false) (fun _ _ => ret false)
              false 0 WaitingNoFunction.a ([], []) WaitingNoFunction.before_loop
    = (Ok (Some ([], [])), d1,
       [Warning (estimation_error_data WaitingNoFunction.a ex)])
    /\ data_output d1 = [].
Proof.
  destruct (@waiting_node_without_function_is_not_estimated num no_iter
              (fun _ => ret false) (fun _ => false) (fun _ _ => ret false)
              0 WaitingNoFunction.a ([], []) WaitingNoFunction.attr_a
              WaitingNoFunction.before_loop
              (set_visited (set_add WaitingNoFunction.a (_visited WaitingNoFunction.before_loop))
                 (set_dist (set WaitingNoFunction.a 0 (dist WaitingNoFunction.before_loop))
                    WaitingNoFunction.before_loop))
              [(START, Some (User (PyInt 1)))] true [])
    as (ex & _ & _ & E & Ho & _); try reflexivity.
  exists ex. eexists. split; [exact E|]. exact Ho.
Defined.

(** C10, as stated, fails for a flag that is true by an override only.
    [shrink_dsp(['a', 'zz'])] stops on a [TypeError] and leaves the
    override of [b] (an output of a function with a domain) in place; in
    the dispatch that follows, [b], which has no ['function'] and whose
    own flag is false, is estimated and recorded. *)
Lemma node_waiting_by_override_is_estimated :
  fst (fst OverrideLeft.shrunk) = Raise (Exn TypeError "indices must be integers")
  /\ (exists attr,
        get OverrideLeft.b (nodes (snd (fst OverrideLeft.shrunk))) = Some attr
        /\ function attr = None
        /\ effective_wait_inputs (snd (fst OverrideLeft.shrunk)) OverrideLeft.b
                                 (wait_inputs attr) = true)
  /\ (exists wf, fst (fst OverrideLeft.run)
                 = Ok (wf, [(OverrideLeft.a, User (PyInt 1));
                            (OverrideLeft.b, User (PyInt 1))]))
  /\ snd OverrideLeft.run = [].
Proof.
  split; [vm_compute; reflexivity|]. split.
  - eexists. split; [vm_compute; reflexivity|]. split; reflexivity.
  - split; [eexists; vm_compute; reflexivity | vm_compute; reflexivity].
Qed.

(** ** The turns of the main loop *)

Section LoopFacts.

Variable V : Type.
Variable py_iter : val V -> option (list (val V)).

Lemma Some_inj {A} (x y : A) : Some x = Some y -> x = y.
Proof. congruence. Qed.






(** The three closures that [_run] builds never fail to be built. *)
Lemma _check_targets_ok (d : Dispatcher V) :
  exists ct, _check_targets d = (Ok ct, d, []).
Proof.
  unfold _check_targets. rewrite bind_gets.
  destruct (negb (is_empty (_targets d))); eexists; reflexivity.
Qed.

Lemma _check_cutoff_ok (d : Dispatcher V) :
  exists cc, _check_cutoff d = (Ok cc, d, []).
Proof.
  unfold _check_cutoff. rewrite bind_gets.
  destruct (_cutoff d); eexists; reflexivity.
Qed.

Lemma _check_wait_input_flag_ok (d : Dispatcher V) :
  exists cw, _check_wait_input_flag d = (Ok cw, d, []).
Proof.
  unfold _check_wait_input_flag. rewrite bind_gets.
  destruct (negb (is_empty (_wait_in d))); eexists; reflexivity.
Qed.



End LoopFacts.

(** ** C2: a shorter way to a settled node *)

Section ContradictoryPaths.

Variable V : Type.
Variable py_iter : val V -> option (list (val V)).

Lemma turns_run_turns ct cc cw nc k : forall fs (d : Dispatcher V),
  turns py_iter ct cc cw nc fs d
        (fst (run_turns py_iter ct cc cw nc k fs d))
        (snd (run_turns py_iter ct cc cw nc k fs d)).
Proof.
  induction k as [|k IH]; intros fs d; cbn [run_turns fst snd].
  - constructor.
  - destruct (loop_turn py_iter ct cc cw nc fs d) as [[[o d1] l]|] eqn:E;
      [|constructor].
    destruct o as [[fs1|]| |]; try constructor.
    eapply turns_step; [exact E | apply IH].
Qed.



End ContradictoryPaths.


(** ** The fringe *)

Lemma entry_eqb_eq (a b : entry) : entry_eqb a b = true -> a = b.
Proof.
  destruct a as [[d1 w1] k1], b as [[d2 w2] k2]. unfold entry_eqb.
  rewrite !andb_true_iff. intros [[H1 H2] H3].
  apply Z.eqb_eq in H1. apply Bool.eqb_prop in H2. apply node_id_eqb_eq in H3.
  congruence.
Qed.

Lemma heap_min_In (x : entry) (l : list entry) : In (heap_min x l) (x :: l).
Proof.
  revert x. induction l as [|y r IH]; intros x; cbn [heap_min].
  - now left.
  - destruct (IH (if entry_ltb y x then y else x)) as [H|H].
    + rewrite <- H. destruct (entry_ltb y x); [right; now left | now left].
    + right. now right.
Qed.

Lemma remove_first_incl (m : entry) (l : list entry) : incl (remove_first m l) l.
Proof.
  induction l as [|y r IH]; cbn [remove_first]; [apply incl_refl|].
  destruct (entry_eqb m y).
  - apply incl_tl, incl_refl.
  - intros z [->|Hz]; [now left | right; now apply IH].
Qed.

(** [heappop] gives an entry of the heap and leaves entries of the heap. *)
Lemma heappop_spec (h r : list entry) (m : entry) :
  heappop h = Some (m, r) -> In m h /\ incl r h.
Proof.
  unfold heappop. destruct h as [|x l]; [discriminate|].
  pose proof (heap_min_In x l) as H1.
  pose proof (remove_first_incl (heap_min x l) (x :: l)) as H2.
  intros H. inj H. split; [exact H1 | exact H2].
Qed.

(** ** What a run leaves as it is *)

Section GrowsFacts.

Variable V : Type.

Lemma grows_refl (d : Dispatcher V) : grows d d.
Proof. unfold grows. auto 10. Qed.

Lemma grows_trans (a b c : Dispatcher V) : grows a b -> grows b c -> grows a c.
Proof.
  unfold grows. intros (A1 & A2 & A3 & A4 & A5 & A6) (B1 & B2 & B3 & B4 & B5 & B6).
  repeat split; try congruence. auto.
Qed.

Lemma workflow_only_grows (d d' : Dispatcher V) : workflow_only d d' -> grows d d'.
Proof. intros [g ->]. unfold grows. cbn. auto 10. Qed.

Lemma preserves_weaken (R R' : Dispatcher V -> Dispatcher V -> Prop) {A} (m : M V A) :
  (forall d d', R d d' -> R' d d') -> preserves R m -> preserves R' m.
Proof. intros H P d. apply H, P. Qed.

Lemma unchanged_refl (d : Dispatcher V) : unchanged d d.
Proof. reflexivity. Qed.

Lemma unchanged_trans (a b c : Dispatcher V) :
  unchanged a b -> unchanged b c -> unchanged a c.
Proof. unfold unchanged. congruence. Qed.

Lemma unchanged_grows (d d' : Dispatcher V) : unchanged d d' -> grows d d'.
Proof. intros ->. apply grows_refl. Qed.

End GrowsFacts.

#[local] Hint Resolve grows_refl grows_trans unchanged_refl unchanged_trans : frame.

(** A change of the outputs or of the distances only, and a visit. *)
Ltac grows_modify :=
  intros; unfold grows; cbn; repeat split; auto using mem_set_add_mono.

Section RunFrames.

Variable V : Type.
Variable py_iter : val V -> option (list (val V)).

Lemma grows_get_node_estimations (attr : node_attr V) n :
  preserves (@grows V) (_get_node_estimations attr n).
Proof.
  eapply preserves_weaken; [apply workflow_only_grows|].
  apply preserves_get_node_estimations.
Qed.

Lemma grows_propagate n (e : wf_edge V) : preserves (@grows V) (_propagate n e).
Proof.
  eapply preserves_weaken; [apply workflow_only_grows | apply preserves_propagate].
Qed.

Lemma grows_wf_add_edge u v (e : wf_edge V) : preserves (@grows V) (_wf_add_edge u v e).
Proof.
  eapply preserves_weaken; [apply workflow_only_grows | apply preserves_wf_add_edge].
Qed.

Lemma grows_wf_remove_node n : preserves (@grows V) (@wf_remove_node V n).
Proof.
  eapply preserves_weaken; [apply workflow_only_grows | apply preserves_wf_remove_node].
Qed.

Lemma grows_wf_add_node n a : preserves (@grows V) (@wf_add_node V n a).
Proof.
  eapply preserves_weaken; [apply workflow_only_grows | apply preserves_wf_add_node].
Qed.

Lemma grows_add_visited n : preserves (@grows V) (@add_visited V n).
Proof. unfold add_visited. frame. grows_modify. Qed.

Lemma grows_warning msg : preserves (@grows V) (@warning V msg).
Proof. unfold warning, _warning. frame. Qed.

Hint Resolve grows_get_node_estimations grows_propagate grows_wf_add_edge
     grows_wf_remove_node grows_wf_add_node grows_add_visited grows_warning : frame.

Lemma grows_invoke_callback n (attr : node_attr V) v :
  preserves (@grows V) (_invoke_callback n attr v).
Proof. unfold _invoke_callback. frame. Qed.

Lemma grows_data_node_value (attr : node_attr V) est w :
  preserves (@grows V) (_data_node_value attr est w).
Proof. unfold _data_node_value. frame. Qed.

Hint Resolve grows_invoke_callback grows_data_node_value : frame.

Lemma grows_set_data_node_output n (attr : node_attr V) nc :
  preserves (@grows V) (_set_data_node_output n attr nc).
Proof. unfold _set_data_node_output. frame; grows_modify. Qed.

Lemma grows_set_function_node_output n (attr : node_attr V) nc :
  preserves (@grows V) (_set_function_node_output py_iter n attr nc).
Proof. unfold _set_function_node_output. frame. Qed.

Hint Resolve grows_set_data_node_output grows_set_function_node_output : frame.

Lemma grows_set_node_output n nc : preserves (@grows V) (_set_node_output py_iter n nc).
Proof. unfold _set_node_output. frame. Qed.

End RunFrames.

#[local] Hint Resolve grows_get_node_estimations grows_propagate grows_wf_add_edge
  grows_wf_remove_node grows_wf_add_node grows_add_visited grows_warning
  grows_invoke_callback grows_data_node_value
  grows_set_data_node_output grows_set_function_node_output grows_set_node_output : frame.

(** ** C7: the readiness of the nodes of the fringe *)

Section ReadinessFacts.

Variable V : Type.
Variable py_iter : val V -> option (list (val V)).

Lemma subset_mono (a b b' : list node_id) :
  subset a b = true ->
  (forall x, mem x b = true -> mem x b' = true) ->
  subset a b' = true.
Proof. rewrite !subset_spec. auto. Qed.

Lemma ready_grows (d d' : Dispatcher V) (n : node_id) :
  grows d d' -> ready d n -> ready d' n.
Proof.
  intros (Hd & _ & _ & _ & Hw & Hv) Hr attr Hn He.
  unfold nodes, _pred, effective_wait_inputs in *. rewrite Hd in *. rewrite Hw in He.
  destruct (Hr attr Hn He) as (ps & Hp & Hs).
  exists ps. split; [exact Hp|]. eapply subset_mono; eauto.
Qed.

Lemma missing_inputs_inv (n : node_id) (d d' : Dispatcher V) b l :
  missing_inputs n d = (Ok b, d', l) ->
  d' = d /\ exists ps, get n (_pred d) = Some ps
                       /\ b = negb (is_empty (difference (keys ps) (_visited d))).
Proof.
  unfold missing_inputs. rewrite bind_gets. unfold item.
  destruct (get n (_pred d)) as [ps|]; [|discriminate].
  rewrite bind_ret, bind_gets. intros H. inj H. split; [reflexivity|].
  exists ps. auto.
Qed.

(** The closure that [_check_wait_input_flag] returns. *)
Lemma _check_wait_input_flag_spec (d0 d1 : Dispatcher V) cw l :
  _check_wait_input_flag d0 = (Ok cw, d1, l) ->
  forall wi n,
    cw wi n = if effective_wait_inputs d0 n wi then missing_inputs n else ret false.
Proof.
  unfold _check_wait_input_flag. rewrite bind_gets.
  unfold effective_wait_inputs.
  destruct (_wait_in d0) as [|x r]; cbn [is_empty negb]; intros H; apply (f_equal fst) in H;
    apply (f_equal fst) in H; cbn [fst ret] in H; injection H as <-; intros wi n.
  - cbn [get]. reflexivity.
  - reflexivity.
Qed.

(** The closure that [_check_targets] returns changes the targets only. *)
Lemma _check_targets_spec (d0 d1 : Dispatcher V) ct l :
  _check_targets d0 = (Ok ct, d1, l) -> forall v, preserves (@grows V) (ct v).
Proof.
  unfold _check_targets. rewrite bind_gets.
  destruct (negb (is_empty (_targets d0))); intros H; apply (f_equal fst) in H;
    apply (f_equal fst) in H; cbn [fst ret] in H; injection H as <-; intros v.
  - frame. grows_modify.
  - frame.
Qed.

Section WithGate.

Variable d0 : Dispatcher V.
Variable cw : bool -> node_id -> M V bool.
Hypothesis cw_spec :
  forall wi n,
    cw wi n = if effective_wait_inputs d0 n wi then missing_inputs n else ret false.

Lemma gate_unchanged wi n (d d' : Dispatcher V) b l :
  cw wi n d = (Ok b, d', l) -> d' = d.
Proof.
  rewrite cw_spec. destruct (effective_wait_inputs d0 n wi).
  - intros H. now apply missing_inputs_inv in H.
  - intros H. now inj H.
Qed.

(** A node that passes the gate is ready. *)
Lemma gate_ready wi n (attr : node_attr V) (d d' : Dispatcher V) l :
  _wait_in d = _wait_in d0 ->
  cw wi n d = (Ok false, d', l) ->
  get n (nodes d) = Some attr ->
  (wait_inputs attr = true -> wi = true) ->
  ready d n.
Proof.
  intros Hw H Hn Hwi attr' Hn' He.
  rewrite Hn in Hn'. injection Hn' as <-.
  rewrite cw_spec in H.
  assert (E : effective_wait_inputs d0 n wi = true).
  { unfold effective_wait_inputs in *. rewrite Hw in He.
    destruct (get n (_wait_in d0)); auto. }
  rewrite E in H. apply missing_inputs_inv in H.
  destruct H as (_ & ps & Hp & Hb).
  exists ps. split; [exact Hp|].
  apply difference_empty_subset.
  destruct (is_empty (difference (keys ps) (_visited d))); [reflexivity | discriminate].
Qed.

(** An edge of the main loop: the object is as it was, and a node that
    is pushed is ready. *)
Lemma _relax_ready cc dd we fs (d : Dispatcher V) fs' d' l :
  _wait_in d = _wait_in d0 ->
  _relax cc cw dd we fs d = (Ok fs', d', l) ->
  d' = d /\ forall x, In x (fst fs') -> In x (fst fs) \/ ready d (snd x).
Proof.
  intros Hw H. destruct we as [w e]. unfold _relax in H.
  rewrite bind_gets in H. unfold item in H.
  destruct (get w (nodes d)) as [nd|] eqn:En; [|discriminate].
  rewrite bind_ret in H.
  destruct (cc (dd + _edge_length e nd)).
  { inj H. auto. }
  binv H. pose proof (gate_unchanged Hm) as ->.
  destruct a.
  { inj H. auto. }
  rewrite bind_gets in H.
  destruct (get w (dist d)) as [dw|].
  { destruct (dd + _edge_length e nd <? dw); [discriminate|]. inj H. auto. }
  destruct (negb (has_key w (snd fs))
            || (dd + _edge_length e nd <? match get w (snd fs) with
                                          | Some sw => sw
                                          | None => 0
                                          end)).
  - inj H. split; [reflexivity|]. cbn [fst]. unfold heappush.
    intros x Hx. apply in_app_or in Hx. destruct Hx as [Hx|[<-|[]]]; [now left|].
    right. cbn [snd]. eapply gate_ready; eauto.
  - inj H. auto.
Qed.

Lemma foldM_relax_ready cc dd succs : forall fs (d : Dispatcher V) fs' d' l,
  _wait_in d = _wait_in d0 ->
  foldM succs fs (_relax cc cw dd) d = (Ok fs', d', l) ->
  d' = d /\ forall x, In x (fst fs') -> In x (fst fs) \/ ready d (snd x).
Proof.
  induction succs as [|we r IH]; intros fs d fs' d' l Hw H; cbn [foldM] in H.
  - inj H. auto.
  - binv H. eapply _relax_ready in Hm; [|exact Hw]. destruct Hm as (-> & H1).
    eapply IH in H; [|exact Hw]. destruct H as (-> & H2).
    split; [reflexivity|]. intros x Hx.
    destruct (H2 x Hx) as [Hy|Hy]; auto.
Qed.

End WithGate.

End ReadinessFacts.

Section FringeFacts.

Variable V : Type.
Variable py_iter : val V -> option (list (val V)).

Lemma fringe_step_refl (d : Dispatcher V) fs : fringe_step d fs d fs.
Proof. split; [apply grows_refl | auto]. Qed.

Lemma fringe_step_trans (d1 d2 d3 : Dispatcher V) fs1 fs2 fs3 :
  fringe_step d1 fs1 d2 fs2 -> fringe_step d2 fs2 d3 fs3 -> fringe_step d1 fs1 d3 fs3.
Proof.
  intros [G1 H1] [G2 H2]. split; [eapply grows_trans; eauto|].
  intros x Hx. destruct (H2 x Hx) as [Hy|Hy]; [|now right].
  destruct (H1 x Hy) as [Hz|Hz]; [now left|]. right. eapply ready_grows; eauto.
Qed.

Lemma fringe_step_grows (d d' : Dispatcher V) fs : grows d d' -> fringe_step d fs d' fs.
Proof. intros G. split; auto. Qed.

(** The fringe stays ready along a step. *)
Lemma fringe_step_Forall (d d' : Dispatcher V) fs fs' :
  fringe_step d fs d' fs' ->
  Forall (fun x => ready d (snd x)) (fst fs) ->
  Forall (fun x => ready d' (snd x)) (fst fs').
Proof.
  intros [G H] F. rewrite Forall_forall in *. intros x Hx.
  destruct (H x Hx) as [Hy|Hy]; [|exact Hy].
  eapply ready_grows; eauto.
Qed.

Lemma grows_wait_in (d d' : Dispatcher V) : grows d d' -> _wait_in d' = _wait_in d.
Proof. intros (_ & _ & _ & _ & H & _). exact H. Qed.

(** A loop whose turns are steps is a step. *)
Lemma foldM_fringe_step {A} (d0 : Dispatcher V) (body : A -> loop_state -> M V loop_state)
      (l : list A) :
  (forall a fs d fs' d' lg,
      _wait_in d = _wait_in d0 ->
      body a fs d = (Ok fs', d', lg) -> fringe_step d fs d' fs') ->
  forall fs d fs' d' lg,
    _wait_in d = _wait_in d0 ->
    foldM l fs body d = (Ok fs', d', lg) -> fringe_step d fs d' fs'.
Proof.
  intros Hb. induction l as [|a r IH]; intros fs d fs' d' lg Hw H; cbn [foldM] in H.
  - inj H. apply fringe_step_refl.
  - binv H. pose proof (Hb _ _ _ _ _ _ Hw Hm) as S1.
    eapply fringe_step_trans; [exact S1|].
    eapply IH; [|exact H].
    rewrite <- Hw. apply grows_wait_in, S1.
Qed.

Section WithGate.

Variable d0 : Dispatcher V.
Variable cw : bool -> node_id -> M V bool.
Hypothesis cw_spec :
  forall wi n,
    cw wi n = if effective_wait_inputs d0 n wi then missing_inputs n else ret false.

(** A turn of the main loop is a step. *)
Lemma _run_body_fringe_step ct cc nc dd v fs (d : Dispatcher V) fs' d' l :
  (forall u, preserves (@grows V) (ct u)) ->
  _wait_in d = _wait_in d0 ->
  _run_body py_iter ct cc cw nc dd v fs d = (Ok (Some fs'), d', l) ->
  fringe_step d fs d' fs'.
Proof.
  intros Hct Hw H. unfold _run_body, add_visited in H.
  rewrite !bind_modify in H.
  set (dA := set_visited _ _) in H.
  assert (GA : grows d dA) by (unfold dA; grows_modify).
  binv H.
  assert (GB : grows dA d1).
  { pose proof (grows_set_node_output py_iter v nc dA) as P. now rewrite Hm in P. }
  destruct a; cbn [negb] in H.
  2:{ inj H. apply fringe_step_grows. eapply grows_trans; eauto. }
  binv H.
  assert (GC : grows d1 d2).
  { pose proof (Hct v d1) as P. now rewrite Hm0 in P. }
  destruct a; [discriminate|].
  rewrite bind_gets in H. unfold item in H.
  destruct (get v (_succ d2)) as [succs|]; [|discriminate].
  rewrite bind_ret in H. binv H. inj H.
  assert (G : grows d d2) by (eapply grows_trans; [|exact GC]; eapply grows_trans; eauto).
  eapply foldM_relax_ready in Hm1; [|exact cw_spec|].
  2:{ rewrite <- Hw. now apply grows_wait_in. }
  destruct Hm1 as (-> & Hx). split; auto.
Qed.

(** Complete turns keep the fringe ready. *)
Lemma turns_ready ct cc nc fs (d : Dispatcher V) fs' d' :
  (forall u, preserves (@grows V) (ct u)) ->
  turns py_iter ct cc cw nc fs d fs' d' ->
  _wait_in d = _wait_in d0 ->
  Forall (fun x => ready d (snd x)) (fst fs) ->
  grows d d' /\ Forall (fun x => ready d' (snd x)) (fst fs').
Proof.
  intros Hct T. induction T as [fs d|fs d fs1 d1 l fs2 d2 Hturn _ IH]; intros Hw F.
  - split; [apply grows_refl | exact F].
  - unfold loop_turn in Hturn.
    destruct (heappop (fst fs)) as [[[[dd flag] v] fringe]|] eqn:Ep; [|discriminate].
    apply Some_inj in Hturn.
    apply heappop_spec in Ep. destruct Ep as [_ Hincl].
    assert (S1 : fringe_step d (fringe, snd fs) d1 fs1)
      by (eapply _run_body_fringe_step; eassumption).
    assert (F1 : Forall (fun x => ready d1 (snd x)) (fst fs1)).
    { eapply fringe_step_Forall; [exact S1|]. cbn [fst].
      rewrite Forall_forall in *. auto. }
    destruct S1 as [G1 _].
    destruct IH as [G2 F2]; [rewrite <- Hw; now apply grows_wait_in | exact F1 |].
    split; [eapply grows_trans; eauto | exact F2].
Qed.

(** The loops of [_init_workflow] are steps. *)
Lemma _init_wildcard_succ_fringe_step cc v value we fs (d : Dispatcher V) fs' d' l :
  _wait_in d = _wait_in d0 ->
  _init_wildcard_succ cc cw v value we fs d = (Ok fs', d', l) ->
  fringe_step d fs d' fs'.
Proof.
  intros Hw H. destruct we as [w e]. unfold _init_wildcard_succ in H.
  binv H.
  assert (G : grows d d1).
  { pose proof (grows_wf_add_edge v w value d) as P. now rewrite Hm in P. }
  rewrite bind_gets in H. unfold item in H.
  destruct (get w (nodes d1)) as [attr_w|] eqn:En; [|discriminate].
  rewrite bind_ret in H.
  destruct (cc (_edge_length e attr_w)).
  { inj H. now apply fringe_step_grows. }
  binv H. assert (Eg : d2 = d1) by (eapply gate_unchanged; [exact cw_spec | exact Hm0]).
  subst d2.
  destruct a0.
  { inj H. now apply fringe_step_grows. }
  inj H. split; [exact G|]. cbn [fst]. unfold heappush.
  intros x Hx. apply in_app_or in Hx. destruct Hx as [Hx|[<-|[]]]; [now left|].
  right. cbn [snd]. eapply gate_ready; eauto.
  rewrite <- Hw. now apply grows_wait_in.
Qed.

Lemma _init_input_fringe_step cc wildcards input_value v fs (d : Dispatcher V) fs' d' l :
  (forall k, preserves (@unchanged V) (input_value k)) ->
  _wait_in d = _wait_in d0 ->
  _init_input cc cw wildcards input_value v fs d = (Ok fs', d', l) ->
  fringe_step d fs d' fs'.
Proof.
  intros Hiv Hw H. unfold _init_input in H.
  rewrite bind_gets in H.
  destruct (get v (nodes d)) as [attr_v|] eqn:En.
  2:{ inj H. apply fringe_step_refl. }
  binv H.
  assert (Eu : unchanged d d1).
  { pose proof (Hiv v d) as P. now rewrite Hm in P. }
  binv H. rename d2 into d3.
  assert (G : grows d d3).
  { eapply grows_trans; [apply unchanged_grows; exact Eu|].
    pose proof (grows_wf_add_edge START v a d1) as P. now rewrite Hm0 in P. }
  assert (Hw3 : _wait_in d3 = _wait_in d0) by (rewrite <- Hw; now apply grows_wait_in).
  destruct (mem v wildcards).
  - unfold add_visited, wf_add_node in H. rewrite !bind_modify, bind_gets in H.
    set (d4 := set_workflow _ _) in H.
    assert (G4 : grows d3 d4) by (unfold d4; grows_modify).
    unfold item in H. destruct (get v (_succ d4)) as [succs|]; [|discriminate].
    rewrite bind_ret in H.
    eapply fringe_step_trans; [apply fringe_step_grows; eapply grows_trans; eauto|].
    eapply foldM_fringe_step with (d0:=d0); [| |exact H].
    + intros. eapply _init_wildcard_succ_fringe_step; eauto.
    + exact Hw3.
  - binv H.
    assert (Eg : d2 = d3) by (eapply gate_unchanged; [exact cw_spec | exact Hm1]).
    subst d2.
    destruct a1; cbn [negb] in H.
    + inj H. now apply fringe_step_grows.
    + inj H. split; [exact G|]. cbn [fst]. unfold heappush.
      intros x Hx. apply in_app_or in Hx. destruct Hx as [Hx|[<-|[]]]; [now left|].
      right. cbn [snd]. eapply gate_ready; eauto.
      unfold nodes in *. destruct G as (-> & _). exact En.
Qed.

End WithGate.

(** The fringe that [_init_workflow] returns is ready, and the model is
    as before. *)
Lemma _init_workflow_ready inputs_ input_value (d : Dispatcher V) fs0 d0 l0 :
  (forall k, preserves (@unchanged V) (input_value k)) ->
  _init_workflow inputs_ input_value d = (Ok fs0, d0, l0) ->
  dmap d0 = dmap d /\ _wait_in d0 = _wait_in d
  /\ Forall (fun x => ready d0 (snd x)) (fst fs0).
Proof.
  intros Hiv H. unfold _init_workflow in H.
  rewrite bind_modify in H. set (d1 := set_visited _ _) in H.
  binv H. rename a into cc.
  destruct (_check_cutoff_ok d1) as (cc' & Ecc). rewrite Ecc in Hm.
  apply (f_equal (fun x => snd (fst x))) in Hm. cbn [fst snd] in Hm. subst d2.
  rewrite bind_gets in H.
  binv H. rename a into cw.
  pose proof (_check_wait_input_flag_spec Hm) as Hspec.
  destruct (_check_wait_input_flag_ok d1) as (cw' & Ecw). rewrite Ecw in Hm.
  apply (f_equal (fun x => snd (fst x))) in Hm. cbn [fst snd] in Hm. subst d2.
  unfold add_visited, wf_add_node in H. rewrite !bind_modify in H.
  set (d2 := set_workflow _ _) in H.
  assert (S0 : fringe_step d2 ([], [(START, -1)]) d0 fs0).
  { eapply foldM_fringe_step with (d0:=d1); [| |exact H].
    - intros. eapply _init_input_fringe_step; eauto.
    - reflexivity. }
  destruct S0 as [(G1 & _ & _ & _ & G5 & _) Hx].
  split; [rewrite G1; reflexivity|]. split; [rewrite G5; reflexivity|].
  rewrite Forall_forall. intros x Hin. destruct (Hx x Hin) as [[]|Hr]. exact Hr.
Qed.

(** C7. In a run that starts with [_init_workflow] (a dispatch, or a
    call of a [SubDispatchFunction]), every node in the fringe, at the
    start and after any number of turns of the main loop, is ready: if
    it waits for its inputs (by its own flag or by an override), all
    its predecessors in the dispatcher map are visited.  So is the node
    that [heappop] gives, when it is popped and when it is estimated. *)
Theorem fringe_nodes_are_ready
        inputs_ input_value (d d0 : Dispatcher V) fs0 l0 ct cc cw nc fs d' :
  (forall k, preserves (@unchanged V) (input_value k)) ->
  _init_workflow inputs_ input_value d = (Ok fs0, d0, l0) ->
  _check_targets d0 = (Ok ct, d0, []) ->
  _check_wait_input_flag d0 = (Ok cw, d0, []) ->
  turns py_iter ct cc cw nc fs0 d0 fs d' ->
  Forall (fun x => ready d0 (snd x)) (fst fs0)
  /\ Forall (fun x => ready d' (snd x)) (fst fs)
  /\ forall dd flag v fringe,
      heappop (fst fs) = Some ((dd, flag, v), fringe) ->
      ready d' v /\ ready (popped v dd d') v.
Proof.
  intros Hiv Hinit Hct Hcw T.
  destruct (_init_workflow_ready Hiv Hinit) as (_ & _ & F0).
  split; [exact F0|].
  pose proof (_check_wait_input_flag_spec Hcw) as Hspec.
  pose proof (_check_targets_spec Hct) as Hgrows.
  assert (F : Forall (fun x => ready d' (snd x)) (fst fs))
    by (eapply turns_ready; [exact Hspec | exact Hgrows | exact T | reflexivity | exact F0]).
  split; [exact F|].
  intros dd flag v fringe Hpop.
  apply heappop_spec in Hpop. destruct Hpop as [Hin _].
  rewrite Forall_forall in F. pose proof (F _ Hin) as R. cbn [snd] in R.
  split; [exact R|]. eapply ready_grows; [|exact R].
  unfold popped. grows_modify.
Qed.

End FringeFacts.

Lemma fringe_nodes_are_ready_witness :
  Forall (fun x => ready NegativeWeight.d0 (snd x)) (fst NegativeWeight.fs0)
  /\ Forall (fun x => ready (snd NegativeWeight.after_two) (snd x))
            (fst (fst NegativeWeight.after_two))
  /\ forall dd flag v fringe,
      heappop (fst (fst NegativeWeight.after_two)) = Some ((dd, flag, v), fringe) ->
      ready (snd NegativeWeight.after_two) v
      /\ ready (popped v dd (snd NegativeWeight.after_two)) v.
Proof.
  pose (iv := [(NegativeWeight.a, User (NegativeWeight.PNum 1));
               (NegativeWeight.w, User (NegativeWeight.PNum 2))]).
  refine (@fringe_nodes_are_ready
            NegativeWeight.pv NegativeWeight.pv_iter
            (keys iv) (fun k => bind (item k iv) (fun v => ret (Some v)))
            (NegativeWeight.dsp true) NegativeWeight.d0 NegativeWeight.fs0 []
            NegativeWeight.ct NegativeWeight.cc NegativeWeight.cw false
            (fst NegativeWeight.after_two) (snd NegativeWeight.after_two)
            _ _ _ _ _).
  - intros k d. unfold unchanged, bind, item. destruct (get k iv); reflexivity.
  - vm_compute. reflexivity.
  - reflexivity.
  - reflexivity.
  - apply turns_run_turns.
Defined.

(** ** [shrink_dsp] with [outputs] unset *)

(** C4, as stated, fails when inputs are given: the outputs are then the
    data nodes that the dispatch without calls reaches, and the result
    is the sub-dispatcher they induce.  [dsp.shrink_dsp(['a'])] on the
    model [a -> f -> b] gives the whole model back. *)
Lemma shrink_dsp_by_inputs_is_not_empty :
  exists d,
    fst (fst (ShrinkByInputs.shrunk None)) = Ok d
    /\ keys (nodes d) = [ShrinkByInputs.a; ShrinkByInputs.b; ShrinkByInputs.f]
    /\ edges (dmap d) = [(ShrinkByInputs.a, ShrinkByInputs.f);
                         (ShrinkByInputs.f, ShrinkByInputs.b)]
    /\ keys (nodes (empty_Dispatcher num)) = [].
Proof. eexists. vm_compute. repeat split. Qed.

Section ShrinkFacts.

Variable V : Type.
Variable py_iter : val V -> option (list (val V)).

(** C4, amended.  With [outputs] unset and [inputs] unset or empty,
    [shrink_dsp] returns the empty dispatcher (no nodes, no edges),
    whatever the dispatcher and the cutoff; it needs no turn of its
    loop, logs nothing, and leaves the object as it was but for the
    overrides, which it empties. *)
Theorem shrink_dsp_without_inputs_and_outputs
        (fuel run_fuel : nat) (inputs_ : py_inputs V) (cutoff : option Z)
        (d : Dispatcher V) :
  input_keys inputs_ = [] ->
  shrink_dsp py_iter fuel run_fuel inputs_ None cutoff d
  = (Ok (empty_Dispatcher V), set_wait_in [] d, [])
  /\ nodes (empty_Dispatcher V) = []
  /\ edges (dmap (empty_Dispatcher V)) = [].
Proof.
  intros E. split; [|split; reflexivity].
  unfold shrink_dsp. rewrite E. cbn [is_empty negb].
  rewrite bind_ret. cbv beta iota. rewrite bind_modify.
  reflexivity.
Qed.

End ShrinkFacts.

Lemma shrink_dsp_without_inputs_and_outputs_witness :
  input_keys (@InNone num) = []
  /\ ShrinkByInputs.shrunk_no_inputs
     = (Ok (empty_Dispatcher num), set_wait_in [] ShrinkByInputs.dsp, []).
Proof.
  split; [reflexivity|].
  exact (proj1 (@shrink_dsp_without_inputs_and_outputs
                  num no_iter 0 0 InNone None ShrinkByInputs.dsp eq_refl)).
Defined.

(** ** What the engine can raise *)

Section ThrowsFacts.

Variable V : Type.
Variable P : exn -> Prop.

Lemma throws_ret {A} (a : A) : throws P (ret (V:=V) a).
Proof. intros d e H. discriminate. Qed.

Lemma throws_raise {A} c s : P (Exn c s) -> throws P (@raise V A c s).
Proof. intros H d e E. cbn in E. now injection E as <-. Qed.

Lemma throws_out_of_fuel {A} : throws P (@out_of_fuel V A).
Proof. intros d e H. discriminate. Qed.

Lemma throws_gets {A} (f : Dispatcher V -> A) : throws P (gets f).
Proof. intros d e H. discriminate. Qed.

Lemma throws_modify (f : Dispatcher V -> Dispatcher V) : throws P (modify f).
Proof. intros d e H. discriminate. Qed.

Lemma throws_emit (ev : event V) : throws P (emit ev).
Proof. intros d e H. discriminate. Qed.

Lemma throws_lift {A} (o : outcome A) : othrows P o -> throws P (lift (V:=V) o).
Proof. intros H d e E. apply H. exact E. Qed.

Lemma throws_bind {A B} (m : M V A) (f : A -> M V B) :
  throws P m -> (forall a, throws P (f a)) -> throws P (bind m f).
Proof.
  intros Hm Hf d e. unfold bind. specialize (Hm d).
  destruct (m d) as [[o d1] l1]. cbn [fst snd] in *.
  destruct o as [a|e'|]; cbn [fst snd].
  - apply Hf.
  - intros E. injection E as <-. now apply Hm.
  - discriminate.
Qed.

Lemma throws_foldM {A S} (l : list A) (body : A -> S -> M V S) :
  (forall a s, throws P (body a s)) -> forall s, throws P (foldM l s body).
Proof.
  intros H. induction l as [|a r IH]; intros s; cbn [foldM].
  - apply throws_ret.
  - apply throws_bind; auto.
Qed.

Lemma throws_for_each {A} (l : list A) (body : A -> M V unit) :
  (forall a, throws P (body a)) -> throws P (for_each l body).
Proof. intros H. unfold for_each. apply throws_foldM. intros a s. apply H. Qed.

Lemma throws_on_object {A} (dsp : Dispatcher V) (m : M V A) :
  throws P m -> throws P (on_object dsp m).
Proof.
  intros H d e. unfold on_object. specialize (H dsp).
  destruct (m dsp) as [[o d1] l1]. cbn [fst snd] in *.
  destruct o as [a|e'|]; cbn [fst snd]; try discriminate.
  intros E. injection E as <-. now apply H.
Qed.

Lemma othrows_Ok {A} (a : A) : othrows P (Ok a).
Proof. intros e H. discriminate. Qed.

Lemma othrows_Fuel {A} : othrows P (@Fuel A).
Proof. intros e H. discriminate. Qed.

Lemma othrows_Raise {A} e : P e -> othrows P (@Raise A e).
Proof. intros H e' E. now injection E as <-. Qed.

Lemma othrows_obind {A B} (o : outcome A) (f : A -> outcome B) :
  othrows P o -> (forall a, othrows P (f a)) -> othrows P (obind o f).
Proof.
  intros Ho Hf. destruct o as [a|e'|]; cbn [obind].
  - apply Hf.
  - apply othrows_Raise. now apply Ho.
  - apply othrows_Fuel.
Qed.

Lemma othrows_ofold {A S} (l : list A) (body : A -> S -> outcome S) :
  (forall a s, othrows P (body a s)) -> forall s, othrows P (ofold l s body).
Proof.
  intros H. induction l as [|a r IH]; intros s; cbn [ofold].
  - apply othrows_Ok.
  - apply othrows_obind; auto.
Qed.

End ThrowsFacts.

Lemma throws_warning V msg :
  String.prefix unreachable_prefix msg = false -> throws other_error (@warning V msg).
Proof.
  intros H. unfold warning, _warning. apply throws_bind; [apply throws_gets|].
  intros [|]; [now apply throws_raise | apply throws_emit].
Qed.

Create HintDb throws.

#[local] Hint Resolve throws_ret throws_out_of_fuel throws_gets throws_modify throws_emit
  othrows_Ok othrows_Fuel : throws.

(** Solves [throws other_error m] by following the structure of [m]; an
    exception raised by the engine is told from the error of a
    [SubDispatchFunction] by its class or by the start of its message. *)
Ltac throws_step :=
  match goal with
  | |- forall _, throws _ _ => intro
  | |- forall _ _, throws _ _ => intro
  | |- forall _, othrows _ _ => intro
  | |- forall _ _, othrows _ _ => intro
  | |- throws _ (bind _ _) => apply throws_bind
  | |- throws _ (foldM _ _ _) => apply throws_foldM
  | |- throws _ (for_each _ _) => apply throws_for_each
  | |- throws _ (on_object _ _) => apply throws_on_object
  | |- throws _ (lift _) => apply throws_lift
  | |- throws _ (raise _ _) => apply throws_raise; reflexivity
  | |- throws _ (warning _) => apply throws_warning; reflexivity
  | |- othrows _ (obind _ _) => apply othrows_obind
  | |- othrows _ (ofold _ _ _) => apply othrows_ofold
  | |- othrows _ (Raise _) => apply othrows_Raise; reflexivity
  | |- throws _ (match ?x with _ => _ end) => destruct x
  | |- throws _ (if ?x then _ else _) => destruct x
  | |- othrows _ (match ?x with _ => _ end) => destruct x
  | |- othrows _ (if ?x then _ else _) => destruct x
  | |- throws _ ?m =>
      match m with
      | context [match ?x with _ => _ end] => is_var x; destruct x
      end
  | |- othrows _ ?m =>
      match m with
      | context [match ?x with _ => _ end] => is_var x; destruct x
      end
  | |- throws _ _ => progress cbv beta
  | |- othrows _ _ => progress cbv beta
  | |- _ => solve [eauto with throws]
  end.

Ltac throws_auto := repeat throws_step.

Section EngineThrows.

Variable V : Type.
Variable py_iter : val V -> option (list (val V)).

Lemma throws_item {A} (k : node_id) (m : dict A) : throws other_error (item (V:=V) k m).
Proof. unfold item. throws_auto. Qed.

Lemma throws_key_error {A} (o : option A) s : throws other_error (key_error (V:=V) o s).
Proof. unfold key_error. throws_auto. Qed.

Lemma othrows_oitem {A} (k : node_id) (m : dict A) : othrows other_error (oitem k m).
Proof. unfold oitem. throws_auto. Qed.

Lemma throws_wf_add_edge u v (e : wf_edge V) : throws other_error (_wf_add_edge u v e).
Proof.
  intros d x. unfold _wf_add_edge.
  destruct (add_edge_fun None (workflow d) u v e) as [g ok].
  destruct ok; cbn [fst snd]; [discriminate|].
  intros E. injection E as <-. reflexivity.
Qed.

Lemma throws_wf_remove_node n : throws other_error (@wf_remove_node V n).
Proof.
  intros d x. unfold wf_remove_node.
  destruct (remove_node n (workflow d)) as [g|]; cbn [fst snd]; [discriminate|].
  intros E. injection E as <-. reflexivity.
Qed.

Lemma throws_wf_add_node n a : throws other_error (@wf_add_node V n a).
Proof. unfold wf_add_node. throws_auto. Qed.

Lemma throws_add_visited n : throws other_error (@add_visited V n).
Proof. unfold add_visited. throws_auto. Qed.

End EngineThrows.

#[local] Hint Resolve throws_item throws_key_error othrows_oitem throws_wf_add_edge
  throws_wf_remove_node throws_wf_add_node throws_add_visited : throws.

Section RunThrows.

Variable V : Type.
Variable py_iter : val V -> option (list (val V)).

Lemma throws_check_targets : throws other_error (@_check_targets V).
Proof. unfold _check_targets. throws_auto. Qed.

Lemma throws_check_cutoff : throws other_error (@_check_cutoff V).
Proof. unfold _check_cutoff. throws_auto. Qed.

Lemma throws_check_wait_input_flag : throws other_error (@_check_wait_input_flag V).
Proof. unfold _check_wait_input_flag. throws_auto. Qed.

Lemma throws_missing_inputs n : throws other_error (@missing_inputs V n).
Proof. unfold missing_inputs. throws_auto. Qed.

Lemma throws_set_wildcards i o : throws other_error (@_set_wildcards V i o).
Proof. unfold _set_wildcards. throws_auto. Qed.

Lemma throws_set_wait_in : throws other_error (@_set_wait_in V).
Proof. unfold _set_wait_in. throws_auto. Qed.

Lemma throws_get_initial_values i nc : throws other_error (@_get_initial_values V i nc).
Proof. unfold _get_initial_values. throws_auto. Qed.

Lemma throws_get_node_estimations (attr : node_attr V) n :
  throws other_error (_get_node_estimations attr n).
Proof. unfold _get_node_estimations. throws_auto. Qed.

Lemma throws_propagate n (e : wf_edge V) : throws other_error (_propagate n e).
Proof. unfold _propagate. throws_auto. Qed.

Lemma throws_invoke_callback n (attr : node_attr V) v :
  throws other_error (_invoke_callback n attr v).
Proof. unfold _invoke_callback. throws_auto. Qed.

Lemma throws_data_node_value (attr : node_attr V) est w :
  throws other_error (_data_node_value attr est w).
Proof. unfold _data_node_value. throws_auto. Qed.

End RunThrows.

Section ClosureThrows.

Variable V : Type.
Variable py_iter : val V -> option (list (val V)).

(** [bind], when what the first part returns matters. *)
Lemma throws_bind_Ok (P : exn -> Prop) {A B} (m : M V A) (f : A -> M V B) :
  throws P m ->
  (forall d a d' l, m d = (Ok a, d', l) -> throws P (f a)) ->
  throws P (bind m f).
Proof.
  intros Hm Hf d e. unfold bind. specialize (Hm d). specialize (Hf d).
  destruct (m d) as [[o d1] l1]. cbn [fst snd] in *.
  destruct o as [a|e'|]; cbn [fst snd].
  - eapply Hf. reflexivity.
  - intros E. injection E as <-. now apply Hm.
  - discriminate.
Qed.

Lemma _check_targets_throws (d0 d1 : Dispatcher V) ct l :
  _check_targets d0 = (Ok ct, d1, l) -> forall v, throws other_error (ct v).
Proof.
  unfold _check_targets. rewrite bind_gets.
  destruct (negb (is_empty (_targets d0))); intros H; apply (f_equal fst) in H;
    apply (f_equal fst) in H; cbn [fst ret] in H; injection H as <-; intros v;
    throws_auto.
Qed.

Lemma _check_wait_input_flag_throws (d0 d1 : Dispatcher V) cw l :
  _check_wait_input_flag d0 = (Ok cw, d1, l) -> forall wi n, throws other_error (cw wi n).
Proof.
  intros H wi n. rewrite (_check_wait_input_flag_spec H).
  destruct (effective_wait_inputs d0 n wi); [apply throws_missing_inputs | throws_auto].
Qed.

Lemma throws_set_data_node_output n (attr : node_attr V) nc :
  throws other_error (_set_data_node_output n attr nc).
Proof.
  unfold _set_data_node_output. throws_auto;
    auto using throws_get_node_estimations, throws_propagate, throws_invoke_callback,
               throws_data_node_value.
Qed.

Lemma throws_set_function_node_output n (attr : node_attr V) nc :
  throws other_error (_set_function_node_output py_iter n attr nc).
Proof.
  unfold _set_function_node_output. throws_auto;
    auto using throws_get_node_estimations, throws_propagate.
Qed.

Lemma throws_set_node_output n nc : throws other_error (_set_node_output py_iter n nc).
Proof.
  unfold _set_node_output. throws_auto;
    auto using throws_set_data_node_output, throws_set_function_node_output.
Qed.

Section WithClosures.

Variable ct : node_id -> M V bool.
Variable cc : Z -> bool.
Variable cw : bool -> node_id -> M V bool.
Hypothesis ct_throws : forall v, throws other_error (ct v).
Hypothesis cw_throws : forall wi n, throws other_error (cw wi n).

Lemma throws_relax dd we fs : throws other_error (_relax cc cw dd we fs).
Proof. unfold _relax. throws_auto; auto. Qed.

Lemma throws_run_body nc dd v fs : throws other_error (_run_body py_iter ct cc cw nc dd v fs).
Proof.
  unfold _run_body. throws_auto; auto using throws_set_node_output, throws_relax.
Qed.

Lemma throws_run_loop nc fuel : forall fs,
  throws other_error (_run_loop py_iter fuel ct cc cw nc fs).
Proof.
  induction fuel as [|fuel IH]; intros fs; cbn [_run_loop];
    destruct (heappop (fst fs)) as [[[[dd flag] v] fringe]|]; throws_auto;
    auto using throws_run_body.
Qed.

Lemma throws_init_wildcard_succ v value we fs :
  throws other_error (_init_wildcard_succ cc cw v value we fs).
Proof. unfold _init_wildcard_succ. throws_auto; auto. Qed.

Lemma throws_init_input wildcards input_value v fs :
  (forall k, throws other_error (input_value k)) ->
  throws other_error (_init_input cc cw wildcards input_value v fs).
Proof.
  intros H. unfold _init_input. throws_auto; auto using throws_init_wildcard_succ.
Qed.

End WithClosures.

Lemma throws_remove_unused : throws other_error (@_remove_unused V).
Proof. unfold _remove_unused. throws_auto. Qed.

Lemma throws_run fuel fs nc : throws other_error (_run py_iter fuel fs nc).
Proof.
  unfold _run.
  apply throws_bind_Ok; [apply throws_check_targets|]. intros d1 ct d1' l1 Hct.
  apply throws_bind; [apply throws_check_cutoff|]. intros cc.
  apply throws_bind_Ok; [apply throws_check_wait_input_flag|]. intros d2 cw d2' l2 Hcw.
  apply throws_bind.
  - apply throws_run_loop.
    + eapply _check_targets_throws; eassumption.
    + eapply _check_wait_input_flag_throws; eassumption.
  - intros _. apply throws_bind; [apply throws_remove_unused|]. throws_auto.
Qed.

Lemma throws_init_workflow inputs_ input_value :
  (forall k, throws other_error (input_value k)) ->
  throws other_error (@_init_workflow V inputs_ input_value).
Proof.
  intros H. unfold _init_workflow.
  apply throws_bind; [throws_auto|]. intros _.
  apply throws_bind; [apply throws_check_cutoff|]. intros cc.
  apply throws_bind; [throws_auto|]. intros wildcards.
  apply throws_bind_Ok; [apply throws_check_wait_input_flag|]. intros d2 cw d2' l2 Hcw.
  throws_auto. apply throws_init_input; [|exact H].
  eapply _check_wait_input_flag_throws; eassumption.
Qed.

Lemma throws_init_run i o w c nc : throws other_error (@_init_run V i o w c nc).
Proof.
  unfold _init_run. throws_auto;
    auto using throws_get_initial_values, throws_set_wildcards;
    apply throws_init_workflow; throws_auto.
Qed.

Lemma throws_input_item i k : throws other_error (@input_item V i k).
Proof. unfold input_item. throws_auto. Qed.

Lemma throws_dispatch_ fuel i o c w nc :
  throws other_error (_dispatch py_iter fuel i o c w nc).
Proof.
  unfold _dispatch. throws_auto;
    auto using throws_init_run, throws_run, throws_input_item.
Qed.

End ClosureThrows.

Section ShrinkThrows.

Variable V : Type.
Variable py_iter : val V -> option (list (val V)).

Lemma othrows_neighbors (g : DiGraph unit unit) r n : othrows other_error (neighbors g r n).
Proof. unfold neighbors. throws_auto. Qed.

Lemma othrows_set_node_attr (self : Dispatcher V) g r n st :
  othrows other_error (set_node_attr self g r n st).
Proof. unfold set_node_attr. throws_auto; auto using othrows_neighbors. Qed.

Lemma othrows_put_edge u v e (st : bfs_state V) : othrows other_error (put_edge u v e st).
Proof. unfold put_edge. throws_auto. Qed.

Lemma othrows_check_node_inputs (self : Dispatcher V) g r c st :
  othrows other_error (check_node_inputs self g r c st).
Proof.
  unfold check_node_inputs. throws_auto;
    auto using othrows_set_node_attr, othrows_put_edge.
Qed.

Lemma othrows_visit_child (self : Dispatcher V) g r p nb c st :
  othrows other_error (visit_child self g r p nb c st).
Proof.
  unfold visit_child. throws_auto;
    auto using othrows_check_node_inputs, othrows_set_node_attr, othrows_put_edge.
Qed.

Lemma othrows_bfs_loop (self : Dispatcher V) g r fuel : forall i st,
  othrows other_error (bfs_loop self g r fuel i st).
Proof.
  induction fuel as [|fuel IH]; intros i st; cbn [bfs_loop];
    destruct (nth_error (family st) i); throws_auto;
    auto using othrows_neighbors, othrows_visit_child.
Qed.

Lemma othrows_bfs_sources (self : Dispatcher V) g r l :
  othrows other_error (bfs_sources self g r l).
Proof. unfold bfs_sources. throws_auto; auto using othrows_set_node_attr. Qed.

Lemma othrows_get_sub_dsp_from_workflow (self : Dispatcher V) l g r :
  othrows other_error (get_sub_dsp_from_workflow self l g r).
Proof.
  unfold get_sub_dsp_from_workflow. throws_auto;
    auto using othrows_bfs_sources, othrows_bfs_loop.
Qed.

Lemma throws_shrink_loop run_fuel o c fuel : forall i es,
  throws other_error (_shrink_loop py_iter fuel run_fuel i o c es).
Proof.
  induction fuel as [|fuel IH]; intros i es; cbn [_shrink_loop]; throws_auto;
    auto using throws_dispatch_.
Qed.

Lemma throws_shrink_dsp fuel run_fuel i o c :
  throws other_error (shrink_dsp py_iter fuel run_fuel i o c).
Proof.
  unfold shrink_dsp. throws_auto;
    auto using throws_set_wait_in, throws_shrink_loop, othrows_get_sub_dsp_from_workflow.
Qed.

End ShrinkThrows.

(** ** C9: the error of a [SubDispatchFunction] *)

Lemma mem_fold_set_add (k : node_id) (l acc : list node_id) :
  mem k (fold_left (fun acc k => set_add k acc) l acc) = mem k acc || mem k l.
Proof.
  revert acc. induction l as [|x r IH]; intros acc; cbn [fold_left mem].
  - now rewrite orb_false_r.
  - rewrite IH, mem_set_add.
    destruct (mem k acc), (node_id_eqb k x), (mem k r); reflexivity.
Qed.

Lemma mem_set_of (k : node_id) (l : list node_id) : mem k (set_of l) = mem k l.
Proof. unfold set_of. now rewrite mem_fold_set_add. Qed.

Lemma mem_keys {A} (k : node_id) (d : dict A) : mem k (keys d) = has_key k d.
Proof.
  unfold has_key. induction d as [|[k' v] r IH]; cbn [keys map mem get fst]; [reflexivity|].
  destruct (node_id_eqb k k'); [reflexivity | exact IH].
Qed.

(** Some key of [a] is not in [b]. *)
Lemma difference_not_empty (a b : list node_id) :
  is_empty (difference a b) = false <-> exists k, In k a /\ mem k b = false.
Proof.
  unfold difference. induction a as [|x r IH]; cbn [filter is_empty].
  - split; [discriminate | intros (k & [] & _)].
  - destruct (mem x b) eqn:E; cbn [negb is_empty].
    + rewrite IH. split; intros (k & Hk & Hm).
      * exists k. split; [now right | exact Hm].
      * destruct Hk as [<-|Hk]; [congruence|]. now exists k.
    + split; [|reflexivity]. intros _. exists x. split; [now left | exact E].
Qed.

(** Some requested output is not a key of [m]. *)
Lemma missed_spec {A} (l : list node_id) (m : dict A) :
  is_empty (difference (set_of l) (keys m)) = false
  <-> exists k, In k l /\ has_key k m = false.
Proof.
  rewrite difference_not_empty. split; intros (k & Hk & Hm); exists k.
  - rewrite mem_keys in Hm. split; [|exact Hm].
    apply mem_In. rewrite <- mem_set_of. now apply mem_In.
  - rewrite mem_keys. split; [|exact Hm].
    apply mem_In. rewrite mem_set_of. now apply mem_In.
Qed.

Lemma not_missed_spec {A} (l : list node_id) (m : dict A) :
  is_empty (difference (set_of l) (keys m)) = true
  <-> forall k, In k l -> has_key k m = true.
Proof.
  split.
  - intros H k Hk. destruct (has_key k m) eqn:E; [reflexivity|].
    assert (is_empty (difference (set_of l) (keys m)) = false)
      by (apply missed_spec; now exists k).
    congruence.
  - intros H. destruct (is_empty (difference (set_of l) (keys m))) eqn:E; [reflexivity|].
    apply missed_spec in E. destruct E as (k & Hk & Hm). rewrite (H k Hk) in Hm. discriminate.
Qed.

Section ReturnOutput.

Variable V : Type.

(** The list comprehension [[o[k] for k in outputs]]. *)
Lemma outputs_in_order (o : dict (val V)) (l : list node_id) : forall acc,
  (forall k, In k l -> has_key k o = true) ->
  exists vs,
    ofold l acc (fun k acc => obind (oitem k o) (fun v => Ok ((acc ++ [v])%list)))
    = Ok (acc ++ vs)%list
    /\ map (fun k => get k o) l = map Some vs.
Proof.
  induction l as [|k r IH]; intros acc H; cbn [ofold].
  - exists []. now rewrite app_nil_r.
  - assert (Hk : has_key k o = true) by (apply H; now left).
    unfold has_key in Hk. unfold oitem at 1.
    destruct (get k o) as [v|] eqn:E; [|discriminate]. cbn [obind].
    destruct (IH (acc ++ [v])%list) as (vs & E1 & E2); [intros; apply H; now right|].
    exists (v :: vs). rewrite E1, <- app_assoc. cbn [map app]. now rewrite E, E2.
Qed.

Lemma outputs_absent (o : dict (val V)) (l : list node_id) : forall acc,
  (exists k, In k l /\ has_key k o = false) ->
  exists s,
    ofold l acc (fun k acc => obind (oitem k o) (fun v => Ok ((acc ++ [v])%list)))
    = Raise (Exn KeyError s).
Proof.
  induction l as [|k r IH]; intros acc (x & Hx & Hm); [destruct Hx|].
  cbn [ofold]. unfold oitem at 1. unfold has_key in Hm.
  destruct (get k o) as [v|] eqn:E; cbn [obind].
  - apply IH. exists x. split; [|exact Hm].
    destruct Hx as [<-|Hx]; [now rewrite E in Hm | exact Hx].
  - eexists. reflexivity.
Qed.

(** [return_output] for a list of outputs that is not empty. *)
Lemma return_output_present (o : dict (val V)) (l : list node_id) :
  l <> [] ->
  (forall k, In k l -> has_key k o = true) ->
  exists vs,
    map (fun k => get k o) l = map Some vs
    /\ return_output (Some l) o
       = Ok (match vs with [v] => RScalar v | _ => RList vs end).
Proof.
  intros Hl H. unfold return_output.
  destruct l as [|k [|k' r]]; [congruence| |].
  - cbn [List.length Z.of_nat Z.ltb Z.compare Pos.compare Pos.compare_cont].
    assert (Hk : has_key k o = true) by (apply H; now left).
    unfold has_key in Hk. unfold oitem.
    destruct (get k o) as [v|] eqn:E; [|discriminate].
    exists [v]. cbn [map obind]. now rewrite E.
  - assert (E1 : (1 <? Z.of_nat (List.length (k :: k' :: r))) = true).
    { apply Z.ltb_lt. cbn [List.length]. lia. }
    rewrite E1.
    destruct (outputs_in_order o (k :: k' :: r) [] H) as (vs & E2 & E3).
    rewrite E2. cbn [obind app]. exists vs. split; [exact E3|].
    destruct vs as [|v [|v' vs]]; try reflexivity. discriminate.
Qed.

Lemma return_output_absent (o : dict (val V)) (l : list node_id) :
  (exists k, In k l /\ has_key k o = false) ->
  exists s, return_output (Some l) o = Raise (Exn KeyError s).
Proof.
  intros H. unfold return_output.
  destruct (1 <? Z.of_nat (List.length l)) eqn:E1.
  - destruct (outputs_absent o l [] H) as (s & E2). rewrite E2. now exists s.
  - destruct l as [|k r]; [destruct H as (x & [] & _)|].
    destruct r as [|k' r]; [|apply Z.ltb_ge in E1; cbn [List.length] in E1; lia].
    destruct H as (x & [<-|[]] & Hm). unfold has_key in Hm. unfold oitem.
    destruct (get k o); [discriminate|]. eexists. reflexivity.
Qed.

End ReturnOutput.

Section SubDispatchFunctionFacts.

Variable V : Type.
Variable py_iter : val V -> option (list (val V)).

(** The dictionary comprehension of [_set_wildcards] finds its keys
    when the outputs are nodes. *)
Lemma wildcards_found (node_ : dict (node_attr V)) (outs ins : list node_id)
      (d : Dispatcher V) :
  (forall k, In k outs -> has_key k node_ = true) ->
  forall acc, exists acc',
    foldM ins acc (fun u acc =>
                     if mem u outs
                     then bind (item u node_) (fun a => ret (set u a acc))
                     else ret acc) d
    = (Ok acc', d, []).
Proof.
  intros H. induction ins as [|u r IH]; intros acc; cbn [foldM].
  - now exists acc.
  - destruct (mem u outs) eqn:E.
    + assert (Hu : has_key u node_ = true) by (apply H; now apply mem_In).
      unfold has_key in Hu. unfold item.
      destruct (get u node_) as [a|]; [|discriminate].
      rewrite bind_assoc, !bind_ret. apply IH.
    + rewrite bind_ret. apply IH.
Qed.

Lemma _set_wildcards_found (ins : list node_id) (outs : option (list node_id))
      (d : Dispatcher V) :
  (forall k, In k (requested outs) -> has_key k (nodes d) = true) ->
  exists W, _set_wildcards (Some ins) outs d = (Ok tt, set_wildcards W d, []).
Proof.
  intros H. unfold _set_wildcards. rewrite bind_modify.
  destruct outs as [[|k r]|].
  - eexists. reflexivity.
  - rewrite bind_gets.
    destruct (wildcards_found (nodes (set_wildcards [] d)) (k :: r) ins
                              (set_wildcards [] d) H []) as (acc' & E).
    erewrite bind_Ok by exact E. cbn [fst snd app modify].
    eexists. reflexivity.
  - eexists. reflexivity.
Qed.

(** Construction, when the shrink has returned [dsp] and some requested
    output is not one of its nodes. *)
Lemma SubDispatchFunction_init_missed sfuel fuel function_id ins outs cutoff
      (d dsp d1 : Dispatcher V) l1 :
  shrink_dsp py_iter sfuel fuel (InKeys ins) outs cutoff d = (Ok dsp, d1, l1) ->
  is_empty (difference (set_of (requested outs)) (keys (nodes dsp))) = false ->
  SubDispatchFunction_init py_iter sfuel fuel function_id ins outs cutoff d
  = (Raise (Exn ValueError
                (unreachable_output_targets
                   (difference (set_of (requested outs)) (keys (nodes dsp))))),
     d1, l1).
Proof.
  intros Hs Hm. unfold SubDispatchFunction_init.
  erewrite bind_Ok by exact Hs.
  destruct outs as [[|k r]|]; cbn [requested] in *; try discriminate.
  rewrite Hm. cbn [negb]. rewrite bind_raise. cbn [fst snd]. now rewrite app_nil_r.
Qed.

(** Construction, when every requested output is a node of [dsp]. *)
Lemma SubDispatchFunction_init_made sfuel fuel function_id ins outs cutoff
      (d dsp d1 : Dispatcher V) l1 :
  shrink_dsp py_iter sfuel fuel (InKeys ins) outs cutoff d = (Ok dsp, d1, l1) ->
  is_empty (difference (set_of (requested outs)) (keys (nodes dsp))) = true ->
  exists W,
    SubDispatchFunction_init py_iter sfuel fuel function_id ins outs cutoff d
    = (Ok {| sf_dsp := set_name function_id (set_wildcards W dsp);
             sf_name := function_id; sf_inputs := ins; sf_outputs := outs;
             sf_cutoff := cutoff; input_values := default_values dsp;
             sf_data_output := []; sf_dist := []; sf_workflow := empty_graph _ _ |},
       d1, l1).
Proof.
  intros Hs Hm. unfold SubDispatchFunction_init.
  erewrite bind_Ok by exact Hs.
  assert (Hin : forall k, In k (requested outs) -> has_key k (nodes dsp) = true)
    by now apply not_missed_spec.
  destruct (_set_wildcards_found ins outs dsp Hin) as (W & EW).
  exists W.
  assert (E : on_object dsp
                (bind (_get_initial_values InNone false)
                      (fun iv => bind (_set_wildcards (Some ins) outs)
                                      (fun _ => bind (modify (set_name function_id))
                                                     (fun _ => ret iv)))) d1
              = (Ok (default_values dsp, set_name function_id (set_wildcards W dsp)), d1, [])).
  { assert (Em : bind (_get_initial_values InNone false)
                      (fun iv => bind (_set_wildcards (Some ins) outs)
                                      (fun _ => bind (modify (set_name function_id))
                                                     (fun _ => ret iv))) dsp
                 = (Ok (default_values dsp), set_name function_id (set_wildcards W dsp), [])).
    { unfold _get_initial_values. rewrite bind_assoc, bind_gets. cbv beta iota.
      rewrite bind_ret. erewrite bind_Ok by exact EW. cbn [fst snd app].
      rewrite bind_modify. reflexivity. }
    unfold on_object. rewrite Em. reflexivity. }
  assert (E0 : forall (k : unit -> M V (SubDispatchFunction V)),
             bind (match outs with
                   | None | Some [] => ret tt
                   | Some l =>
                       if negb (is_empty (difference (set_of l) (keys (nodes dsp))))
                       then raise ValueError
                                  (unreachable_output_targets
                                     (difference (set_of l) (keys (nodes dsp))))
                       else ret tt
                   end) k d1 = k tt d1).
  { intros k. destruct outs as [[|x r]|]; cbn [requested] in Hm; rewrite ?Hm; cbn [negb];
      apply bind_ret. }
  cbn [fst snd]. rewrite E0.
  erewrite bind_Ok by exact E. cbn [fst snd ret]. now rewrite !app_nil_r.
Qed.

(** The call, when the run has returned. *)
Lemma SubDispatchFunction_call_absent fuel args (self : SubDispatchFunction V)
      l w o d' lg :
  sf_outputs self = Some l ->
  sf_run py_iter fuel args self = (Ok (w, o), d', lg) ->
  (exists k, In k l /\ has_key k o = false) ->
  fst (fst (SubDispatchFunction_call py_iter fuel args self))
  = Raise (Exn ValueError (unreachable_output_targets (difference (set_of l) (keys o)))).
Proof.
  intros Ho Hr Ha. unfold SubDispatchFunction_call. rewrite Hr. cbn [fst snd].
  rewrite Ho. destruct (@return_output_absent V o l Ha) as (s & ->). reflexivity.
Qed.

Lemma SubDispatchFunction_call_present fuel args (self : SubDispatchFunction V)
      l w o d' lg :
  sf_outputs self = Some l -> l <> [] ->
  sf_run py_iter fuel args self = (Ok (w, o), d', lg) ->
  (forall k, In k l -> has_key k o = true) ->
  exists vs,
    map (fun k => get k o) l = map Some vs
    /\ fst (fst (SubDispatchFunction_call py_iter fuel args self))
       = Ok (match vs with [v] => RScalar v | _ => RList vs end).
Proof.
  intros Ho Hl Hr Hp. unfold SubDispatchFunction_call. rewrite Hr. cbn [fst snd].
  rewrite Ho. destruct (@return_output_present V o l Hl Hp) as (vs & E1 & ->).
  exists vs. split; [exact E1 | reflexivity].
Qed.

Lemma SubDispatchFunction_call_all fuel args (self : SubDispatchFunction V) w o d' lg :
  sf_outputs self = None ->
  sf_run py_iter fuel args self = (Ok (w, o), d', lg) ->
  fst (fst (SubDispatchFunction_call py_iter fuel args self)) = Ok (RAll o).
Proof.
  intros Ho Hr. unfold SubDispatchFunction_call. rewrite Hr. cbn [fst snd].
  rewrite Ho. reflexivity.
Qed.

End SubDispatchFunctionFacts.

Lemma prefix_app (p s : string) : String.prefix p (p ++ s) = true.
Proof.
  induction p as [|c p IH]; cbn [String.append String.prefix].
  - now destruct s.
  - destruct (Ascii.ascii_dec c c); [exact IH | congruence].
Qed.

Lemma unreachable_output_targets_is_unreachable_error (missed : list node_id) :
  is_unreachable_error (Exn ValueError (unreachable_output_targets missed)) = true.
Proof. apply prefix_app. Qed.

Section UnreachableOutputTargets.

Variable V : Type.
Variable py_iter : val V -> option (list (val V)).

Lemma throws_sf_run fuel args (self : SubDispatchFunction V) e :
  fst (fst (sf_run py_iter fuel args self)) = Raise e -> other_error e.
Proof.
  unfold sf_run. apply throws_bind.
  - apply throws_init_workflow. intros k. unfold sf_input_value. throws_auto.
  - intros fs. apply throws_run.
Qed.

(** The error at construction comes from a missed output only. *)
Lemma SubDispatchFunction_init_unreachable sfuel fuel function_id ins outs cutoff
      (d : Dispatcher V) e :
  fst (fst (SubDispatchFunction_init py_iter sfuel fuel function_id ins outs cutoff d))
  = Raise e ->
  is_unreachable_error e = true ->
  exists dsp d1 l1,
    shrink_dsp py_iter sfuel fuel (InKeys ins) outs cutoff d = (Ok dsp, d1, l1)
    /\ exists k, In k (requested outs) /\ has_key k (nodes dsp) = false.
Proof.
  intros H Hu.
  destruct (shrink_dsp py_iter sfuel fuel (InKeys ins) outs cutoff d) as [[r d1] l1] eqn:Es.
  destruct r as [dsp|e'|].
  - exists dsp, d1, l1. split; [reflexivity|].
    destruct (is_empty (difference (set_of (requested outs)) (keys (nodes dsp)))) eqn:Em.
    + destruct (@SubDispatchFunction_init_made V py_iter sfuel fuel function_id ins outs cutoff
                                              d dsp d1 l1 Es Em) as (W & E).
      rewrite E in H. discriminate.
    + now apply missed_spec.
  - unfold SubDispatchFunction_init in H. erewrite bind_Raise in H by exact Es.
    cbn [fst] in H. injection H as <-.
    assert (other_error e').
    { eapply throws_shrink_dsp. rewrite Es. reflexivity. }
    unfold other_error in *. congruence.
  - unfold SubDispatchFunction_init in H. erewrite bind_Fuel in H by exact Es.
    discriminate.
Qed.

(** The error at a call comes from an absent output only. *)
Lemma SubDispatchFunction_call_unreachable fuel args (self : SubDispatchFunction V) e :
  fst (fst (SubDispatchFunction_call py_iter fuel args self)) = Raise e ->
  is_unreachable_error e = true ->
  exists l w o d' lg,
    sf_outputs self = Some l
    /\ sf_run py_iter fuel args self = (Ok (w, o), d', lg)
    /\ exists k, In k l /\ has_key k o = false.
Proof.
  intros H Hu.
  destruct (sf_run py_iter fuel args self) as [[r d'] lg] eqn:Er.
  destruct r as [[w o]|e'|].
  - destruct (sf_outputs self) as [l|] eqn:Eo.
    + exists l, w, o, d', lg. split; [reflexivity|]. split; [reflexivity|].
      destruct (is_empty (difference (set_of l) (keys o))) eqn:Em;
        [|now apply missed_spec].
      assert (Hp : forall k, In k l -> has_key k o = true) by now apply not_missed_spec.
      destruct l as [|k r].
      * unfold SubDispatchFunction_call in H. rewrite Er in H. cbn [fst snd] in H.
        rewrite Eo in H. cbn in H. injection H as <-. discriminate.
      * assert (Hl : k :: r <> []) by discriminate.
        destruct (@SubDispatchFunction_call_present V py_iter fuel args self (k :: r) w o d' lg
                                                    Eo Hl Er Hp) as (vs & _ & E).
        rewrite E in H. discriminate.
    + rewrite (@SubDispatchFunction_call_all V py_iter fuel args self w o d' lg Eo Er) in H. discriminate.
  - unfold SubDispatchFunction_call in H. rewrite Er in H. cbn [fst snd] in H.
    injection H as <-.
    assert (other_error e').
    { eapply throws_sf_run. rewrite Er. reflexivity. }
    unfold other_error in *. congruence.
  - unfold SubDispatchFunction_call in H. rewrite Er in H. discriminate.
Qed.

End UnreachableOutputTargets.

(** C9, as stated, fails for a function made with [outputs=None], the
    default: the construction succeeds and a call returns the whole
    [data_output] map of the run, the input included, which is neither
    a list of outputs in a declared order nor a scalar. *)
Lemma call_without_outputs_returns_the_map :
  SubFunction.made None = Some SubFunction.fun_all
  /\ sf_outputs SubFunction.fun_all = None
  /\ fst (fst (SubDispatchFunction_call no_iter 10 [User (PyInt 1)] SubFunction.fun_all))
     = Ok (RAll [(SubFunction.a, User (PyInt 1)); (SubFunction.b, User (PyInt 1))])
  /\ (forall vs,
         fst (fst (SubDispatchFunction_call no_iter 10 [User (PyInt 1)] SubFunction.fun_all))
         <> Ok (RList vs))
  /\ (forall v,
         fst (fst (SubDispatchFunction_call no_iter 10 [User (PyInt 1)] SubFunction.fun_all))
         <> Ok (RScalar v)).
Proof.
  assert (E : fst (fst (SubDispatchFunction_call no_iter 10 [User (PyInt 1)]
                                                 SubFunction.fun_all))
              = Ok (RAll [(SubFunction.a, User (PyInt 1)); (SubFunction.b, User (PyInt 1))]))
    by (vm_compute; reflexivity).
  rewrite E. split; [vm_compute; reflexivity|]. split; [vm_compute; reflexivity|].
  repeat split; intros ?; discriminate.
Qed.

Section UnreachableOutputTargetsError.

Variable V : Type.
Variable py_iter : val V -> option (list (val V)).

(** C9, amended.  Construction: when [shrink_dsp] has returned, the
    [ValueError] that starts with ['Unreachable output-targets:'] is
    raised if some requested output is not a node of the shrunk
    dispatcher, and the function is made otherwise; the construction
    raises such an error in that case only (never when [outputs] is
    [None]).  Call, for a non-empty list of outputs: when the run has
    returned, the same error is raised if some declared output is absent
    from the run's [data_output], and otherwise the values of the outputs
    are returned in declared order, one value alone when there is one
    output.  A call raises such an error in that case only.  Call, when
    [outputs] is [None]: the whole [data_output] map is returned. *)
Theorem unreachable_output_targets_error :
  (forall sfuel fuel function_id ins outs cutoff (d dsp d1 : Dispatcher V) l1,
      shrink_dsp py_iter sfuel fuel (InKeys ins) outs cutoff d = (Ok dsp, d1, l1) ->
      ((exists k, In k (requested outs) /\ has_key k (nodes dsp) = false) ->
       SubDispatchFunction_init py_iter sfuel fuel function_id ins outs cutoff d
       = (Raise (Exn ValueError
                     (unreachable_output_targets
                        (difference (set_of (requested outs)) (keys (nodes dsp))))),
          d1, l1)
       /\ is_unreachable_error
            (Exn ValueError
                 (unreachable_output_targets
                    (difference (set_of (requested outs)) (keys (nodes dsp))))) = true)
      /\ ((forall k, In k (requested outs) -> has_key k (nodes dsp) = true) ->
          exists f,
            SubDispatchFunction_init py_iter sfuel fuel function_id ins outs cutoff d
            = (Ok f, d1, l1)
            /\ sf_inputs f = ins /\ sf_outputs f = outs
            /\ dmap (sf_dsp f) = dmap dsp
            /\ input_values f = default_values dsp))
  /\ (forall sfuel fuel function_id ins outs cutoff (d : Dispatcher V) e,
         fst (fst (SubDispatchFunction_init py_iter sfuel fuel function_id ins outs cutoff d))
         = Raise e ->
         is_unreachable_error e = true ->
         exists dsp d1 l1,
           shrink_dsp py_iter sfuel fuel (InKeys ins) outs cutoff d = (Ok dsp, d1, l1)
           /\ exists k, In k (requested outs) /\ has_key k (nodes dsp) = false)
  /\ (forall fuel args (self : SubDispatchFunction V) l w o d' lg,
         sf_outputs self = Some l -> l <> [] ->
         sf_run py_iter fuel args self = (Ok (w, o), d', lg) ->
         ((exists k, In k l /\ has_key k o = false) ->
          fst (fst (SubDispatchFunction_call py_iter fuel args self))
          = Raise (Exn ValueError
                       (unreachable_output_targets (difference (set_of l) (keys o)))))
         /\ ((forall k, In k l -> has_key k o = true) ->
             exists vs,
               map (fun k => get k o) l = map Some vs
               /\ fst (fst (SubDispatchFunction_call py_iter fuel args self))
                  = Ok (match vs with [v] => RScalar v | _ => RList vs end)))
  /\ (forall fuel args (self : SubDispatchFunction V) e,
         fst (fst (SubDispatchFunction_call py_iter fuel args self)) = Raise e ->
         is_unreachable_error e = true ->
         exists l w o d' lg,
           sf_outputs self = Some l
           /\ sf_run py_iter fuel args self = (Ok (w, o), d', lg)
           /\ exists k, In k l /\ has_key k o = false)
  /\ (forall fuel args (self : SubDispatchFunction V) w o d' lg,
         sf_outputs self = None ->
         sf_run py_iter fuel args self = (Ok (w, o), d', lg) ->
         fst (fst (SubDispatchFunction_call py_iter fuel args self)) = Ok (RAll o)).
Proof.
  split; [|split; [|split; [|split]]].
  - intros sfuel fuel function_id ins outs cutoff d dsp d1 l1 Hs. split.
    + intros Ha. split; [|apply unreachable_output_targets_is_unreachable_error].
      apply SubDispatchFunction_init_missed; [exact Hs|]. now apply missed_spec.
    + intros Hp.
      assert (Hm : is_empty (difference (set_of (requested outs)) (keys (nodes dsp))) = true)
        by now apply not_missed_spec.
      destruct (@SubDispatchFunction_init_made V py_iter sfuel fuel function_id ins outs
                                               cutoff d dsp d1 l1 Hs Hm) as (W & E).
      eexists. split; [exact E|]. repeat split.
  - intros. eapply SubDispatchFunction_init_unreachable; eassumption.
  - intros fuel args self l w o d' lg Ho Hl Hr. split.
    + intros Ha. eapply SubDispatchFunction_call_absent; eassumption.
    + intros Hp. eapply SubDispatchFunction_call_present; eassumption.
  - intros. eapply SubDispatchFunction_call_unreachable; eassumption.
  - intros. eapply SubDispatchFunction_call_all; eassumption.
Qed.

End UnreachableOutputTargetsError.

Lemma unreachable_output_targets_error_witness :
  fst (fst (SubFunction.make (Some [SubFunction.zz])))
  = Raise (Exn ValueError "Unreachable output-targets:{'zz'}")
  /\ fst (fst (SubDispatchFunction_call no_iter 10 [] SubFunction.fun_b))
     = Raise (Exn ValueError "Unreachable output-targets:{'b'}")
  /\ exists vs,
      map (fun k => get k [(SubFunction.a, User (PyInt 1)); (SubFunction.b, User (PyInt 1))])
          [SubFunction.b] = map Some vs
      /\ fst (fst (SubDispatchFunction_call no_iter 10 [User (PyInt 1)] SubFunction.fun_b))
         = Ok (match vs with [v] => RScalar v | _ => RList vs end).
Proof.
  pose proof (@unreachable_output_targets_error num no_iter) as (Hinit & _ & Hcall & _ & _).
  split; [|split].
  - pose (r := shrink_dsp no_iter 10 10 (InKeys [SubFunction.a]) (Some [SubFunction.zz])
                          None ShrinkByInputs.dsp).
    assert (Er : r = (Ok (empty_Dispatcher num), snd (fst r), [])) by (vm_compute; reflexivity).
    destruct (Hinit 10%nat 10%nat "fun" [SubFunction.a] (Some [SubFunction.zz]) None
                    ShrinkByInputs.dsp _ _ _ Er) as [Hraise _].
    destruct Hraise as [E _].
    + exists SubFunction.zz. split; [now left | reflexivity].
    + unfold SubFunction.make. rewrite E. reflexivity.
  - pose (r := sf_run no_iter 10 [] SubFunction.fun_b).
    assert (Er : r = (Ok (fst (match fst (fst r) with Ok x => x | _ => (empty_graph _ _, []) end),
                          []),
                      snd (fst r), snd r))
      by (vm_compute; reflexivity).
    assert (Eo : sf_outputs SubFunction.fun_b = Some [SubFunction.b]) by (vm_compute; reflexivity).
    assert (Hl : [SubFunction.b] <> []) by discriminate.
    destruct (Hcall 10%nat [] SubFunction.fun_b _ _ _ _ _ Eo Hl Er) as [Hraise _].
    rewrite Hraise; [reflexivity|].
    exists SubFunction.b. split; [now left | reflexivity].
  - pose (r := sf_run no_iter 10 [User (PyInt 1)] SubFunction.fun_b).
    assert (Er : r = (Ok (fst (match fst (fst r) with Ok x => x | _ => (empty_graph _ _, []) end),
                          [(SubFunction.a, User (PyInt 1)); (SubFunction.b, User (PyInt 1))]),
                      snd (fst r), snd r))
      by (vm_compute; reflexivity).
    assert (Eo : sf_outputs SubFunction.fun_b = Some [SubFunction.b]) by (vm_compute; reflexivity).
    assert (Hl : [SubFunction.b] <> []) by discriminate.
    destruct (Hcall 10%nat [User (PyInt 1)] SubFunction.fun_b _ _ _ _ _ Eo Hl Er) as [_ Hret].
    apply Hret. intros k [<-|[]]. reflexivity.
Defined.

(* ------------------------------------------------------------------ *)
(** * Further properties of the code *)

(** ** [dispatcher/utils.py] *)

Section PairwiseFacts.

Variable A : Type.

Lemma pairwise_cons (x y : A) (l : list A) :
  Utils.pairwise (x :: y :: l) = (x, y) :: Utils.pairwise (y :: l).
Proof. reflexivity. Qed.

(** [pairwise] gives one pair less than there are items (none for an
    empty or a one-item iterable), and its [i]-th pair is made of the
    [i]-th item and the next one. *)
Theorem pairwise_adjacent (l : list A) :
  List.length (Utils.pairwise l) = Nat.pred (List.length l)
  /\ forall i a b,
      nth_error (Utils.pairwise l) i = Some (a, b)
      <-> nth_error l i = Some a /\ nth_error l (S i) = Some b.
Proof.
  induction l as [|x [|y r] IH].
  - split; [reflexivity|]. intros [|i] a b; cbn; split; try discriminate;
      intros [E _]; discriminate.
  - split; [reflexivity|]. intros [|i] a b; cbn; split; try discriminate.
    + intros [_ E]. discriminate.
    + intros [E _]. destruct i; discriminate.
  - rewrite pairwise_cons. destruct IH as [IHl IHn]. split.
    + cbn [List.length Nat.pred] in *. now rewrite IHl.
    + intros [|i] a b.
      * cbn. split.
        -- intros E. injection E as <- <-. auto.
        -- intros [E1 E2]. injection E1 as <-. injection E2 as <-. reflexivity.
      * cbn [nth_error]. apply IHn.
Qed.

End PairwiseFacts.

Section HeapFlushFacts.

Lemma int_min_le (l : list Z) : forall x, Utils.int_min x l <= x.
Proof.
  induction l as [|y r IH]; intros x; cbn [Utils.int_min]; [lia|].
  destruct (y <? x) eqn:E.
  - apply Z.ltb_lt in E. specialize (IH y). lia.
  - apply IH.
Qed.

Lemma int_min_least (l : list Z) : forall x y, In y l -> Utils.int_min x l <= y.
Proof.
  induction l as [|z r IH]; intros x y []; cbn [Utils.int_min].
  - subst z. destruct (y <? x) eqn:E.
    + apply int_min_le.
    + apply Z.ltb_ge in E. pose proof (int_min_le r x). lia.
  - now apply IH.
Qed.

Lemma int_min_In (l : list Z) : forall x, In (Utils.int_min x l) (x :: l).
Proof.
  induction l as [|y r IH]; intros x; cbn [Utils.int_min]; [now left|].
  destruct (y <? x).
  - specialize (IH y). destruct IH as [H|H]; [right; left; exact H | right; right; exact H].
  - specialize (IH x). destruct IH as [H|H]; [left; exact H | right; right; exact H].
Qed.

Lemma int_remove_perm (x : Z) (l : list Z) :
  In x l -> Permutation l (x :: Utils.int_remove x l).
Proof.
  induction l as [|y r IH]; intros H; [destruct H|].
  cbn [Utils.int_remove]. destruct (x =? y) eqn:E.
  - apply Z.eqb_eq in E. subst y. reflexivity.
  - destruct H as [H|H]; [apply Z.eqb_neq in E; congruence|].
    rewrite perm_swap. now constructor; apply IH.
Qed.

(** What [heappop] gives: a least item, and the heap without it. *)
Lemma int_heappop_spec (h : list Z) x h' :
  Utils.int_heappop h = Some (x, h') ->
  Permutation h (x :: h') /\ forall y, In y h -> x <= y.
Proof.
  destruct h as [|z r]; [discriminate|]. unfold Utils.int_heappop.
  intros H. injection H as <- <-. split.
  - apply int_remove_perm. apply int_min_In.
  - intros y [<-|Hy]; [apply int_min_le | now apply int_min_least].
Qed.

Lemma heap_flush_loop_spec (fuel : nat) : forall heap acc,
  (List.length heap <= fuel)%nat ->
  Sorted Z.le acc ->
  (forall a y, In a acc -> In y heap -> a <= y) ->
  exists out,
    Utils.heap_flush_loop fuel heap acc = Some (out, [])
    /\ Sorted Z.le out /\ Permutation out (acc ++ heap).
Proof.
  induction fuel as [|fuel IH]; intros heap acc L S B.
  - destruct heap; [|cbn in L; lia]. exists acc. cbn. now rewrite app_nil_r.
  - destruct heap as [|z r].
    + exists acc. cbn. now rewrite app_nil_r.
    + cbn [Utils.heap_flush_loop].
      destruct (Utils.int_heappop (z :: r)) as [[x h']|] eqn:E; [|discriminate].
      destruct (int_heappop_spec _ E) as [P Hmin].
      destruct (IH h' (acc ++ [x])%list) as (out & E1 & S1 & P1).
      * apply Permutation_length in P. cbn [List.length] in *. lia.
      * clear - S B Hmin P.
        assert (Hx : forall a, In a acc -> a <= x).
        { intros a Ha. apply B; [exact Ha|].
          eapply Permutation_in; [symmetry; exact P | now left]. }
        induction acc as [|a acc IHa]; cbn.
        -- repeat constructor.
        -- inversion S as [|? ? S' R]; subst. constructor.
           ++ apply IHa; auto.
              ** intros; apply B; [now right | assumption].
              ** intros; apply Hx; now right.
           ++ destruct acc as [|b acc]; cbn; constructor.
              ** apply Hx. now left.
              ** inversion R; subst. assumption.
      * intros a y Ha Hy. apply in_app_or in Ha. destruct Ha as [Ha|[<-|[]]].
        -- apply B; [exact Ha|]. eapply Permutation_in; [symmetry; exact P | now right].
        -- apply Hmin. eapply Permutation_in; [symmetry; exact P | now right].
      * exists out. split; [exact E1|]. split; [exact S1|].
        rewrite P1, <- app_assoc. cbn [app]. apply Permutation_app_head.
        symmetry. exact P.
Qed.

(** [heap_flush] returns: it gives the items of the heap in ascending
    order, each as many times as the heap held it, and leaves the heap
    empty. *)
Theorem heap_flush_sorts (heap : list Z) :
  exists ordered_list,
    Utils.heap_flush heap = Some (ordered_list, [])
    /\ Sorted Z.le ordered_list
    /\ Permutation ordered_list heap.
Proof.
  unfold Utils.heap_flush.
  destruct (heap_flush_loop_spec (fuel:=List.length heap) heap (acc:=[])) as (out & E & S & P).
  - lia.
  - constructor.
  - intros a y [].
  - exists out. auto.
Qed.

End HeapFlushFacts.

(** ** Dictionaries without a repeated key *)

Section DictFacts.

Variable A : Type.

Lemma get_None_keys (k : node_id) (d : dict A) : get k d = None <-> ~ In k (keys d).
Proof.
  induction d as [|[k' v] r IH]; cbn [get keys map fst].
  - tauto.
  - destruct (node_id_eqb_spec k k') as [->|N].
    + split; [discriminate | intros H; exfalso; apply H; now left].
    + fold (keys r). rewrite IH. split.
      * intros H [E|E]; [congruence | now apply H].
      * intros H E. apply H. now right.
Qed.

Lemma has_key_keys (k : node_id) (d : dict A) : has_key k d = true <-> In k (keys d).
Proof.
  unfold has_key. pose proof (get_None_keys k d) as H.
  destruct (get k d).
  - split; [|reflexivity]. intros _.
    destruct (in_dec (fun a b => reflect_dec _ _ (node_id_eqb_spec a b)) k (keys d)) as [I|I];
      [exact I|]. apply H in I. discriminate.
  - split; [discriminate|]. intros I. now apply H in I.
Qed.

Lemma keys_set (k : node_id) (v : A) (d : dict A) :
  keys (set k v d) = if has_key k d then keys d else (keys d ++ [k])%list.
Proof.
  unfold has_key. induction d as [|[k' v'] r IH]; cbn [set get keys map fst app].
  - reflexivity.
  - destruct (node_id_eqb_spec k k') as [->|N]; cbn [keys map fst].
    + reflexivity.
    + fold (keys (set k v r)). fold (keys r). rewrite IH.
      now destruct (get k r).
Qed.

Lemma NoDup_keys_set (k : node_id) (v : A) (d : dict A) :
  NoDup (keys d) -> NoDup (keys (set k v d)).
Proof.
  intros H. rewrite keys_set. destruct (has_key k d) eqn:E; [exact H|].
  apply NoDup_app; [exact H | repeat constructor; intros [] | ].
  intros x Hx [<-|[]]. apply has_key_keys in Hx. congruence.
Qed.

Lemma get_del_other (k k' : node_id) (d : dict A) :
  k <> k' -> get k (del k' d) = get k d.
Proof.
  intros N. induction d as [|[k2 v2] r IH]; cbn [del get]; [reflexivity|].
  destruct (node_id_eqb_spec k' k2) as [->|N2]; cbn [get].
  - apply node_id_eqb_neq in N. now rewrite N.
  - now rewrite IH.
Qed.

Lemma keys_del_incl (k : node_id) (d : dict A) : incl (keys (del k d)) (keys d).
Proof.
  induction d as [|[k2 v2] r IH]; cbn [del keys map fst]; [easy|].
  destruct (node_id_eqb k k2); cbn [keys map fst].
  - now apply incl_tl.
  - intros x [<-|H]; [now left | right; now apply IH].
Qed.

Lemma NoDup_keys_del (k : node_id) (d : dict A) :
  NoDup (keys d) -> NoDup (keys (del k d)).
Proof.
  induction d as [|[k2 v2] r IH]; cbn [del keys map fst]; intros H; [constructor|].
  inversion H as [|? ? Hn Hr]; subst.
  destruct (node_id_eqb k k2); cbn [keys map fst]; [exact Hr|].
  constructor; [|now apply IH]. intros I. apply Hn. now apply (keys_del_incl k r).
Qed.

Lemma get_del_same (k : node_id) (d : dict A) :
  NoDup (keys d) -> get k (del k d) = None.
Proof.
  induction d as [|[k2 v2] r IH]; cbn [del keys map fst get]; intros H; [reflexivity|].
  inversion H as [|? ? Hn Hr]; subst.
  destruct (node_id_eqb_spec k k2) as [->|N]; cbn [get].
  - now apply get_None_keys.
  - apply node_id_eqb_neq in N. rewrite N. now apply IH.
Qed.

Lemma has_key_del (k k' : node_id) (d : dict A) :
  NoDup (keys d) -> has_key k (del k' d) = negb (node_id_eqb k k') && has_key k d.
Proof.
  intros H. unfold has_key. destruct (node_id_eqb_spec k k') as [->|N].
  - now rewrite get_del_same.
  - now rewrite get_del_other.
Qed.

Lemma get_app (k : node_id) (d e : dict A) :
  get k (d ++ e)%list = match get k d with Some v => Some v | None => get k e end.
Proof.
  induction d as [|[k' v] r IH]; simpl.
  - reflexivity.
  - destruct (node_id_eqb k k'); [reflexivity | exact IH].
Qed.

Lemma keys_app (d e : dict A) : keys (d ++ e)%list = (keys d ++ keys e)%list.
Proof. apply map_app. Qed.

End DictFacts.

(** ** [AttrDict] *)

Section AttrDictFacts.

Variable A : Type.
Variable isidentifier : string -> bool.

Lemma init_fold (ks : list node_id) : forall acc : dict node_id,
  NoDup (keys acc) ->
  NoDup (keys (fold_left (fun acc k => if Utils.is_attr isidentifier k then set k k acc else acc) ks acc))
  /\ forall k,
      get k (fold_left (fun acc k => if Utils.is_attr isidentifier k then set k k acc else acc) ks acc)
      = if Utils.is_attr isidentifier k && mem k ks then Some k else get k acc.
Proof.
  induction ks as [|x r IH]; intros acc H; cbn [fold_left mem].
  - split; [exact H|]. intros k. now rewrite andb_false_r.
  - destruct (Utils.is_attr isidentifier x) eqn:Ex.
    + destruct (IH (set x x acc)) as [N G]; [now apply NoDup_keys_set|]. split; [exact N|].
      intros k. rewrite G. destruct (node_id_eqb_spec k x) as [->|Nk]; cbn [orb].
      * rewrite Ex. cbn [andb]. destruct (mem x r); [reflexivity | apply get_set_same].
      * now rewrite get_set_other.
    + destruct (IH acc H) as [N G]. split; [exact N|].
      intros k. rewrite G. destruct (node_id_eqb_spec k x) as [->|Nk]; cbn [orb]; [|reflexivity].
      rewrite Ex. cbn [andb]. destruct (mem x r); reflexivity.
Qed.

Lemma AttrDict_init_in_step (d : dict A) :
  NoDup (keys d) -> Utils.in_step isidentifier (Utils.AttrDict_init isidentifier d).
Proof.
  intros H. unfold Utils.in_step, Utils.AttrDict_init, Utils.AttrDict_getattr. cbn.
  destruct (@init_fold (keys d) []) as [N G]; [constructor|].
  split; [exact H|]. split; [exact N|]. intros k. rewrite G, mem_keys.
  now destruct (Utils.is_attr isidentifier k && has_key k d).
Qed.

Lemma AttrDict_setitem_in_step key value (d : Utils.AttrDict A) :
  Utils.in_step isidentifier d -> Utils.in_step isidentifier (Utils.AttrDict_setitem isidentifier key value d).
Proof.
  intros (N1 & N2 & G). unfold Utils.in_step, Utils.AttrDict_setitem, Utils.AttrDict_getattr in *.
  cbn. split; [now apply NoDup_keys_set|]. split.
  - destruct (Utils.is_attr isidentifier key); [now apply NoDup_keys_set | exact N2].
  - intros k. rewrite has_key_set. destruct (node_id_eqb_spec k key) as [->|Nk]; cbn [orb].
    + destruct (Utils.is_attr isidentifier key) eqn:E; cbn [andb]; [apply get_set_same|].
      rewrite G, E. reflexivity.
    + destruct (Utils.is_attr isidentifier key); [rewrite get_set_other by exact Nk|]; apply G.
Qed.

Lemma del_in_step k (d : Utils.AttrDict A) :
  Utils.in_step isidentifier d ->
  Utils.in_step isidentifier {| Utils.ad_items := del k (Utils.ad_items d);
             Utils.ad_dict := del k (Utils.ad_dict d) |}.
Proof.
  intros (N1 & N2 & G). unfold Utils.in_step, Utils.AttrDict_getattr in *. cbn.
  split; [now apply NoDup_keys_del|]. split; [now apply NoDup_keys_del|].
  intros x. rewrite has_key_del by exact N1.
  destruct (node_id_eqb_spec x k) as [->|Nx]; cbn [negb andb].
  - rewrite get_del_same by exact N2. now rewrite andb_false_r.
  - rewrite get_del_other by exact Nx. apply G.
Qed.

Lemma AttrDict_popitem_in_step (d : Utils.AttrDict A) :
  Utils.in_step isidentifier d -> Utils.in_step isidentifier (snd (Utils.AttrDict_popitem d)).
Proof.
  intros H. unfold Utils.AttrDict_popitem.
  destruct (List.rev (Utils.ad_items d)) as [|[k v] r] eqn:E; [exact H|]. cbn [snd].
  assert (Ei : Utils.ad_items d = (List.rev r ++ [(k, v)])%list).
  { rewrite <- (rev_involutive (Utils.ad_items d)), E. reflexivity. }
  destruct H as (N1 & N2 & G). unfold Utils.in_step, Utils.AttrDict_getattr in *. cbn.
  rewrite Ei, keys_app in N1. cbn [keys map fst] in N1.
  assert (Nk : ~ In k (keys (List.rev r))).
  { apply NoDup_remove_2 in N1. rewrite app_nil_r in N1. exact N1. }
  split; [apply NoDup_remove_1 in N1; now rewrite app_nil_r in N1|].
  split; [now apply NoDup_keys_del|].
  intros x. destruct (node_id_eqb_spec x k) as [->|Nx].
  - rewrite get_del_same by exact N2.
    apply get_None_keys in Nk. unfold has_key. rewrite Nk. now rewrite andb_false_r.
  - rewrite get_del_other by exact Nx. rewrite G, Ei. unfold has_key.
    rewrite get_app. cbn [get]. apply node_id_eqb_neq in Nx. rewrite Nx.
    now destruct (get x (List.rev r)).
Qed.

(** Every call that changes an [AttrDict] keeps its attributes in step
    with its items, also a call that raises; so does any sequence of
    calls on a dictionary made by [AttrDict(d)]. *)
Theorem AttrDict_attributes_follow_items (d : dict A) (calls : list (Utils.call A)) :
  NoDup (keys d) ->
  Utils.in_step isidentifier (fold_left (fun ad c => Utils.do_call isidentifier c ad) calls
                     (Utils.AttrDict_init isidentifier d))
  /\ Utils.in_step isidentifier (Utils.AttrDict_copy isidentifier
                (fold_left (fun ad c => Utils.do_call isidentifier c ad) calls
                           (Utils.AttrDict_init isidentifier d))).
Proof.
  intros H.
  assert (I : forall ad, Utils.in_step isidentifier ad ->
                         Utils.in_step isidentifier (fold_left (fun ad c => Utils.do_call isidentifier c ad)
                                            calls ad)).
  { induction calls as [|c r IH]; intros ad Had; cbn [fold_left]; [exact Had|].
    apply IH. destruct c as [k v|k|k dflt| |]; cbn [Utils.do_call].
    - now apply AttrDict_setitem_in_step.
    - unfold Utils.AttrDict_delitem. destruct (has_key k (Utils.ad_items ad)); cbn [snd];
        [now apply del_in_step | exact Had].
    - unfold Utils.AttrDict_pop. cbn [snd]. now apply del_in_step.
    - now apply AttrDict_popitem_in_step.
    - unfold Utils.in_step, Utils.AttrDict_clear, Utils.AttrDict_getattr. cbn.
      repeat split; try constructor. intros k. now rewrite andb_false_r. }
  assert (S := I _ (@AttrDict_init_in_step d H)). split; [exact S|].
  unfold Utils.AttrDict_copy. apply AttrDict_init_in_step. apply S.
Qed.

End AttrDictFacts.

Lemma AttrDict_attributes_follow_items_witness :
  NoDup (keys [(Id "a", 3); (Id "b", 4)])
  /\ Utils.in_step (fun _ => true)
       (fold_left (fun ad c => Utils.do_call (fun _ => true) c ad)
                  [Utils.Pop (Id "b") None; Utils.SetItem (Id "c") 5; Utils.PopItem Z]
                  (Utils.AttrDict_init (fun _ => true) [(Id "a", 3); (Id "b", 4)])).
Proof.
  assert (N : NoDup (keys [(Id "a", 3); (Id "b", 4)])).
  { cbn. repeat constructor; cbn; intuition discriminate. }
  split; [exact N|].
  exact (proj1 (@AttrDict_attributes_follow_items Z (fun _ => true)
                  [(Id "a", 3); (Id "b", 4)]
                  [Utils.Pop (Id "b") None; Utils.SetItem (Id "c") 5; Utils.PopItem Z] N)).
Defined.

(** ** [dispatcher/utils/dsp.py] *)

Section UpdateFacts.

Variable A : Type.

Lemma update_cons (d : dict A) k v (e : dict A) :
  update d ((k, v) :: e) = update (set k v d) e.
Proof. reflexivity. Qed.

Lemma get_update (k : node_id) (e : dict A) : forall d,
  NoDup (keys e) ->
  get k (update d e) = match get k e with Some v => Some v | None => get k d end.
Proof.
  induction e as [|[k' v'] r IH]; intros d H; [reflexivity|].
  rewrite update_cons. cbn [keys map fst] in H. inversion H as [|? ? Hn Hr]; subst.
  rewrite IH by exact Hr. cbn [get].
  destruct (node_id_eqb_spec k k') as [->|N].
  - apply get_None_keys in Hn. rewrite Hn. apply get_set_same.
  - now rewrite get_set_other.
Qed.

Lemma NoDup_keys_update (e : dict A) : forall d,
  NoDup (keys d) -> NoDup (keys (update d e)).
Proof.
  induction e as [|[k v] r IH]; intros d H; [exact H|].
  rewrite update_cons. apply IH. now apply NoDup_keys_set.
Qed.

Lemma get_combine (k : node_id) (dicts : list (dict A)) : forall res,
  Forall (fun d => NoDup (keys d)) dicts ->
  get k (fold_left (fun res a => update res a) dicts res)
  = match DspUtils.last_value k dicts with Some v => Some v | None => get k res end.
Proof.
  induction dicts as [|d r IH]; intros res H; [reflexivity|].
  inversion H as [|? ? Hd Hr]; subst. cbn [fold_left DspUtils.last_value].
  rewrite IH by exact Hr. destruct (DspUtils.last_value k r); [reflexivity|].
  now apply get_update.
Qed.

Lemma NoDup_keys_combine (dicts : list (dict A)) : forall res,
  NoDup (keys res) ->
  NoDup (keys (fold_left (fun res a => update res a) dicts res)).
Proof.
  induction dicts as [|d r IH]; intros res H; [exact H|].
  cbn [fold_left]. apply IH. now apply NoDup_keys_update.
Qed.

Lemma get_combine_dicts (dicts : list (dict A)) (k : node_id) :
  Forall (fun d => NoDup (keys d)) dicts ->
  get k (DspUtils.combine_dicts dicts) = DspUtils.last_value k dicts
  /\ NoDup (keys (DspUtils.combine_dicts dicts)).
Proof.
  intros H. unfold DspUtils.combine_dicts.
  assert (G : get k (fold_left (fun res a => update res a) dicts [])
              = DspUtils.last_value k dicts
              /\ NoDup (keys (fold_left (fun res a => update res a) dicts []))).
  { split; [|apply NoDup_keys_combine; constructor].
    rewrite get_combine by exact H. now destruct (DspUtils.last_value k dicts). }
  destruct dicts as [|d [|d' r]]; try exact G.
  inversion H; subst. split; [|assumption].
  cbn [DspUtils.last_value]. reflexivity.
Qed.

(** [combine_dicts] gives a dictionary in which a key has the value of
    the last dictionary that holds it, and is absent when none does. *)
Theorem combine_dicts_last_wins (dicts : list (dict A)) (k : node_id) :
  Forall (fun d => NoDup (keys d)) dicts ->
  get k (DspUtils.combine_dicts dicts) = DspUtils.last_value k dicts
  /\ NoDup (keys (DspUtils.combine_dicts dicts)).
Proof. apply get_combine_dicts. Qed.

End UpdateFacts.

Lemma combine_dicts_last_wins_witness :
  Forall (fun d => NoDup (keys d))
         [[(Id "a", 3); (Id "c", 3)]; [(Id "a", 1); (Id "b", 2)]]
  /\ get (Id "a") (DspUtils.combine_dicts
                     [[(Id "a", 3); (Id "c", 3)]; [(Id "a", 1); (Id "b", 2)]])
     = Some 1.
Proof.
  assert (H : Forall (fun d => NoDup (keys d))
                     [[(Id "a", 3); (Id "c", 3)]; [(Id "a", 1); (Id "b", 2)]]).
  { repeat constructor; cbn; intuition discriminate. }
  split; [exact H|].
  exact (proj1 (@combine_dicts_last_wins Z _ (Id "a") H)).
Defined.

Section SelectorFacts.

Variable A : Type.

Lemma select_fold (keys_ : list node_id) (it : dict A) : forall acc,
  NoDup (keys it) ->
  forall k,
    get k (fold_left (fun acc kv =>
                        if mem (fst kv) keys_ then set (fst kv) (snd kv) acc else acc) it acc)
    = match (if mem k keys_ then get k it else None) with
      | Some v => Some v
      | None => get k acc
      end.
Proof.
  induction it as [|[k' v'] r IH]; intros acc H k; cbn [fold_left fst snd].
  - now destruct (mem k keys_).
  - cbn [keys map fst] in H. inversion H as [|? ? Hn Hr]; subst.
    rewrite IH by exact Hr. cbn [get].
    destruct (node_id_eqb_spec k k') as [->|N].
    + apply get_None_keys in Hn. rewrite Hn.
      destruct (mem k' keys_); [apply get_set_same | reflexivity].
    + destruct (mem k keys_).
      * destruct (get k r); [reflexivity|].
        destruct (mem k' keys_); [now rewrite get_set_other | reflexivity].
      * destruct (mem k' keys_); [now rewrite get_set_other | reflexivity].
Qed.

(** [selector] with the output type ['dict'] never raises: it gives the
    dictionary that holds, of the chosen keys, the ones that some
    dictionary holds, each with the value of the last dictionary that
    holds it; a chosen key that no dictionary holds is passed over. *)
Theorem selector_dict_drops_missing_keys (keys_ : list node_id) (dicts : list (dict A)) :
  Forall (fun d => NoDup (keys d)) dicts ->
  exists d,
    DspUtils.selector keys_ dicts false = Return (DspUtils.SDict d)
    /\ forall k,
        get k d = if mem k keys_ then DspUtils.last_value k dicts else None.
Proof.
  intros H. unfold DspUtils.selector. eexists. split; [reflexivity|].
  intros k. destruct (@get_combine_dicts A dicts k H) as [G N].
  rewrite select_fold by exact N. rewrite G.
  destruct (mem k keys_); [|reflexivity]. now destruct (DspUtils.last_value k dicts).
Qed.

Lemma lookup_all_present (it : dict A) (ks : list node_id) :
  (forall k, In k ks -> has_key k it = true) ->
  exists vs, DspUtils.lookup_all it ks = Return vs
             /\ map (fun k => get k it) ks = map Some vs.
Proof.
  induction ks as [|k r IH]; intros H; cbn [DspUtils.lookup_all].
  - now exists [].
  - assert (Hk : has_key k it = true) by (apply H; now left).
    unfold has_key in Hk. unfold DspUtils.lookup.
    destruct (get k it) as [v|] eqn:E; [|discriminate].
    destruct IH as (vs & -> & E2); [intros; apply H; now right|].
    exists (v :: vs). cbn [map]. now rewrite E, E2.
Qed.

Lemma lookup_all_absent (it : dict A) (ks : list node_id) :
  (exists k, In k ks /\ has_key k it = false) ->
  exists k, In k ks /\ has_key k it = false
            /\ DspUtils.lookup_all it ks = Throw (Exn KeyError (repr_node k)).
Proof.
  induction ks as [|k r IH]; intros (x & Hx & Hm); [destruct Hx|].
  cbn [DspUtils.lookup_all]. unfold DspUtils.lookup.
  destruct (get k it) as [v|] eqn:E.
  - destruct IH as (y & Hy & Hmy & ->).
    + exists x. split; [|exact Hm].
      destruct Hx as [<-|Hx]; [|exact Hx]. unfold has_key in Hm. now rewrite E in Hm.
    + exists y. split; [now right|]. split; [exact Hmy | reflexivity].
  - exists k. split; [now left|]. split; [|reflexivity]. unfold has_key. now rewrite E.
Qed.

(** [selector] with the output type ['list'] and some chosen key: when
    the combined dictionary holds every chosen key it gives their
    values in the order of the keys, one value alone for one key;
    otherwise it raises the [KeyError] of a chosen key that is
    missing.  With no chosen key it raises an [IndexError]. *)
Theorem selector_list_needs_every_key (keys_ : list node_id) (dicts : list (dict A)) :
  (keys_ = [] ->
   DspUtils.selector keys_ dicts true = Throw (Exn IndexError "list index out of range"))
  /\ (keys_ <> [] ->
      (forall k, In k keys_ -> has_key k (DspUtils.combine_dicts dicts) = true) ->
      exists vs,
        map (fun k => get k (DspUtils.combine_dicts dicts)) keys_ = map Some vs
        /\ DspUtils.selector keys_ dicts true
           = Return (match vs with [v] => DspUtils.SOne v | _ => DspUtils.STuple vs end))
  /\ ((exists k, In k keys_ /\ has_key k (DspUtils.combine_dicts dicts) = false) ->
      exists k,
        In k keys_ /\ has_key k (DspUtils.combine_dicts dicts) = false
        /\ DspUtils.selector keys_ dicts true = Throw (Exn KeyError (repr_node k))).
Proof.
  unfold DspUtils.selector. split; [|split].
  - intros ->. reflexivity.
  - intros Hn Hp. destruct keys_ as [|k [|k' r]]; [congruence| |].
    + cbn [List.length Z.of_nat Z.ltb Z.compare Pos.compare Pos.compare_cont].
      assert (Hk : has_key k (DspUtils.combine_dicts dicts) = true) by (apply Hp; now left).
      unfold has_key in Hk. unfold DspUtils.lookup.
      destruct (get k (DspUtils.combine_dicts dicts)) as [v|] eqn:E; [|discriminate].
      exists [v]. cbn [map]. now rewrite E.
    + assert (E1 : (1 <? Z.of_nat (List.length (k :: k' :: r))) = true).
      { apply Z.ltb_lt. cbn [List.length]. lia. }
      rewrite E1.
      destruct (@lookup_all_present (DspUtils.combine_dicts dicts) (k :: k' :: r) Hp)
        as (vs & -> & E3).
      exists vs. split; [exact E3|].
      destruct vs as [|v [|v' vs]]; try reflexivity. discriminate.
  - intros Ha. destruct (1 <? Z.of_nat (List.length keys_)) eqn:E1.
    + destruct (@lookup_all_absent (DspUtils.combine_dicts dicts) keys_ Ha) as (k & Hk & Hm & ->).
      now exists k.
    + destruct keys_ as [|k r]; [destruct Ha as (x & [] & _)|].
      destruct r as [|k' r]; [|apply Z.ltb_ge in E1; cbn [List.length] in E1; lia].
      destruct Ha as (x & [<-|[]] & Hm). exists k. split; [now left|]. split; [exact Hm|].
      unfold has_key in Hm. unfold DspUtils.lookup.
      now destruct (get k (DspUtils.combine_dicts dicts)).
Qed.

End SelectorFacts.

Lemma selector_dict_drops_missing_keys_witness :
  Forall (fun d => NoDup (keys d))
         [[(Id "a", 1); (Id "b", 1)]; [(Id "b", 2); (Id "c", 3)]]
  /\ exists d,
      DspUtils.selector [Id "a"; Id "b"; Id "zz"]
                        [[(Id "a", 1); (Id "b", 1)]; [(Id "b", 2); (Id "c", 3)]] false
      = Return (DspUtils.SDict d)
      /\ forall k,
          get k d = if mem k [Id "a"; Id "b"; Id "zz"]
                    then DspUtils.last_value
                           k [[(Id "a", 1); (Id "b", 1)]; [(Id "b", 2); (Id "c", 3)]]
                    else None.
Proof.
  assert (H : Forall (fun d => NoDup (keys d))
                     [[(Id "a", 1); (Id "b", 1)]; [(Id "b", 2); (Id "c", 3)]]).
  { repeat constructor; cbn; intuition discriminate. }
  split; [exact H|].
  exact (@selector_dict_drops_missing_keys Z [Id "a"; Id "b"; Id "zz"] _ H).
Defined.

Lemma selector_list_needs_every_key_witness :
  [Id "a"; Id "zz"] <> []
  /\ exists k,
      In k [Id "a"; Id "zz"]
      /\ has_key k (DspUtils.combine_dicts [[(Id "a", 1); (Id "b", 1)]]) = false
      /\ DspUtils.selector [Id "a"; Id "zz"] [[(Id "a", 1); (Id "b", 1)]] true
         = Throw (Exn KeyError (repr_node k)).
Proof.
  split; [discriminate|].
  apply (proj2 (proj2 (@selector_list_needs_every_key Z [Id "a"; Id "zz"]
                                                       [[(Id "a", 1); (Id "b", 1)]]))).
  exists (Id "zz"). split; [right; now left | reflexivity].
Defined.

Section MapDictFacts.

Variable A : Type.
Variable key_map : dict node_id.

Lemma map_fold_other (it : dict A) (k' : node_id) : forall acc,
  (forall k, In k (keys it) -> DspUtils.new_key key_map k <> k') ->
  get k' (fold_left (fun acc kv => set (DspUtils.new_key key_map (fst kv)) (snd kv) acc)
                    it acc)
  = get k' acc.
Proof.
  induction it as [|[k0 v0] r IH]; intros acc H; cbn [fold_left fst snd]; [reflexivity|].
  rewrite IH by (intros k Hk; apply H; now right).
  apply get_set_other. intros E. apply (H k0); [now left | now symmetry].
Qed.

Lemma map_fold_found (it : dict A) : forall acc k v,
  NoDup (keys it) ->
  (forall k1 k2, In k1 (keys it) -> In k2 (keys it) ->
                 DspUtils.new_key key_map k1 = DspUtils.new_key key_map k2 -> k1 = k2) ->
  get k it = Some v ->
  get (DspUtils.new_key key_map k)
      (fold_left (fun acc kv => set (DspUtils.new_key key_map (fst kv)) (snd kv) acc) it acc)
  = Some v.
Proof.
  induction it as [|[k0 v0] r IH]; intros acc k v N Inj G; [discriminate|].
  cbn [keys map fst] in N. inversion N as [|? ? Hn Hr]; subst.
  cbn [fold_left fst snd]. cbn [get] in G.
  destruct (node_id_eqb_spec k k0) as [->|Nk].
  - injection G as <-. rewrite map_fold_other; [apply get_set_same|].
    intros k Hk E. apply Hn. rewrite <- (Inj k k0); [exact Hk | now right | now left | exact E].
  - apply IH; [exact Hr | | exact G].
    intros k1 k2 H1 H2. apply Inj; now right.
Qed.

Lemma map_fold_from (it : dict A) : forall acc k' v,
  NoDup (keys it) ->
  get k' (fold_left (fun acc kv => set (DspUtils.new_key key_map (fst kv)) (snd kv) acc)
                    it acc) = Some v ->
  (exists k, DspUtils.new_key key_map k = k' /\ get k it = Some v)
  \/ get k' acc = Some v.
Proof.
  induction it as [|[k0 v0] r IH]; intros acc k' v N G; [now right|].
  cbn [keys map fst] in N. inversion N as [|? ? Hn Hr]; subst.
  cbn [fold_left fst snd] in G. apply IH in G; [|exact Hr].
  destruct G as [(k & E & G)|G].
  - left. exists k. split; [exact E|]. cbn [get].
    destruct (node_id_eqb_spec k k0) as [->|Nk]; [|exact G].
    exfalso. apply Hn. apply has_key_keys. unfold has_key. now rewrite G.
  - destruct (node_id_eqb_spec k' (DspUtils.new_key key_map k0)) as [->|Nk].
    + rewrite get_set_same in G. injection G as <-. left. exists k0. split; [reflexivity|].
      cbn [get]. now rewrite node_id_eqb_refl.
    + rewrite get_set_other in G by exact Nk. now right.
Qed.

(** [map_dict] renames the keys of the combined dictionary: when no two
    of its keys get the same new key, every item is found under its new
    key with its value, and the result holds nothing else. *)
Theorem map_dict_renames_keys (dicts : list (dict A)) :
  Forall (fun d => NoDup (keys d)) dicts ->
  (forall k1 k2,
      In k1 (keys (DspUtils.combine_dicts dicts)) ->
      In k2 (keys (DspUtils.combine_dicts dicts)) ->
      DspUtils.new_key key_map k1 = DspUtils.new_key key_map k2 -> k1 = k2) ->
  (forall k v,
      DspUtils.last_value k dicts = Some v ->
      get (DspUtils.new_key key_map k) (DspUtils.map_dict key_map dicts) = Some v)
  /\ (forall k' v,
         get k' (DspUtils.map_dict key_map dicts) = Some v ->
         exists k, DspUtils.new_key key_map k = k' /\ DspUtils.last_value k dicts = Some v).
Proof.
  intros H Inj. unfold DspUtils.map_dict. split.
  - intros k v G. destruct (@get_combine_dicts A dicts k H) as [E N].
    apply map_fold_found; [exact N | exact Inj | congruence].
  - intros k' v G. destruct (@get_combine_dicts A dicts k' H) as [_ N].
    apply map_fold_from in G; [|exact N]. destruct G as [(k & E & G)|G]; [|discriminate].
    exists k. split; [exact E|].
    destruct (@get_combine_dicts A dicts k H) as [E' _]. congruence.
Qed.

End MapDictFacts.

Lemma map_dict_renames_keys_witness :
  Forall (fun d => NoDup (keys d)) [[(Id "a", 1); (Id "b", 1)]; [(Id "b", 2)]]
  /\ get (DspUtils.new_key [(Id "a", Id "c"); (Id "b", Id "d")] (Id "b"))
         (DspUtils.map_dict [(Id "a", Id "c"); (Id "b", Id "d")]
                            [[(Id "a", 1); (Id "b", 1)]; [(Id "b", 2)]])
     = Some 2.
Proof.
  assert (H : Forall (fun d => NoDup (keys d)) [[(Id "a", 1); (Id "b", 1)]; [(Id "b", 2)]]).
  { repeat constructor; cbn; intuition discriminate. }
  split; [exact H|].
  refine (proj1 (@map_dict_renames_keys Z [(Id "a", Id "c"); (Id "b", Id "d")]
                                        [[(Id "a", 1); (Id "b", 1)]; [(Id "b", 2)]] H _)
                (Id "b") 2 eq_refl).
  intros k1 k2 H1 H2. cbn in H1, H2.
  destruct H1 as [<-|[<-|[]]], H2 as [<-|[<-|[]]]; cbn; intros E; congruence.
Defined.
